(** * UserAssistParser: decoding of UserAssist registry values

    A shallow embedding of [UserAssistParser.py] and of the parts of the
    Python standard library it calls ([struct.unpack], [str.split],
    [str.replace], the rot-13 codec, [timedelta], integer true division,
    [datetime.utcfromtimestamp], [strftime], [pathlib.Path] and the system
    calls behind [exists], [mkdir] and [open]).

    Conventions.
    - Python [int] is [Z]; [bytes] is [list byte]; [str] is [string].
    - A Python [float] is a finite binary64 number and is represented by the
      rational it denotes ([Q]); every operation rounds its exact result to
      the nearest binary64 number, ties to even.
    - A Python exception is a [Raise] result; code that prints and writes
      files runs in a state monad over a [world]: the printed lines, the
      working directory and a file system of directories and regular
      files.  Paths are those of [pathlib] on POSIX. *)

From Stdlib Require Import ZArith List String Ascii Strings.Byte Bool Lia.
From Stdlib Require Import QArith Qround Qabs Qpower Lqa.
Import ListNotations.

Local Open Scope string_scope.
Local Open Scope Z_scope.

(* ================================================================== *)
(** * Exceptions and results *)

Inductive exn : Type :=
| StructError                 (* struct.error: buffer of the wrong size *)
| ValueError                  (* datetime: year out of range *)
| TypeError                   (* iteration over None *)
| IndexError
| FileNotFoundError
| NotADirectoryError
| IsADirectoryError
| FileExistsError
| RegistryKeyNotFoundException
| SystemExit (msg : string).

Inductive result (A : Type) : Type :=
| Ok (a : A)
| Raise (e : exn).

Arguments Ok {A} a.
Arguments Raise {A} e.

Definition bind {A B : Type} (r : result A) (k : A -> result B) : result B :=
  match r with
  | Ok a => k a
  | Raise e => Raise e
  end.

Declare Scope result_scope.
Delimit Scope result_scope with result.
Notation "x <- r ;; k" := (bind r (fun x => k))
  (at level 61, r at next level, right associativity) : result_scope.

(* ================================================================== *)
(** * Python values held in a parsed record *)

(** [ua_data] is a heterogeneous Python list: integers and strings.  The
    empty string is the source's marker for a field that is absent. *)
Inductive pyval : Type :=
| PInt (z : Z)
| PStr (s : string).

Definition absent : pyval := PStr "".

(* ================================================================== *)
(** * bytes, slices and struct.unpack *)

Definition bytes : Type := list byte.

(** [data[lo:hi]] for [0 <= lo <= hi]: slicing clamps to the length. *)
Definition slice (lo hi : nat) (data : bytes) : bytes :=
  firstn (hi - lo) (skipn lo data).

(** [data[lo:]] *)
Definition slice_from (lo : nat) (data : bytes) : bytes := skipn lo data.

Definition byte_val (b : byte) : Z := Z.of_N (Byte.to_N b).

(** Little-endian unsigned value of a byte string. *)
Fixpoint le_uint (bs : bytes) : Z :=
  match bs with
  | [] => 0
  | b :: rest => byte_val b + 256 * le_uint rest
  end.

(** [struct.unpack(fmt, buf)[0]] for the formats ["<I"] (4 bytes) and
    ["<Q"] (8 bytes): struct.error unless the buffer has the exact size. *)
Definition unpack_le (size : nat) (buf : bytes) : result Z :=
  if Nat.eqb (List.length buf) size then Ok (le_uint buf) else Raise StructError.

Definition unpack_I : bytes -> result Z := unpack_le 4.
Definition unpack_Q : bytes -> result Z := unpack_le 8.

(* ================================================================== *)
(** * str: split, replace, rot-13, number formatting *)

(** [s.split(sep)[0]] for a one-character separator: the text before the
    first separator, the whole string when there is none. *)
Fixpoint split0 (sep : ascii) (s : string) : string :=
  match s with
  | EmptyString => EmptyString
  | String c rest =>
      if Ascii.eqb c sep then EmptyString else String c (split0 sep rest)
  end.

(** [s.replace(old, new)]: every non-overlapping occurrence, scanning from
    the left.  [skip] counts the characters of a match still to be dropped. *)
Fixpoint replace_scan (old new : string) (skip : nat) (s : string) : string :=
  match s with
  | EmptyString => EmptyString
  | String c rest =>
      match skip with
      | S k => replace_scan old new k rest
      | O =>
          if String.prefix old s
          then new ++ replace_scan old new (String.length old - 1) rest
          else String c (replace_scan old new O rest)
      end
  end.

(** With an empty [old], Python inserts [new] before every character and at
    the end. *)
Fixpoint intersperse (new : string) (s : string) : string :=
  match s with
  | EmptyString => new
  | String c rest => new ++ String c (intersperse new rest)
  end.

Definition replace (old new s : string) : string :=
  match old with
  | EmptyString => intersperse new s
  | _ => replace_scan old new O s
  end.

(** [codecs.encode(s, 'rot-13')]: ASCII letters rotate by 13 within their
    case, everything else is kept. *)
Definition rot13_char (c : ascii) : ascii :=
  let n := nat_of_ascii c in
  if (97 <=? n)%nat && (n <=? 122)%nat
  then ascii_of_nat (97 + (n - 97 + 13) mod 26)
  else if (65 <=? n)%nat && (n <=? 90)%nat
  then ascii_of_nat (65 + (n - 65 + 13) mod 26)
  else c.

Fixpoint rot13 (s : string) : string :=
  match s with
  | EmptyString => EmptyString
  | String c rest => String (rot13_char c) (rot13 rest)
  end.

(** Decimal digits. [zpad w n] is the [w] low decimal digits of [n >= 0],
    most significant first. *)
Definition digit (d : Z) : ascii := ascii_of_nat (48 + Z.to_nat d).

Fixpoint zpad (w : nat) (n : Z) : string :=
  match w with
  | O => EmptyString
  | S w' => String (digit ((n / 10 ^ Z.of_nat w') mod 10)) (zpad w' n)
  end.

(** Number of decimal digits of [n >= 0] (at least one). *)
Fixpoint ndigits_fuel (fuel : nat) (n : Z) : nat :=
  match fuel with
  | O => 1%nat
  | S f => if n <? 10 then 1%nat else S (ndigits_fuel f (n / 10))
  end.

Definition ndigits (n : Z) : nat := ndigits_fuel (Z.to_nat (Z.log2 n)) n.

(** ["%0<w>d" % n] for [n >= 0]: at least [w] digits, zero padded. *)
Definition fmt_d (w : nat) (n : Z) : string := zpad (Nat.max w (ndigits n)) n.

(* ================================================================== *)
(** * float: binary64 numbers as the rationals they denote *)

Module Float.
Local Open Scope Q_scope.

(** [round(x)]: the nearest integer, ties to the even one. *)
Definition rne (x : Q) : Z :=
  let f := Qfloor x in
  match Qcompare (x - inject_Z f) (1 # 2) with
  | Lt => f
  | Gt => (f + 1)%Z
  | Eq => if Z.even f then f else (f + 1)%Z
  end.

(** [floor (log2 x)] for [x > 0]. *)
Definition ilog2 (x : Q) : Z :=
  let e := (Z.log2 (Qnum x) - Z.log2 (Zpos (Qden x)))%Z in
  if Qle_bool (2 ^ e) x then e else (e - 1)%Z.

(** Unit in the last place of the binade of [x]: 53 significant bits. *)
Definition ulp (x : Q) : Q := 2 ^ (ilog2 (Qabs x) - 52).

(** Rounding of an exact result to binary64, for results in the normal
    range (all magnitudes met here lie between 2^-80 and 2^64). *)
Definition RN (x : Q) : Q :=
  if Qeq_bool x 0 then 0 else Qred (inject_Z (rne (x / ulp x)) * ulp x).

(** [a / b] on Python ints: the correctly rounded quotient. *)
Definition true_divide (a b : Z) : Q := RN (inject_Z a / inject_Z b).

(** [x * y] on floats. *)
Definition mul (x y : Q) : Q := RN (x * y).

(** Integral part of [math.modf]: truncation toward zero. *)
Definition trunc (x : Q) : Z :=
  if Qle_bool 0 x then Qfloor x else Qceiling x.

(** [math.modf(x)]: fractional and integral parts, both with the sign of
    [x]; the subtraction is exact. *)
Definition modf (x : Q) : Q * Z := (Qred (x - inject_Z (trunc x)), trunc x).
End Float.

(* ================================================================== *)
(** * datetime: proleptic Gregorian calendar, utcfromtimestamp, strftime *)

Record datetime : Type := mk_datetime
  { year : Z; month : Z; day : Z;
    hour : Z; minute : Z; second : Z; microsecond : Z }.

Definition MINYEAR : Z := 1.
Definition MAXYEAR : Z := 9999.

Definition DI400Y : Z := 146097.
Definition DI100Y : Z := 36524.
Definition DI4Y : Z := 1461.

Definition DAYS_IN_MONTH : list Z :=
  [-1; 31; 28; 31; 30; 31; 30; 31; 31; 30; 31; 30; 31].
Definition DAYS_BEFORE_MONTH : list Z :=
  [-1; 0; 31; 59; 90; 120; 151; 181; 212; 243; 273; 304; 334].

Definition table_get (t : list Z) (i : Z) : Z := nth (Z.to_nat i) t 0.

Definition bool_int (b : bool) : Z := if b then 1 else 0.

Definition is_leap (y : Z) : bool :=
  (y mod 4 =? 0) && (negb (y mod 100 =? 0) || (y mod 400 =? 0)).

(** Month and day of the 0-based day [n] of a year: the estimate
    [(n + 50) >> 5] is right or one too large. *)
Definition month_day (leapyear : bool) (n : Z) : Z * Z :=
  let m := Z.shiftr (n + 50) 5 in
  let preceding :=
    table_get DAYS_BEFORE_MONTH m + bool_int ((2 <? m) && leapyear) in
  if n <? preceding
  then
    let m := m - 1 in
    let preceding :=
      preceding - (table_get DAYS_IN_MONTH m + bool_int ((m =? 2) && leapyear)) in
    (m, n - preceding + 1)
  else (m, n - preceding + 1).

(** [_ord2ymd]: day ordinal (1 = 0001-01-01) to year, month, day. *)
Definition ord2ymd (ordinal : Z) : Z * Z * Z :=
  let n := ordinal - 1 in
  let n400 := n / DI400Y in
  let n := n mod DI400Y in
  let y := n400 * 400 + 1 in
  let n100 := n / DI100Y in
  let n := n mod DI100Y in
  let n4 := n / DI4Y in
  let n := n mod DI4Y in
  let n1 := n / 365 in
  let n := n mod 365 in
  let y := y + n100 * 100 + n4 * 4 + n1 in
  if (n1 =? 4) || (n100 =? 4) then (y - 1, 12, 31)
  else
    let leapyear := (n1 =? 3) && (negb (n4 =? 24) || (n100 =? 3)) in
    let '(m, d) := month_day leapyear n in
    (y, m, d).

(** Ordinal of 1970-01-01. *)
Definition EPOCH_ORDINAL : Z := 719163.

(** [time.gmtime(t)] on whole seconds, then the [datetime] constructor,
    which rejects a year outside [MINYEAR..MAXYEAR] with ValueError.  The C
    library's gmtime is taken to be the POSIX one: it accepts negative
    values and computes the proleptic Gregorian date, as [_ord2ymd] does. *)
Definition datetime_of_seconds (t us : Z) : result datetime :=
  let days := t / 86400 in
  let rem := t mod 86400 in
  let '(y, m, d) := ord2ymd (days + EPOCH_ORDINAL) in
  let hh := rem / 3600 in
  let mm := (rem mod 3600) / 60 in
  let ss := Z.min (rem mod 60) 59 in
  if (MINYEAR <=? y) && (y <=? MAXYEAR)
  then Ok (mk_datetime y m d hh mm ss us)
  else Raise ValueError.

(** Seconds and microseconds that [utcfromtimestamp] derives from a float
    timestamp: split with modf, round the fraction to microseconds (ties to
    even) and carry into the seconds. *)
Definition microseconds (frac : Q) : Z :=
  Float.rne (Float.mul frac (inject_Z 1000000)).      (* round(frac * 1e6) *)

Definition timestamp_parts (t : Q) : Z * Z :=
  let '(frac, t) := Float.modf t in
  let us := microseconds frac in
  if 1000000 <=? us then (t + 1, us - 1000000)
  else if us <? 0 then (t - 1, us + 1000000)
  else (t, us).

(** The whole seconds of a float timestamp. *)
Definition timestamp_seconds (t : Q) : Z := fst (timestamp_parts t).

Definition utcfromtimestamp (t : Q) : result datetime :=
  let '(secs, us) := timestamp_parts t in datetime_of_seconds secs us.

(** [strftime]: the directives the program uses; glibc prints [%Y] without
    padding and the others on two digits. *)
Definition directive (d : ascii) (dt : datetime) : string :=
  if Ascii.eqb d "Y" then fmt_d 1 (year dt)
  else if Ascii.eqb d "m" then fmt_d 2 (month dt)
  else if Ascii.eqb d "d" then fmt_d 2 (day dt)
  else if Ascii.eqb d "H" then fmt_d 2 (hour dt)
  else if Ascii.eqb d "M" then fmt_d 2 (minute dt)
  else if Ascii.eqb d "S" then fmt_d 2 (second dt)
  else String "%" (String d EmptyString).

Fixpoint strftime (fmt : string) (dt : datetime) : string :=
  match fmt with
  | EmptyString => EmptyString
  | String c rest =>
      if Ascii.eqb c "%"
      then match rest with
           | EmptyString => String c EmptyString
           | String d rest' => directive d dt ++ strftime rest' dt
           end
      else String c (strftime rest dt)
  end.

(* ================================================================== *)
(** * timedelta *)

Record timedelta : Type := mk_timedelta
  { td_days : Z; td_seconds : Z; td_microseconds : Z }.

(** [timedelta(milliseconds=ms)] for an int argument: exact normalisation. *)
Definition timedelta_milliseconds (ms : Z) : timedelta :=
  let microseconds := ms * 1000 in
  let seconds := microseconds / 1000000 in
  let us := microseconds mod 1000000 in
  let days := seconds / 86400 in
  let seconds := seconds mod 86400 in
  mk_timedelta days seconds us.

(** [str(td)] *)
Definition timedelta_str (td : timedelta) : string :=
  let mm := td_seconds td / 60 in
  let ss := td_seconds td mod 60 in
  let hh := mm / 60 in
  let mm := mm mod 60 in
  let s := fmt_d 1 hh ++ ":" ++ fmt_d 2 mm ++ ":" ++ fmt_d 2 ss in
  let s :=
    if td_days td =? 0 then s
    else (fmt_d 1 (td_days td) ++ " day"
          ++ (if Z.abs (td_days td) =? 1 then "" else "s") ++ ", ") ++ s in
  if td_microseconds td =? 0 then s
  else s ++ "." ++ fmt_d 6 (td_microseconds td).

(* ================================================================== *)
(** * UserAssistParser.py: the pure part *)

Local Open Scope result_scope.

Definition EPOCH_AS_FILETIME : Z := 116444736000000000.
Definition HUNDREDS_OF_NANOSECONDS : Z := 10000000.

(** [convert_filetime(ft)]: [/] is true division, so the timestamp handed
    to [utcfromtimestamp] is a float. *)
Definition convert_filetime (ft : Z) : result string :=
  dt <- utcfromtimestamp
          (Float.true_divide (ft - EPOCH_AS_FILETIME) HUNDREDS_OF_NANOSECONDS) ;;
  Ok (strftime "%Y-%m-%d %H:%M:%S (UTC)" dt).

(** [raw_data_parser(data)] *)
Definition raw_data_parser (data : bytes) : result (list pyval) :=
  let ua_data : list pyval := [] in
  if Nat.eqb (List.length data) 16 then          (* WinXP *)
    run_count <- unpack_I (slice 4 8 data) ;;
    let run_count := run_count - 5 in
    let focus_count := PStr "" in
    let focus_time := PStr "" in
    ft <- unpack_Q (slice_from 8 data) ;;
    last_executed <- (if ft =? 0 then Ok "" else convert_filetime ft) ;;
    Ok (ua_data ++ [PInt run_count; focus_count; focus_time; PStr last_executed])%list
  else if Nat.eqb (List.length data) 72 then     (* Win7+ *)
    run_count <- unpack_I (slice 4 8 data) ;;
    focus_count <- unpack_I (slice 8 12 data) ;;
    ms <- unpack_I (slice 12 16 data) ;;
    let focus_time := split0 "." (timedelta_str (timedelta_milliseconds ms)) in
    ft <- unpack_Q (slice 60 68 data) ;;
    last_executed <- (if ft =? 0 then Ok "" else convert_filetime ft) ;;
    Ok (ua_data ++ [PInt run_count; PInt focus_count; PStr focus_time;
                    PStr last_executed])%list
  else Ok ua_data.

Section KnownFolders.

(** [lib.known_folders.folder_guids]: the table itself is not part of the
    sources at hand; it is a dict (insertion ordered, keys distinct) from
    identifier to folder name and is taken as a parameter. *)
Variable folder_guids : list (string * string).

(** The [for key, val in folder_guids.items()] loop of [resolve_guid]. *)
Fixpoint resolve_guid_items (items : list (string * string))
         (program : string) : string :=
  match items with
  | [] => program
  | (key, val) :: rest =>
      if String.eqb key (split0 "\" program)
      then replace key val program
      else resolve_guid_items rest program
  end.

Definition resolve_guid (program : string) : string :=
  resolve_guid_items folder_guids program.

(** The Identifier Resolver as [get_key] calls it:
    [resolve_guid(codecs.encode(value.name(), 'rot-13'))]. *)
Definition resolve (obfuscated_name : string) : string :=
  resolve_guid (rot13 obfuscated_name).

(* ================================================================ *)
(** * The effectful part: paths, file system, hive and console *)

(** ** pathlib on POSIX: a path is a root and a list of names *)

(** [s.split(sep)] for a one-character separator. *)
Fixpoint split_on (sep : ascii) (s : string) : list string :=
  match s with
  | EmptyString => [EmptyString]
  | String c rest =>
      if Ascii.eqb c sep then EmptyString :: split_on sep rest
      else match split_on sep rest with
           | [] => [String c EmptyString]
           | x :: xs => String c x :: xs
           end
  end.

(** Number of separators in front of [s]. *)
Fixpoint leading (sep : ascii) (s : string) : nat :=
  match s with
  | EmptyString => O
  | String c rest => if Ascii.eqb c sep then S (leading sep rest) else O
  end.

Record path : Type := mk_path
  { root : string;              (* "", "/" or "//" *)
    parts : list string }.      (* the names after the root *)

(** Empty names and ["."] are dropped when a path is parsed. *)
Definition is_name (x : string) : bool :=
  negb (String.eqb x "") && negb (String.eqb x ".").

(** [Path(s)]: exactly two leading slashes are kept as the root ["//"]. *)
Definition Path (s : string) : path :=
  mk_path (match leading "/" s with
           | O => ""
           | 2%nat => "//"
           | _ => "/"
           end)
          (filter is_name (split_on "/" s)).

(** [str(p)] *)
Definition path_str (p : path) : string :=
  match root p, parts p with
  | EmptyString, [] => "."
  | r, names => r ++ String.concat "/" names
  end.

(** [p.name]: the last name, empty when there is none. *)
Definition path_name (p : path) : string := last (parts p) "".

(** [p.parent] *)
Definition parent (p : path) : path := mk_path (root p) (removelast (parts p)).

(** [p / s] *)
Definition joinpath (p : path) (s : string) : path :=
  let q := Path s in
  if String.eqb (root q) "" then mk_path (root p) (parts p ++ parts q)%list else q.

(** ** What the registry library exposes of a hive file *)

Record reg_value : Type := mk_value
  { value_name : string;        (* value.name(): the rot-13 name *)
    value_data : bytes }.       (* value.value(): the REG_BINARY payload *)

Record guid_key : Type := mk_guid
  { guid_name : string;
    count_values : option (list reg_value) }.   (* None: no Count subkey *)

Record hive : Type := mk_hive
  { hive_type : string;
    userassist : option (string * list guid_key) }.  (* str(key), subkeys *)

(** What [Registry.Registry] makes of the bytes of a file. *)
Inductive hive_file : Type :=
| NotRegf                   (* regf signature missing: ParseException *)
| Regf (h : hive)
| TooShort.                 (* fewer than 4 bytes: struct.error *)

Definition csv_row : Type := list pyval.

(** ** The file system: directories and regular files *)

(** The content of a regular file: bytes, known through what the registry
    library makes of them, or the CSV text of some rows. *)
Inductive content : Type :=
| Hive (hf : hive_file)
| Csv (rows : list csv_row).

Inductive node : Type :=
| Dir
| File (c : content).

(** The place of a node: its names from the root directory down. *)
Definition loc : Type := list string.

Fixpoint loc_eqb (a b : loc) : bool :=
  match a, b with
  | [], [] => true
  | x :: a', y :: b' => String.eqb x y && loc_eqb a' b'
  | _, _ => false
  end.

Fixpoint lookup (l : loc) (m : list (loc * node)) : option node :=
  match m with
  | [] => None
  | (l', n) :: rest => if loc_eqb l l' then Some n else lookup l rest
  end.

Fixpoint put (l : loc) (n : node) (m : list (loc * node)) : list (loc * node) :=
  match m with
  | [] => [(l, n)]
  | (l', n') :: rest =>
      if loc_eqb l l' then (l, n) :: rest else (l', n') :: put l n rest
  end.

(** The world of a run: the printed lines, the working directory and the
    file system.  There are directories and regular files only, no
    symbolic links, and the user may read and write every node. *)
Record world : Type := mk_world
  { stdout : list string;
    cwd : loc;
    fs : list (loc * node) }.

(** The root directory always exists. *)
Definition node_at (l : loc) (w : world) : option node :=
  match l with
  | [] => Some Dir
  | _ => lookup l (fs w)
  end.

(** State and exception monad: an exception keeps the effects made so far. *)
Definition M (A : Type) : Type := world -> result A * world.

Definition ret {A : Type} (a : A) : M A := fun w => (Ok a, w).
Definition raise {A : Type} (e : exn) : M A := fun w => (Raise e, w).
Definition bindM {A B : Type} (m : M A) (k : A -> M B) : M B :=
  fun w => match m w with
           | (Ok a, w') => k a w'
           | (Raise e, w') => (Raise e, w')
           end.
Definition lift {A : Type} (r : result A) : M A := fun w => (r, w).

Notation "x <~ m ;; k" := (bindM m (fun x => k))
  (at level 61, m at next level, right associativity).
Notation "m ;;; k" := (bindM m (fun _ => k))
  (at level 61, right associativity).

Definition print (line : string) : M unit :=
  fun w => (Ok tt, mk_world (stdout w ++ [line])%list (cwd w) (fs w)).

Definition set_fs (m : list (loc * node)) (w : world) : world :=
  mk_world (stdout w) (cwd w) m.

Fixpoint forM_ {A : Type} (l : list A) (body : A -> M unit) : M unit :=
  match l with
  | [] => ret tt
  | a :: rest => body a ;;; forM_ rest body
  end.

(** ** System calls *)

(** Path resolution from place [l]: every name is looked up in a
    directory (ENOENT when the place is missing, ENOTDIR when it is a
    regular file); [".."] leads to the directory above, which for the root
    is the root itself.  The last name need not exist. *)
Fixpoint walk (w : world) (l : loc) (names : list string) : result loc :=
  match names with
  | [] => Ok l
  | name :: rest =>
      match node_at l w with
      | Some Dir =>
          walk w (if String.eqb name ".." then removelast l else (l ++ [name])%list)
               rest
      | Some (File _) => Raise NotADirectoryError
      | None => Raise FileNotFoundError
      end
  end.

(** Where resolution starts: the working directory, or the root. *)
Definition start (p : path) (w : world) : loc :=
  if String.eqb (root p) "" then cwd w else [].

Definition locate (p : path) (w : world) : result loc :=
  walk w (start p w) (parts p).

(** [os.stat] *)
Definition stat (p : path) : M node :=
  fun w =>
    match locate p w with
    | Ok l =>
        match node_at l w with
        | Some n => (Ok n, w)
        | None => (Raise FileNotFoundError, w)
        end
    | Raise e => (Raise e, w)
    end.

(** [p.exists()], [p.is_file()], [p.is_dir()]: a path that cannot be
    resolved is neither. *)
Definition exists_ (p : path) : M bool :=
  fun w => match stat p w with
           | (Ok _, _) => (Ok true, w)
           | (Raise _, _) => (Ok false, w)
           end.

Definition is_file (p : path) : M bool :=
  fun w => match stat p w with
           | (Ok (File _), _) => (Ok true, w)
           | _ => (Ok false, w)
           end.

Definition is_dir (p : path) : M bool :=
  fun w => match stat p w with
           | (Ok Dir, _) => (Ok true, w)
           | _ => (Ok false, w)
           end.

(** [os.mkdir] *)
Definition os_mkdir (p : path) : M unit :=
  fun w =>
    match locate p w with
    | Ok l =>
        match node_at l w with
        | Some _ => (Raise FileExistsError, w)
        | None => (Ok tt, set_fs (put l Dir (fs w)) w)
        end
    | Raise e => (Raise e, w)
    end.

(** [p.mkdir(parents=False, exist_ok=True)]: FileNotFoundError is raised
    again; any other OSError is dropped when [p] is a directory. *)
Definition mkdir_exist_ok (p : path) : M unit :=
  fun w =>
    match os_mkdir p w with
    | (Raise FileNotFoundError, w') => (Raise FileNotFoundError, w')
    | (Raise e, w') =>
        match is_dir p w' with
        | (Ok true, _) => (Ok tt, w')
        | _ => (Raise e, w')
        end
    | done => done
    end.

(** [p.mkdir(parents=True, exist_ok=True)], by recursion on the names of
    [p] from the last one: on FileNotFoundError the parent is made first
    and [os.mkdir] is tried again. *)
Fixpoint mkdir_parents (r : string) (rev_parts : list string) : M unit :=
  fun w =>
    let p := mk_path r (rev rev_parts) in
    match os_mkdir p w with
    | (Raise FileNotFoundError, w') =>
        match rev_parts with
        | [] => (Raise FileNotFoundError, w')          (* p.parent == p *)
        | _ :: above => (mkdir_parents r above ;;; mkdir_exist_ok p) w'
        end
    | (Raise e, w') =>
        match is_dir p w' with
        | (Ok true, _) => (Ok tt, w')
        | _ => (Raise e, w')
        end
    | done => done
    end.

Definition mkdir (p : path) : M unit := mkdir_parents (root p) (rev (parts p)).

(** [p.open('w')]: create or truncate.  The handle is the place of the
    file. *)
Definition open_w (p : path) : M loc :=
  fun w =>
    match locate p w with
    | Ok l =>
        match node_at l w with
        | Some Dir => (Raise IsADirectoryError, w)
        | _ => (Ok l, set_fs (put l (File (Csv [])) (fs w)) w)
        end
    | Raise e => (Raise e, w)
    end.

(** [csv.writer(fh).writerow(row)] *)
Definition writerow (fh : loc) (row : csv_row) : M unit :=
  fun w =>
    let old := match node_at fh w with
               | Some (File (Csv rows)) => rows
               | _ => []
               end in
    (Ok tt, set_fs (put fh (File (Csv (old ++ [row])%list)) (fs w)) w).

(** The string names a directory to the system: it ends in a slash or in
    a ["."] name. *)
Definition names_dir (file : string) : bool :=
  negb (is_name (last (split_on "/" file) "")).

(** [open(file, 'rb').read()] on a path given as a string. *)
Definition read_file (file : string) : M content :=
  fun w =>
    if String.eqb file "" then (Raise FileNotFoundError, w)
    else
      match locate (Path file) w with
      | Ok l =>
          match node_at l w with
          | Some (File c) =>
              if names_dir file then (Raise NotADirectoryError, w) else (Ok c, w)
          | Some Dir => (Raise IsADirectoryError, w)
          | None => (Raise FileNotFoundError, w)
          end
      | Raise e => (Raise e, w)
      end.

(** ** The program *)

(** A [pd_dict] holds one program; [pd_list] collects them in order. *)
Definition pd_dict : Type := list (string * list pyval).

(** The body of the loop over the values of one Count key. *)
Fixpoint parse_values (values : list reg_value) (pd_list : list pd_dict)
  : M (list pd_dict) :=
  match values with
  | [] => ret pd_list
  | value :: rest =>
      let program := resolve_guid (rot13 (value_name value)) in
      parsed_data <~ lift (raw_data_parser (value_data value)) ;;
      let pd_dict := [(program, parsed_data)] in
      parse_values rest (pd_list ++ [pd_dict])%list
  end.

(** The loop over the GUID subkeys of the UserAssist key. *)
Fixpoint parse_guids (guids : list guid_key) (pd_list : list pd_dict)
  : M (list pd_dict) :=
  match guids with
  | [] => ret pd_list
  | guid :: rest =>
      match count_values guid with
      | None => raise RegistryKeyNotFoundException
      | Some [] => parse_guids rest pd_list
      | Some values =>
          print ("[+] Found GUID with values: " ++ guid_name guid) ;;;
          print "[+] Parsing values..." ;;;
          pd_list <~ parse_values values pd_list ;;
          parse_guids rest pd_list
      end
  end.

Definition newline : string := String (ascii_of_nat 10) EmptyString.

(** What the registry library makes of a CSV text is not modelled: it is a
    parameter. *)
Variable csv_hive : list csv_row -> hive_file.

(** [Registry.Registry(file)] *)
Definition Registry (file : string) : M hive_file :=
  c <~ read_file file ;;
  ret (match c with
       | Hive hf => hf
       | Csv rows => csv_hive rows
       end).

(** [get_key(file)]: [None] is the value of a call that falls off the end.
    [ntuser_path] is the module's global of that name. *)
Definition get_key (ntuser_path : path) (file : string)
  : M (option (list pd_dict)) :=
  let pd_list : list pd_dict := [] in
  hf <~ Registry file ;;
  match hf with
  | TooShort => raise StructError
  | NotRegf =>
      raise (SystemExit (newline ++ "[x] Wrong file type, regf Signature not found"))
  | Regf reg_hive =>
      if String.eqb (hive_type reg_hive) "ntuser.dat" then
        match userassist reg_hive with
        | None =>
            print "[x] UserAssist key not found" ;;; ret (Some pd_list)
        | Some (ua_key, subkeys) =>
            print (newline ++ "[+] Found " ++ ua_key) ;;;
            pd_list <~ parse_guids subkeys pd_list ;;
            ret (Some pd_list)
        end
      else
        print (newline ++ path_name ntuser_path ++ " is not an NTUSER.DAT file") ;;;
        ret None
  end.

Definition header : csv_row :=
  [PStr "Program"; PStr "Run Count"; PStr "Focus Count"; PStr "Focus Time";
   PStr "Last Executed"].

(** [val[i]] *)
Definition index (val : list pyval) (i : nat) : M pyval :=
  match nth_error val i with
  | Some v => ret v
  | None => raise IndexError
  end.

(** [write_output(ua_list, out_path)] *)
Definition write_output (ua_list : option (list pd_dict)) (out_path : string)
  : M unit :=
  let out_dir := Path out_path in
  there <~ exists_ out_dir ;;
  (if there then ret tt else mkdir out_dir) ;;;
  let out_file := joinpath out_dir "UserAssist.csv" in
  fh <~ open_w out_file ;;
  writerow fh header ;;;
  match ua_list with
  | None => raise TypeError
  | Some ua_list =>
      forM_ ua_list (fun program =>
        forM_ program (fun '(key, val) =>
          match val with
          | [] => ret tt
          | _ =>
              v0 <~ index val 0 ;; v1 <~ index val 1 ;;
              v2 <~ index val 2 ;; v3 <~ index val 3 ;;
              writerow fh [PStr key; v0; v1; v2; v3]
          end))
  end ;;;
  print ("[+] Output written to " ++ path_str out_file).

(** [main()], with the two command-line arguments as parameters. *)
Definition main (file out : string) : M unit :=
  let ntuser_path := Path file in
  regular <~ is_file ntuser_path ;;
  if regular then
    ua_dict <~ get_key ntuser_path (path_str ntuser_path) ;;
    write_output ua_dict out
  else
    print (newline ++ "Invalid file path: " ++ path_str ntuser_path).

End KnownFolders.

(* ================================================================== *)
(** * Reference functions the claims are stated with *)

(** The 32-bit and 64-bit little-endian fields of a payload. *)
Definition u32_at (off : nat) (data : bytes) : Z := le_uint (slice off (off + 4) data).
Definition u64_at (off : nat) (data : bytes) : Z := le_uint (slice off (off + 8) data).

(** The whole seconds that [convert_filetime] derives from a FILETIME. *)
Definition filetime_seconds (ft : Z) : Z :=
  timestamp_seconds
    (Float.true_divide (ft - EPOCH_AS_FILETIME) HUNDREDS_OF_NANOSECONDS).

(** Calendar string of a whole number of seconds since 1970. *)
Definition calendar_string (t : Z) : result string :=
  dt <- datetime_of_seconds t 0 ;;
  Ok (strftime "%Y-%m-%d %H:%M:%S (UTC)" dt).

(** The last-executed field of a record whose FILETIME is [ft]. *)
Definition last_executed_of (ft : Z) : result string :=
  if ft =? 0 then Ok "" else convert_filetime ft.

(** [_days_before_year]: days before January 1st of year [y]. *)
Definition days_before_year (y : Z) : Z :=
  let y := y - 1 in y * 365 + y / 4 - y / 100 + y / 400.

Definition days_in_year (y : Z) : Z := 365 + bool_int (is_leap y).

(** Month and day in one number that orders them. *)
Definition month_day_key (leapyear : bool) (n : Z) : Z :=
  let '(m, d) := month_day leapyear n in 32 * m + d.

(** Day [k] of the year has a valid month and day, and day [k + 1] comes
    later in the calendar. *)
Definition month_day_ok (leapyear : bool) (k : nat) : bool :=
  let '(m, d) := month_day leapyear (Z.of_nat k) in
  (1 <=? m) && (m <=? 12) && (1 <=? d) && (d <=? 31) &&
  (month_day_key leapyear (Z.of_nat k) <? month_day_key leapyear (Z.of_nat (S k))).

(** Lexicographic combination of two comparisons. *)
Definition lexc (c1 c2 : comparison) : comparison :=
  match c1 with
  | Eq => c2
  | _ => c1
  end.

(** Calendar order of two datetimes, down to the second. *)
Definition datetime_compare (a b : datetime) : comparison :=
  lexc (year a ?= year b)
    (lexc (month a ?= month b)
       (lexc (day a ?= day b)
          (lexc (hour a ?= hour b)
             (lexc (minute a ?= minute b) (second a ?= second b))))).

(** The fields of a datetime are those of a calendar date with a four-digit
    year. *)
Definition four_digit_datetime (dt : datetime) : Prop :=
  1000 <= year dt <= 9999 /\ 1 <= month dt <= 12 /\ 1 <= day dt <= 31 /\
  0 <= hour dt < 24 /\ 0 <= minute dt < 60 /\ 0 <= second dt < 60.

(** [H:MM:SS] of a whole number of seconds, hours not padded. *)
Definition hms (s : Z) : string :=
  fmt_d 1 (s / 3600) ++ ":" ++ fmt_d 2 (s / 60 mod 60) ++ ":" ++ fmt_d 2 (s mod 60).

(** Focus time as the specification words it: milliseconds, truncated to
    whole seconds, as [H:MM:SS]. *)
Definition focus_time_spec (ms : Z) : string := hms (ms / 1000).

(** Focus time as the code prints it: a day count in front from 24 hours on. *)
Definition focus_time_fmt (ms : Z) : string :=
  let s := ms / 1000 in
  if s <? 86400 then hms s
  else fmt_d 1 (s / 86400) ++ (if s / 86400 =? 1 then " day, " else " days, ")
       ++ hms (s mod 86400).

(** [sep] does not occur in [s]. *)
Fixpoint lacks (sep : ascii) (s : string) : bool :=
  match s with
  | EmptyString => true
  | String c rest => negb (Ascii.eqb c sep) && lacks sep rest
  end.

(** [s[n:]] on strings. *)
Fixpoint drop (n : nat) (s : string) : string :=
  match n, s with
  | O, _ => s
  | S n', EmptyString => EmptyString
  | S n', String _ rest => drop n' rest
  end.

(** Substitution of the leading segment alone, as the specification words
    the Identifier Resolver. *)
Definition replace_leading (key val program : string) : string :=
  val ++ drop (String.length key) program.

(** [key] occurs somewhere in [s]. *)
Fixpoint occurs (key s : string) : bool :=
  String.prefix key s ||
  match s with
  | EmptyString => false
  | String _ rest => occurs key rest
  end.

(** The file system is the same in both worlds. *)
Definition same_files (w w' : world) : Prop :=
  cwd w' = cwd w /\ fs w' = fs w.

(** The regular file that [file] names, as the registry library reads it:
    [None] when [file] names no regular file. *)
Definition hive_at (csv_hive : list csv_row -> hive_file) (file : string)
           (w : world) : option hive_file :=
  let p := Path file in
  match parts p, locate p w with
  | _ :: _, Ok l =>
      match node_at l w with
      | Some (File (Hive hf)) => Some hf
      | Some (File (Csv rows)) => Some (csv_hive rows)
      | _ => None
      end
  | _, _ => None
  end.

(** [file] names a regular file. *)
Definition regular_file (file : string) (w : world) : bool :=
  match locate (Path file) w with
  | Ok l => match node_at l w with
            | Some (File _) => true
            | _ => false
            end
  | Raise _ => false
  end.

(** No regular file of [w'] is new or has new content. *)
Definition no_file_written (w w' : world) : Prop :=
  forall l c, node_at l w' = Some (File c) -> node_at l w = Some (File c).

(* ================================================================== *)
(** * The specification's statements that the code does not meet *)

(** "When the UserAssist subtree is absent the run ends gracefully and no
    CSV is written." *)
Definition subtree_absent_no_csv : Prop :=
  forall folder_guids csv_hive path out w h,
    hive_at csv_hive path w = Some (Regf h) ->
    hive_type h = "ntuser.dat" -> userassist h = None ->
    fst (main folder_guids csv_hive path out w) = Ok tt /\
    no_file_written w (snd (main folder_guids csv_hive path out w)).

(** "An out-of-range timestamp only makes that record's last-executed field
    absent; the run does not abort." *)
Definition out_of_range_field_absent : Prop :=
  forall data,
    List.length data = 16%nat ->
    convert_filetime (u64_at 8 data) = Raise ValueError ->
    raw_data_parser data = Ok [PInt (u32_at 4 data - 5); absent; absent; absent].

Definition out_of_range_run_continues : Prop :=
  forall folder_guids csv_hive path out w h ua_key guids,
    hive_at csv_hive path w = Some (Regf h) ->
    hive_type h = "ntuser.dat" -> userassist h = Some (ua_key, guids) ->
    (forall g, In g guids -> count_values g <> None) ->
    fst (main folder_guids csv_hive path out w) = Ok tt.

Definition out_of_range_timestamp_tolerated : Prop :=
  out_of_range_field_absent /\ out_of_range_run_continues.

(** "Only the leading segment is substituted; occurrences of the identifier
    elsewhere in the name are never substituted." *)
Definition only_leading_segment_replaced : Prop :=
  forall folder_guids name key val,
    NoDup (map fst folder_guids) -> In (key, val) folder_guids ->
    split0 "\" (rot13 name) = key ->
    resolve folder_guids name = replace_leading key val (rot13 name).

(** "Resolving a plain path that contains no (encoded) identifier returns it
    unchanged." *)
Definition resolve_fixes_plain_paths : Prop :=
  forall folder_guids path,
    (forall key val, In (key, val) folder_guids ->
                     occurs key path = false /\ occurs key (rot13 path) = false) ->
    resolve folder_guids path = path.

(** "For [ft1 < ft2] the two calendar strings order identically": the
    string of [ft1] comes before the string of [ft2]. *)
Definition convert_filetime_order_preserved : Prop :=
  forall ft1 ft2 s1 s2,
    0 < ft1 -> ft1 < ft2 -> ft2 < 2 ^ 64 ->
    convert_filetime ft1 = Ok s1 -> convert_filetime ft2 = Ok s2 ->
    String.compare s1 s2 = Lt.

(** "A 72-byte payload decodes its focus time as H:MM:SS." *)
Definition win7_focus_time_hms : Prop :=
  forall data,
    List.length data = 72%nat ->
    raw_data_parser data =
      (last_executed <- last_executed_of (u64_at 60 data) ;;
       Ok [PInt (u32_at 4 data); PInt (u32_at 8 data);
           PStr (focus_time_spec (u32_at 12 data)); PStr last_executed])%result.

(** "The converter returns the calendar string of the whole seconds obtained
    by subtracting the epoch offset and dividing by 10,000,000, no fraction
    retained." *)
Definition filetime_truncates : Prop :=
  forall ft s,
    0 < ft < 2 ^ 64 ->
    calendar_string ((ft - EPOCH_AS_FILETIME) / HUNDREDS_OF_NANOSECONDS) = Ok s ->
    convert_filetime ft = Ok s.

(* ================================================================== *)
(** * Example inputs *)

(** 16 bytes: run-count field 5, FILETIME 0. *)
Definition xp_payload : bytes :=
  ([x00; x00; x00; x00; x05; x00; x00; x00] ++ repeat x00 8)%list.

(** 8 bytes: no recognised layout. *)
Definition short_payload : bytes := repeat x00 8.

(** 16 bytes: run-count field 6, FILETIME 2^64 - 1 (year 60056). *)
Definition overflow_payload : bytes :=
  ([x00; x00; x00; x00; x06; x00; x00; x00] ++ repeat xff 8)%list.

(** 72 bytes: run count 3, focus count 2, focus time 86 400 000 ms,
    FILETIME 0. *)
Definition day_payload : bytes :=
  ([x00; x00; x00; x00; x03; x00; x00; x00; x02; x00; x00; x00;
    x00; x5c; x26; x05] ++ repeat x00 56)%list.

(** 72 bytes as [day_payload], with other bytes outside the decoded windows. *)
Definition day_payload' : bytes :=
  ([xff; xfe; xfd; xfc; x03; x00; x00; x00; x02; x00; x00; x00;
    x00; x5c; x26; x05] ++ repeat xaa 44 ++ repeat x00 8 ++ [x01; x02; x03; x04])%list.

(** A reading of CSV texts for the examples: no signature is found. *)
Definition csv_not_regf : list csv_row -> hive_file := fun _ => NotRegf.

(** A working directory that holds one regular file with content [c]. *)
Definition world_with_file (name : string) (c : content) : world :=
  mk_world [] ["work"] [(["work"], Dir); (["work"; name], File c)].

(** A well-formed hive without the UserAssist key. *)
Definition world_without_key : world :=
  world_with_file "NTUSER.DAT" (Hive (Regf (mk_hive "ntuser.dat" None))).

(** A hive whose first record carries an out-of-range FILETIME. *)
Definition overflow_guids : list guid_key :=
  [mk_guid "{CEBFF5CD-ACE2-4F4F-9178-9926F41749EA}"
     (Some [mk_value "pzq.rkr" overflow_payload;
            mk_value "abgrcnq.rkr" xp_payload])].

Definition world_with_overflow : world :=
  world_with_file "NTUSER.DAT"
    (Hive (Regf (mk_hive "ntuser.dat" (Some ("UserAssist", overflow_guids))))).

(** A one-entry known-folder table (FOLDERID_System). *)
Definition system_table : list (string * string) :=
  [("{1AC14E77-02E7-4E5D-B744-2EB1AE5198B7}", "System32")].

(** Obfuscated name whose path names the identifier twice. *)
Definition twice_name : string :=
  "{1NP14R77-02R7-4R5Q-O744-2RO1NR5198O7}\{1NP14R77-02R7-4R5Q-O744-2RO1NR5198O7}\pzq.rkr".

(* ================================================================== *)
(** * Reference functions for the run as a whole *)

(** The largest FILETIME the converter accepts: 9999-12-31 23:59:59 and
    0.9999847 s. *)
Definition MAX_FILETIME : Z := 2650467743999999847.

(** The values of all Count keys, in traversal order. *)
Definition hive_values (guids : list guid_key) : list reg_value :=
  flat_map (fun g => match count_values g with
                     | Some values => values
                     | None => []
                     end) guids.

(** The lines [get_key] prints for the GUID keys that hold values. *)
Definition guid_messages (guids : list guid_key) : list string :=
  flat_map (fun g => match count_values g with
                     | Some (_ :: _) =>
                         ["[+] Found GUID with values: " ++ guid_name g;
                          "[+] Parsing values..."]
                     | _ => []
                     end) guids.

(** The fields decoded from a value (empty when the decoder raises). *)
Definition decoded (v : reg_value) : list pyval :=
  match raw_data_parser (value_data v) with
  | Ok ua_data => ua_data
  | Raise _ => []
  end.

(** The [pd_dict] that [get_key] builds for a value. *)
Definition entry_of (folder_guids : list (string * string)) (v : reg_value)
  : pd_dict :=
  [(resolve folder_guids (value_name v), decoded v)].

(** A GUID key has a Count subkey and all its values decode. *)
Definition guid_decodes (g : guid_key) : Prop :=
  exists values,
    count_values g = Some values /\
    forall v, In v values -> exists ua_data, raw_data_parser (value_data v) = Ok ua_data.

(** The CSV rows of one item of a [pd_dict], and of a whole [pd_list]. *)
Definition row_of (item : string * list pyval) : list csv_row :=
  match snd item with
  | [] => []
  | val => [[PStr (fst item); nth 0 val absent; nth 1 val absent;
             nth 2 val absent; nth 3 val absent]]
  end.

Definition rows_of (pd_list : list pd_dict) : list csv_row :=
  flat_map (flat_map row_of) pd_list.

(** Every field list is empty or has the four fields the row needs. *)
Definition well_shaped (pd_list : list pd_dict) : Prop :=
  forall d item, In d pd_list -> In item d ->
                 snd item = [] \/ (4 <= List.length (snd item))%nat.

(** The CSV row of a value: none unless it decodes to four fields. *)
Definition value_rows (folder_guids : list (string * string)) (v : reg_value)
  : list csv_row :=
  match raw_data_parser (value_data v) with
  | Ok [a; b; c; d] => [[PStr (resolve folder_guids (value_name v)); a; b; c; d]]
  | _ => []
  end.

(** Directories made on the way to [l ++ names]: each missing place
    becomes a directory, from the top down. *)
Fixpoint makedirs (l : loc) (names : list string) (m : list (loc * node))
  : list (loc * node) :=
  match names with
  | [] => m
  | name :: rest =>
      let l' := (l ++ [name])%list in
      makedirs l' rest (match lookup l' m with
                        | None => put l' Dir m
                        | Some _ => m
                        end)
  end.

(** No regular file stands on the way to [l ++ names]. *)
Fixpoint dirs_free (l : loc) (names : list string) (m : list (loc * node))
  : bool :=
  match names with
  | [] => true
  | name :: rest =>
      let l' := (l ++ [name])%list in
      match lookup l' m with
      | Some (File _) => false
      | _ => dirs_free l' rest m
      end
  end.

(** Every place on the way to [l ++ names], the last one included, is a
    directory. *)
Fixpoint dirs_made (l : loc) (names : list string) (m : list (loc * node))
  : bool :=
  match names with
  | [] => true
  | name :: rest =>
      let l' := (l ++ [name])%list in
      match lookup l' m with
      | Some Dir => dirs_made l' rest m
      | _ => false
      end
  end.

(** A name as [Path] keeps it: not empty, not ["."], without a slash. *)
Definition name_ok (x : string) : Prop := is_name x = true /\ lacks "/" x = true.

(** A path as [Path] returns it. *)
Definition normal (p : path) : Prop :=
  (root p = "" \/ root p = "/" \/ root p = "//") /\ Forall name_ok (parts p).

Definition plain_names (names : list string) : bool :=
  forallb (fun name => negb (String.eqb name "..")) names.

(** The place of the report under [out]. *)
Definition csv_loc (out : string) (w : world) : loc :=
  (start (Path out) w ++ parts (Path out) ++ ["UserAssist.csv"])%list.

(** The report can be written under [out]: resolution starts in a
    directory, [out] has no [".."], no regular file stands where [out]
    needs a directory, and the place of the report is no directory. *)
Definition out_ready (out : string) (w : world) : bool :=
  let p := Path out in
  match node_at (start p w) w with
  | Some Dir => true
  | _ => false
  end
  && plain_names (parts p)
  && dirs_free (start p w) (parts p) (fs w)
  && match lookup (csv_loc out w) (fs w) with
     | Some Dir => false
     | _ => true
     end.

(** The file system once the directories of [out] are made. *)
Definition out_fs (out : string) (w : world) : list (loc * node) :=
  makedirs (start (Path out) w) (parts (Path out)) (fs w).

(** The name the report is printed under. *)
Definition csv_name (out : string) : string :=
  path_str (joinpath (Path out) "UserAssist.csv").

(** What a run may change, apart from the console: directories are added,
    and the regular file at [target] is made or replaced by a CSV text. *)
Definition only_touches (target : loc) (w w' : world) : Prop :=
  cwd w' = cwd w /\
  forall l,
    node_at l w' = node_at l w \/
    (node_at l w = None /\ node_at l w' = Some Dir) \/
    (l = target /\ node_at l w <> Some Dir /\
     exists rows, node_at l w' = Some (File (Csv rows))).

(** The file at [fh] holds a CSV text, as it does once [fh] is opened. *)
Definition opened (fh : loc) (w : world) : Prop :=
  exists rows, node_at fh w = Some (File (Csv rows)).

(** A computation that, on an opened file, changes that file at most and
    leaves it opened. *)
Definition writes_only (fh : loc) {A : Type} (m : M A) : Prop :=
  forall w, opened fh w ->
            only_touches fh w (snd (m w)) /\ opened fh (snd (m w)).

(** A hive file of another type than ntuser.dat. *)
Definition world_with_system_hive : world :=
  world_with_file "SYSTEM" (Hive (Regf (mk_hive "system" None))).

(** A hive with two GUID keys: one without values, one with three values
    (a legacy record, a record of unknown length, a Win7 record). *)
Definition sample_guids : list guid_key :=
  [mk_guid "{5E6AB780-7743-11CF-A12B-00AA004AE837}" (Some []);
   mk_guid "{CEBFF5CD-ACE2-4F4F-9178-9926F41749EA}"
     (Some [mk_value "pzq.rkr" xp_payload;
            mk_value "abgrcnq.rkr" short_payload;
            mk_value "{1NP14R77-02R7-4R5Q-O744-2RO1NR5198O7}\pnyp.rkr" day_payload])].

(** The working directory holds the hive, a stale report under [out] and
    another file. *)
Definition sample_world : world :=
  mk_world [] ["work"]
    [(["work"], Dir);
     (["work"; "NTUSER.DAT"],
      File (Hive (Regf (mk_hive "ntuser.dat" (Some ("UserAssist", sample_guids))))));
     (["work"; "out"], Dir);
     (["work"; "out"; "UserAssist.csv"], File (Csv [[PStr "stale"]]));
     (["work"; "notes.txt"], File (Hive TooShort))].

(** A hive whose second GUID key has no Count subkey. *)
Definition count_missing_guids : list guid_key :=
  [mk_guid "{CEBFF5CD-ACE2-4F4F-9178-9926F41749EA}"
     (Some [mk_value "pzq.rkr" xp_payload]);
   mk_guid "{F4E57C4B-2036-45F0-A9AB-443BCFE33D9F}" None].

Definition world_without_count : world :=
  world_with_file "NTUSER.DAT"
    (Hive (Regf (mk_hive "ntuser.dat" (Some ("UserAssist", count_missing_guids))))).
(* ================================================================== *)
(** * Lemmas on bytes and slices *)

Lemma byte_val_range (b : byte) : 0 <= byte_val b < 256.
Proof.
  unfold byte_val. pose proof (Byte.to_N_bounded b) as Hb. lia.
Qed.

Lemma le_uint_range (bs : bytes) :
  0 <= le_uint bs < 256 ^ Z.of_nat (List.length bs).
Proof.
  induction bs as [|b bs IH]; cbn [le_uint List.length].
  - cbn. lia.
  - rewrite Nat2Z.inj_succ, Z.pow_succ_r by lia.
    pose proof (byte_val_range b). lia.
Qed.

Lemma slice_length (lo hi : nat) (data : bytes) :
  (lo <= hi)%nat -> (hi <= List.length data)%nat ->
  List.length (slice lo hi data) = (hi - lo)%nat.
Proof.
  intros Hlo Hhi. unfold slice.
  rewrite List.length_firstn, List.length_skipn. lia.
Qed.

Lemma slice_from_full (lo : nat) (data : bytes) :
  slice_from lo data = slice lo (List.length data) data.
Proof.
  unfold slice_from, slice.
  rewrite List.firstn_all2; [reflexivity|].
  rewrite List.length_skipn. lia.
Qed.

Lemma unpack_le_slice (lo hi : nat) (data : bytes) :
  (lo <= hi)%nat -> (hi <= List.length data)%nat ->
  unpack_le (hi - lo) (slice lo hi data) = Ok (le_uint (slice lo hi data)).
Proof.
  intros Hlo Hhi. unfold unpack_le.
  rewrite slice_length by assumption. now rewrite Nat.eqb_refl.
Qed.

(** A slice of a slice. *)
Lemma slice_slice (a b lo hi : nat) (data : bytes) :
  (lo + b <= hi)%nat -> (a <= b)%nat ->
  slice a b (slice lo hi data) = slice (lo + a) (lo + b) data.
Proof.
  intros Hb Ha. unfold slice.
  rewrite List.skipn_firstn_comm, List.firstn_firstn, List.skipn_skipn.
  f_equal; [lia | f_equal; lia].
Qed.

Lemma u32_range (off : nat) (data : bytes) :
  (off + 4 <= List.length data)%nat -> 0 <= u32_at off data < 2 ^ 32.
Proof.
  intros H. unfold u32_at.
  pose proof (le_uint_range (slice off (off + 4) data)) as Hr.
  rewrite slice_length in Hr by lia.
  replace (off + 4 - off)%nat with 4%nat in Hr by lia.
  change (256 ^ Z.of_nat 4) with (2 ^ 32) in Hr. exact Hr.
Qed.

Lemma u64_range (off : nat) (data : bytes) :
  (off + 8 <= List.length data)%nat -> 0 <= u64_at off data < 2 ^ 64.
Proof.
  intros H. unfold u64_at.
  pose proof (le_uint_range (slice off (off + 8) data)) as Hr.
  rewrite slice_length in Hr by lia.
  replace (off + 8 - off)%nat with 8%nat in Hr by lia.
  change (256 ^ Z.of_nat 8) with (2 ^ 64) in Hr. exact Hr.
Qed.

(** The decoder on the three length classes, with the unpack steps done. *)
Lemma raw_data_parser_len16 (data : bytes) :
  List.length data = 16%nat ->
  raw_data_parser data =
    (last_executed <- last_executed_of (u64_at 8 data) ;;
     Ok [PInt (u32_at 4 data - 5); PStr ""; PStr ""; PStr last_executed]).
Proof.
  intros H. unfold raw_data_parser, unpack_I, unpack_Q, last_executed_of.
  rewrite H. cbn [Nat.eqb].
  rewrite slice_from_full, H.
  rewrite (unpack_le_slice 4 8), (unpack_le_slice 8 16) by lia.
  reflexivity.
Qed.

Lemma raw_data_parser_len72 (data : bytes) :
  List.length data = 72%nat ->
  raw_data_parser data =
    (last_executed <- last_executed_of (u64_at 60 data) ;;
     Ok [PInt (u32_at 4 data); PInt (u32_at 8 data);
         PStr (split0 "." (timedelta_str (timedelta_milliseconds (u32_at 12 data))));
         PStr last_executed]).
Proof.
  intros H. unfold raw_data_parser, unpack_I, unpack_Q, last_executed_of.
  rewrite H. cbn [Nat.eqb].
  rewrite (unpack_le_slice 4 8), (unpack_le_slice 8 12),
    (unpack_le_slice 12 16), (unpack_le_slice 60 68) by lia.
  reflexivity.
Qed.

Lemma raw_data_parser_other (data : bytes) :
  List.length data <> 16%nat -> List.length data <> 72%nat ->
  raw_data_parser data = Ok [].
Proof.
  intros H16 H72. unfold raw_data_parser.
  apply Nat.eqb_neq in H16, H72. now rewrite H16, H72.
Qed.

(* ================================================================== *)
(** * Lemmas on the report builder *)

Ltac run := unfold bindM, ret, raise, lift, print; cbn [fst snd].

Lemma loc_eqb_spec (a b : loc) : reflect (a = b) (loc_eqb a b).
Proof.
  revert b. induction a as [|x a IH]; intros [|y b]; cbn [loc_eqb];
    try (constructor; congruence).
  destruct (String.eqb_spec x y) as [->|Hne]; cbn [andb].
  - destruct (IH b) as [->|Hne]; constructor; congruence.
  - constructor. congruence.
Qed.

Lemma loc_eqb_refl (a : loc) : loc_eqb a a = true.
Proof. now destruct (loc_eqb_spec a a). Qed.

Lemma loc_eqb_neq (a b : loc) : a <> b -> loc_eqb a b = false.
Proof. intros H. now destruct (loc_eqb_spec a b). Qed.

Lemma lookup_put_same (l : loc) (n : node) (m : list (loc * node)) :
  lookup l (put l n m) = Some n.
Proof.
  induction m as [|[l' n'] m IH]; cbn [lookup put].
  - now rewrite loc_eqb_refl.
  - destruct (loc_eqb l l') eqn:E; cbn [lookup]; rewrite ?loc_eqb_refl, ?E; auto.
Qed.

Lemma lookup_put_other (l l0 : loc) (n : node) (m : list (loc * node)) :
  l0 <> l -> lookup l0 (put l n m) = lookup l0 m.
Proof.
  intros Hne. induction m as [|[l' n'] m IH]; cbn [lookup put].
  - now rewrite (loc_eqb_neq l0 l Hne).
  - destruct (loc_eqb_spec l l') as [<-|Hl]; cbn [lookup].
    + now rewrite (loc_eqb_neq l0 l Hne).
    + now rewrite IH.
Qed.

Lemma put_put (l : loc) (n n' : node) (m : list (loc * node)) :
  put l n' (put l n m) = put l n' m.
Proof.
  induction m as [|[l0 n0] m IH]; cbn [put].
  - now rewrite loc_eqb_refl.
  - destruct (loc_eqb l l0) eqn:E; cbn [put]; rewrite ?loc_eqb_refl, ?E;
      [reflexivity | now rewrite IH].
Qed.

Lemma set_fs_same (w : world) : set_fs (fs w) w = w.
Proof. now destruct w. Qed.


Lemma same_files_refl (w : world) : same_files w w.
Proof. now split. Qed.

Lemma same_files_trans (w1 w2 w3 : world) :
  same_files w1 w2 -> same_files w2 w3 -> same_files w1 w3.
Proof. unfold same_files. intuition congruence. Qed.

Section Report.

Variable folder_guids : list (string * string).

(** Parsing the values of a Count key prints and writes nothing. *)
Lemma parse_values_world (values : list reg_value) :
  forall pd_list w, snd (parse_values folder_guids values pd_list w) = w.
Proof.
  induction values as [|v values IH]; intros pd_list w; cbn [parse_values]; run.
  - reflexivity.
  - destruct (raw_data_parser (value_data v)); [apply IH | reflexivity].
Qed.

Lemma parse_guids_same_files (guids : list guid_key) :
  forall pd_list w, same_files w (snd (parse_guids folder_guids guids pd_list w)).
Proof.
  induction guids as [|g guids IH]; intros pd_list w; cbn [parse_guids].
  - apply same_files_refl.
  - destruct (count_values g) as [[|v values]|].
    + apply IH.
    + run.
      match goal with
      | |- context [parse_values _ ?vs ?pd ?w0] =>
          pose proof (parse_values_world vs pd w0) as Hw;
          destruct (parse_values folder_guids vs pd w0) as [[pd'|e] w1];
          cbn [snd] in Hw; subst w1
      end.
      * eapply same_files_trans; [|apply IH]. now split.
      * now split.
    + apply same_files_refl.
Qed.

End Report.

(* ================================================================== *)
(** * The record decoder (claims C1, C3, C10) *)

(** C1. A 16-byte payload decodes to: run count = the little-endian u32 at
    bytes 4..8 minus 5; focus count and focus time absent; last executed =
    the Filetime Converter on the little-endian u64 at bytes 8..16, absent
    when that integer is zero (an exception of the converter propagates). *)
Theorem raw_data_parser_winxp (data : bytes) :
  List.length data = 16%nat ->
  0 <= u32_at 4 data < 2 ^ 32 /\
  0 <= u64_at 8 data < 2 ^ 64 /\
  raw_data_parser data =
    (last_executed <- (if u64_at 8 data =? 0 then Ok ""
                       else convert_filetime (u64_at 8 data)) ;;
     Ok [PInt (u32_at 4 data - 5); absent; absent; PStr last_executed])%result.
Proof.
  intros H. split; [apply u32_range; lia|].
  split; [apply u64_range; lia|].
  now apply raw_data_parser_len16.
Qed.

Lemma raw_data_parser_winxp_witness :
  List.length xp_payload = 16%nat /\
  0 <= u32_at 4 xp_payload < 2 ^ 32 /\
  0 <= u64_at 8 xp_payload < 2 ^ 64 /\
  raw_data_parser xp_payload =
    (last_executed <- (if u64_at 8 xp_payload =? 0 then Ok ""
                       else convert_filetime (u64_at 8 xp_payload)) ;;
     Ok [PInt (u32_at 4 xp_payload - 5); absent; absent; PStr last_executed])%result.
Proof.
  split; [reflexivity | apply (raw_data_parser_winxp xp_payload); reflexivity].
Defined.

(** The scenario of the specification: run-count field 5, FILETIME 0. *)
Example raw_data_parser_xp_payload :
  raw_data_parser xp_payload = Ok [PInt 0; absent; absent; absent].
Proof. reflexivity. Qed.



(** C10. The decoder reads only the documented windows: two 16-byte
    payloads that agree on bytes 4..16, and two 72-byte payloads that agree
    on bytes 4..16 and 60..68, decode alike. *)
Theorem raw_data_parser_windows (d1 d2 : bytes) :
  (List.length d1 = 16%nat /\ List.length d2 = 16%nat /\
   slice 4 16 d1 = slice 4 16 d2)
  \/
  (List.length d1 = 72%nat /\ List.length d2 = 72%nat /\
   slice 4 16 d1 = slice 4 16 d2 /\ slice 60 68 d1 = slice 60 68 d2) ->
  raw_data_parser d1 = raw_data_parser d2.
Proof.
  assert (sub : forall lo hi d, (4 <= lo)%nat -> (lo <= hi)%nat -> (hi <= 16)%nat ->
                  slice lo hi d = slice (lo - 4) (hi - 4) (slice 4 16 d)).
  { intros lo hi d Hlo Hhi H16. rewrite slice_slice by lia. f_equal; lia. }
  intros [(H1 & H2 & Hw) | (H1 & H2 & Hw & Hft)].
  - rewrite !raw_data_parser_len16 by assumption.
    unfold u32_at, u64_at.
    rewrite (sub 4%nat (4 + 4)%nat d1), (sub 4%nat (4 + 4)%nat d2) by lia.
    rewrite (sub 8%nat (8 + 8)%nat d1), (sub 8%nat (8 + 8)%nat d2) by lia.
    now rewrite Hw.
  - rewrite !raw_data_parser_len72 by assumption.
    unfold u32_at, u64_at.
    rewrite (sub 4%nat (4 + 4)%nat d1), (sub 4%nat (4 + 4)%nat d2) by lia.
    rewrite (sub 8%nat (8 + 4)%nat d1), (sub 8%nat (8 + 4)%nat d2) by lia.
    rewrite (sub 12%nat (12 + 4)%nat d1), (sub 12%nat (12 + 4)%nat d2) by lia.
    change (60 + 8)%nat with 68%nat. now rewrite Hw, Hft.
Qed.

Lemma raw_data_parser_windows_witness :
  raw_data_parser day_payload = raw_data_parser day_payload'.
Proof.
  apply (raw_data_parser_windows day_payload day_payload').
  right. repeat split; reflexivity.
Defined.

(* ================================================================== *)
(** * Paths: [str] and [Path] are inverse on parsed paths *)

Lemma split_on_single (sep : ascii) (x : string) :
  lacks sep x = true -> split_on sep x = [x].
Proof.
  induction x as [|c x IH]; cbn [lacks split_on]; [reflexivity|].
  intros H. apply andb_true_iff in H as [Hc Hx].
  apply negb_true_iff in Hc. rewrite Hc, (IH Hx). reflexivity.
Qed.

Lemma split_on_app (sep : ascii) (x rest : string) :
  lacks sep x = true ->
  split_on sep (x ++ String sep rest) = x :: split_on sep rest.
Proof.
  induction x as [|c x IH]; cbn [lacks split_on append].
  - intros _. now rewrite Ascii.eqb_refl.
  - intros H. apply andb_true_iff in H as [Hc Hx].
    apply negb_true_iff in Hc. rewrite Hc, (IH Hx). reflexivity.
Qed.

Lemma split_on_lacks (sep : ascii) (s : string) :
  Forall (fun x => lacks sep x = true) (split_on sep s).
Proof.
  induction s as [|c s IH]; cbn [split_on].
  - now repeat constructor.
  - destruct (Ascii.eqb c sep) eqn:E.
    + now constructor.
    + destruct (split_on sep s) as [|x xs].
      * repeat constructor. cbn [lacks]. now rewrite E.
      * inversion IH as [|? ? Hx Hxs]; subst. constructor; [|exact Hxs].
        cbn [lacks]. now rewrite E, Hx.
Qed.

Lemma split_on_concat (names : list string) :
  names <> [] -> Forall (fun x => lacks "/" x = true) names ->
  split_on "/" (String.concat "/" names) = names.
Proof.
  induction names as [|x [|y rest] IH]; intros Hne Hall; [contradiction| |].
  - inversion Hall; subst. now apply split_on_single.
  - inversion Hall as [|? ? Hx Hrest]; subst.
    change (String.concat "/" (x :: y :: rest))
      with (x ++ String "/" (String.concat "/" (y :: rest))).
    rewrite split_on_app by exact Hx. f_equal. apply IH; [discriminate | exact Hrest].
Qed.

Lemma Path_normal (s : string) : normal (Path s).
Proof.
  split.
  - unfold Path. cbn [root].
    destruct (leading "/" s) as [|[|[|n]]]; auto.
  - unfold Path. cbn [parts]. apply Forall_forall. intros x Hx.
    apply filter_In in Hx as [Hin Hname]. split; [exact Hname|].
    pose proof (split_on_lacks "/" s) as Hall.
    now apply (proj1 (Forall_forall _ _) Hall).
Qed.

Lemma filter_names (names : list string) :
  Forall name_ok names -> filter is_name names = names.
Proof.
  induction 1 as [|x names [Hx _] _ IH]; cbn [filter]; [reflexivity|].
  now rewrite Hx, IH.
Qed.

Lemma leading_name (x s : string) : name_ok x -> leading "/" (x ++ s) = O.
Proof.
  intros [Hname Hlacks]. destruct x as [|c x]; [discriminate Hname|].
  cbn [lacks] in Hlacks. apply andb_true_iff in Hlacks as [Hc _].
  apply negb_true_iff in Hc. cbn [append leading]. now rewrite Hc.
Qed.

Lemma leading_concat (names : list string) :
  Forall name_ok names -> leading "/" (String.concat "/" names) = O.
Proof.
  intros Hall. destruct names as [|x [|y rest]]; [reflexivity| |];
    inversion Hall as [|? ? Hx _]; subst.
  - rewrite <- (leading_name x "" Hx). f_equal.
    clear. induction x as [|c x IH]; cbn; [reflexivity | now rewrite <- IH].
  - change (String.concat "/" (x :: y :: rest))
      with (x ++ String "/" (String.concat "/" (y :: rest))).
    now apply leading_name.
Qed.

Lemma names_of_concat (names : list string) :
  Forall name_ok names ->
  filter is_name (split_on "/" (String.concat "/" names)) = names.
Proof.
  intros Hall. destruct names as [|x rest]; [reflexivity|].
  rewrite split_on_concat; [now apply filter_names | discriminate |].
  eapply Forall_impl; [|exact Hall]. now intros a [_ Ha].
Qed.

(** [Path(str(p)) = p] for a parsed path. *)
Lemma Path_str (p : path) : normal p -> Path (path_str p) = p.
Proof.
  destruct p as [r names]. intros [Hroot Hall]. cbn [root parts] in *.
  pose proof (leading_concat names Hall) as Hlead.
  pose proof (names_of_concat names Hall) as Hnames.
  unfold path_str, Path. cbn [root parts].
  destruct Hroot as [-> | [-> | ->]].
  - destruct names as [|x rest]; [reflexivity|].
    cbn [append]. now rewrite Hlead, Hnames.
  - assert (E : "/" ++ String.concat "/" names = String "/" (String.concat "/" names))
      by reflexivity.
    rewrite E. cbn [leading split_on]. rewrite Ascii.eqb_refl, Hlead.
    cbn [filter is_name String.eqb negb andb]. now rewrite Hnames.
  - assert (E : "//" ++ String.concat "/" names
                = String "/" (String "/" (String.concat "/" names))) by reflexivity.
    rewrite E. cbn [leading split_on]. rewrite Ascii.eqb_refl, Hlead.
    cbn [filter is_name String.eqb negb andb]. now rewrite Hnames.
Qed.

Lemma last_app_names {A : Type} (a b : list A) (d : A) :
  b <> [] -> last (a ++ b) d = last b d.
Proof.
  intros Hb. induction a as [|x a IH]; [reflexivity|].
  cbn [app]. rewrite <- IH.
  destruct (a ++ b)%list eqn:E; [|reflexivity].
  apply app_eq_nil in E as [_ ->]. contradiction.
Qed.

Lemma last_name_ok (names : list string) :
  names <> [] -> Forall name_ok names -> is_name (last names "") = true.
Proof.
  induction names as [|x [|y rest] IH]; intros Hne Hall; [contradiction| |].
  - inversion Hall as [|? ? [Hx _] _]; subst. exact Hx.
  - inversion Hall; subst. apply IH; [discriminate | assumption].
Qed.

(** The string of a parsed path with a name does not name a directory, and
    is not empty. *)
Lemma path_str_file (p : path) :
  normal p -> parts p <> [] ->
  names_dir (path_str p) = false /\ String.eqb (path_str p) "" = false.
Proof.
  destruct p as [r names]. intros [Hroot Hall] Hne. cbn [root parts] in *.
  assert (Hlacks : Forall (fun x => lacks "/" x = true) names)
    by (eapply Forall_impl; [|exact Hall]; now intros a [_ Ha]).
  pose proof (split_on_concat names Hne Hlacks) as Hsplit.
  pose proof (last_name_ok names Hne Hall) as Hlast.
  destruct names as [|x rest]; [contradiction|].
  assert (Hx : x <> "").
  { inversion Hall as [|? ? [Hname _] _]; subst. intros ->. discriminate Hname. }
  unfold names_dir, path_str. cbn [root parts].
  destruct Hroot as [-> | [-> | ->]].
  - cbn [append]. rewrite Hsplit, Hlast. split; [reflexivity|].
    destruct x as [|c x]; [contradiction|].
    destruct rest; reflexivity.
  - assert (E : "/" ++ String.concat "/" (x :: rest)
                = String "/" (String.concat "/" (x :: rest))) by reflexivity.
    rewrite E. cbn [split_on]. rewrite Ascii.eqb_refl, Hsplit.
    rewrite (last_app_names [""] (x :: rest)) by discriminate.
    now rewrite Hlast.
  - assert (E : "//" ++ String.concat "/" (x :: rest)
                = String "/" (String "/" (String.concat "/" (x :: rest)))) by reflexivity.
    rewrite E. cbn [split_on]. rewrite Ascii.eqb_refl, Hsplit.
    rewrite (last_app_names [""; ""] (x :: rest)) by discriminate.
    now rewrite Hlast.
Qed.

(* ================================================================== *)
(** * Reading the hive *)

Section Reading.

Variable folder_guids : list (string * string).
Variable csv_hive : list csv_row -> hive_file.

(** A regular file that [file] names is found by [is_file] and read by the
    registry library under the string of its path. *)
Lemma hive_at_read (file : string) (w : world) (hf : hive_file) :
  hive_at csv_hive file w = Some hf ->
  is_file (Path file) w = (Ok true, w) /\
  Registry csv_hive (path_str (Path file)) w = (Ok hf, w).
Proof.
  unfold hive_at. intros H.
  destruct (parts (Path file)) as [|x rest] eqn:Hparts; [discriminate H|].
  destruct (locate (Path file) w) as [l|e] eqn:Hloc; [|discriminate H].
  destruct (node_at l w) as [[|c]|] eqn:Hnode; try discriminate H.
  destruct (path_str_file (Path file) (Path_normal file)) as [Hdir Hempty];
    [rewrite Hparts; discriminate|].
  split.
  - unfold is_file, stat. now rewrite Hloc, Hnode.
  - unfold Registry, read_file, bindM, ret.
    rewrite Hempty, (Path_str _ (Path_normal file)), Hloc, Hnode, Hdir.
    destruct c; congruence.
Qed.

Lemma regular_file_false (file : string) (w : world) :
  regular_file file w = false -> is_file (Path file) w = (Ok false, w).
Proof.
  unfold regular_file, is_file, stat.
  destruct (locate (Path file) w) as [l|e]; [|reflexivity].
  destruct (node_at l w) as [[|c]|]; [reflexivity | discriminate | reflexivity].
Qed.

(** [main] on a regular file the library reads as [hf]. *)
Lemma main_read (file out : string) (w : world) (hf : hive_file) :
  hive_at csv_hive file w = Some hf ->
  main folder_guids csv_hive file out w =
  match hf with
  | TooShort => (Raise StructError, w)
  | NotRegf =>
      (Raise (SystemExit (newline ++ "[x] Wrong file type, regf Signature not found")), w)
  | Regf reg_hive =>
      if String.eqb (hive_type reg_hive) "ntuser.dat" then
        match userassist reg_hive with
        | None =>
            write_output (Some []) out
              (mk_world (stdout w ++ ["[x] UserAssist key not found"])%list
                        (cwd w) (fs w))
        | Some (ua_key, subkeys) =>
            match parse_guids folder_guids subkeys []
                    (mk_world (stdout w ++ [(newline ++ "[+] Found " ++ ua_key)%string])%list
                              (cwd w) (fs w)) with
            | (Ok pd_list, w1) => write_output (Some pd_list) out w1
            | (Raise e, w1) => (Raise e, w1)
            end
        end
      else
        write_output None out
          (mk_world (stdout w ++ [(newline ++ path_name (Path file)
                                   ++ " is not an NTUSER.DAT file")%string])%list
                    (cwd w) (fs w))
  end.
Proof.
  intros H. destruct (hive_at_read file w hf H) as [Hfile Hread].
  unfold main, bindM at 1. rewrite Hfile.
  unfold bindM at 1. unfold get_key, bindM at 1. rewrite Hread.
  destruct hf as [|reg_hive|]; [reflexivity| |reflexivity].
  destruct (String.eqb (hive_type reg_hive) "ntuser.dat").
  - destruct (userassist reg_hive) as [[ua_key subkeys]|]; run; [|reflexivity].
    now destruct (parse_guids _ _ _ _) as [[pd|e] w1].
  - reflexivity.
Qed.

End Reading.
(* ================================================================== *)
(** * Path resolution and the making of directories *)

Section FileSystem.

Local Open Scope list_scope.

Lemma node_at_app (l : loc) (name : string) (w : world) :
  node_at (l ++ [name]) w = lookup (l ++ [name]) (fs w).
Proof. now destruct l. Qed.

Lemma node_at_set_fs (l : loc) (m : list (loc * node)) (w : world) :
  node_at l (set_fs m w) = match l with [] => Some Dir | _ => lookup l m end.
Proof. reflexivity. Qed.

Lemma plain_names_app (a b : list string) :
  plain_names (a ++ b) = plain_names a && plain_names b.
Proof. apply forallb_app. Qed.

Lemma dirs_made_app (l : loc) (a b : list string) (m : list (loc * node)) :
  dirs_made l (a ++ b) m = dirs_made l a m && dirs_made (l ++ a) b m.
Proof.
  revert l. induction a as [|x a IH]; intros l; cbn [app dirs_made].
  - now rewrite List.app_nil_r.
  - destruct (lookup (l ++ [x]) m) as [[|c]|]; try reflexivity.
    rewrite IH, <- List.app_assoc. reflexivity.
Qed.

Lemma dirs_free_app (l : loc) (a b : list string) (m : list (loc * node)) :
  dirs_free l (a ++ b) m = dirs_free l a m && dirs_free (l ++ a) b m.
Proof.
  revert l. induction a as [|x a IH]; intros l; cbn [app dirs_free].
  - now rewrite List.app_nil_r.
  - destruct (lookup (l ++ [x]) m) as [[|c]|]; try reflexivity;
      rewrite IH, <- List.app_assoc; reflexivity.
Qed.

Lemma makedirs_app (l : loc) (a b : list string) (m : list (loc * node)) :
  makedirs l (a ++ b) m = makedirs (l ++ a) b (makedirs l a m).
Proof.
  revert l m. induction a as [|x a IH]; intros l m; cbn [app makedirs].
  - now rewrite List.app_nil_r.
  - rewrite IH, <- List.app_assoc. reflexivity.
Qed.

(** Where every place is a directory already, nothing is made. *)
Lemma makedirs_noop (l : loc) (names : list string) (m : list (loc * node)) :
  dirs_made l names m = true -> makedirs l names m = m.
Proof.
  revert l. induction names as [|x names IH]; intros l; cbn [dirs_made makedirs];
    [reflexivity|].
  destruct (lookup (l ++ [x]) m) as [[|c]|]; try discriminate. apply IH.
Qed.

(** Places above [l] or below [l ++ names] are not touched. *)
Lemma lookup_makedirs (l l0 : loc) (names : list string) (m : list (loc * node)) :
  (List.length l0 <= List.length l \/
   List.length l + List.length names < List.length l0)%nat ->
  lookup l0 (makedirs l names m) = lookup l0 m.
Proof.
  revert l m. induction names as [|x names IH]; intros l m Hlen; cbn [makedirs];
    [reflexivity|].
  cbn [List.length] in Hlen.
  rewrite IH by (rewrite List.length_app; cbn [List.length]; lia).
  destruct (lookup (l ++ [x]) m); [reflexivity|].
  apply lookup_put_other. intros ->.
  rewrite List.length_app in Hlen. cbn [List.length] in Hlen. lia.
Qed.

Lemma lookup_makedirs_kept (l l0 : loc) (names : list string)
      (m : list (loc * node)) (n : node) :
  lookup l0 m = Some n -> lookup l0 (makedirs l names m) = Some n.
Proof.
  revert l m. induction names as [|x names IH]; intros l m H; cbn [makedirs];
    [exact H|].
  apply IH. destruct (lookup (l ++ [x]) m) eqn:E; [exact H|].
  rewrite lookup_put_other; [exact H|]. intros ->. congruence.
Qed.

(** A new directory leaves the way free. *)
Lemma dirs_free_put (l l0 : loc) (names : list string) (m : list (loc * node)) :
  dirs_free l names m = true -> dirs_free l names (put l0 Dir m) = true.
Proof.
  revert l. induction names as [|y names IH]; intros l; cbn [dirs_free];
    [reflexivity|].
  intros Hfree.
  assert (Hrest : dirs_free (l ++ [y]) names m = true)
    by (destruct (lookup (l ++ [y]) m) as [[|c]|]; [exact Hfree | discriminate | exact Hfree]).
  destruct (loc_eqb_spec (l ++ [y]) l0) as [Heq|Hne].
  - rewrite Heq, lookup_put_same, <- Heq. rewrite Heq at 2. now apply IH.
  - rewrite (lookup_put_other _ _ _ _ Hne).
    destruct (lookup (l ++ [y]) m) as [[|c]|]; [now apply IH | discriminate | now apply IH].
Qed.

Lemma dirs_made_free (l : loc) (names : list string) (m : list (loc * node)) :
  dirs_made l names m = true -> dirs_free l names m = true.
Proof.
  revert l. induction names as [|y names IH]; intros l; cbn [dirs_made dirs_free];
    [reflexivity|].
  destruct (lookup (l ++ [y]) m) as [[|c]|]; try discriminate. apply IH.
Qed.

(** Once made, every place on the way is a directory. *)
Lemma makedirs_made (l : loc) (names : list string) (m : list (loc * node)) :
  dirs_free l names m = true -> dirs_made l names (makedirs l names m) = true.
Proof.
  revert l m. induction names as [|x names IH]; intros l m;
    cbn [dirs_free dirs_made makedirs]; [reflexivity|].
  intros Hfree.
  assert (Hdir : lookup (l ++ [x])
                   (match lookup (l ++ [x]) m with
                    | Some _ => m
                    | None => put (l ++ [x]) Dir m
                    end) = Some Dir).
  { destruct (lookup (l ++ [x]) m) as [[|c]|] eqn:E;
      [exact E | discriminate | apply lookup_put_same]. }
  rewrite (lookup_makedirs_kept _ _ _ _ _ Hdir). apply IH.
  destruct (lookup (l ++ [x]) m) as [[|c]|] eqn:E;
    [exact Hfree | discriminate | now apply dirs_free_put].
Qed.

Section Walk.

Variable w : world.

Lemma walk_app (l : loc) (a b : list string) :
  walk w l (a ++ b) =
  match walk w l a with
  | Ok l' => walk w l' b
  | Raise e => Raise e
  end.
Proof.
  revert l. induction a as [|x a IH]; intros l; cbn [app walk]; [reflexivity|].
  destruct (node_at l w) as [[|c]|]; [apply IH | reflexivity | reflexivity].
Qed.

(** Through directories, plain names lead to the place they spell. *)
Lemma walk_through (l : loc) (names : list string) :
  node_at l w = Some Dir -> plain_names names = true ->
  dirs_made l names (fs w) = true ->
  walk w l names = Ok (l ++ names)%list /\ node_at (l ++ names) w = Some Dir.
Proof.
  revert l. induction names as [|x names IH]; intros l Hl Hplain Hmade.
  - rewrite List.app_nil_r. now split.
  - cbn [plain_names forallb] in Hplain. apply andb_true_iff in Hplain as [Hx Hplain].
    apply negb_true_iff in Hx. cbn [dirs_made] in Hmade. cbn [walk].
    rewrite Hl, Hx.
    destruct (lookup (l ++ [x]) (fs w)) as [[|c]|] eqn:E; try discriminate Hmade.
    destruct (IH (l ++ [x])%list) as [Hwalk Hnode];
      [now rewrite node_at_app | exact Hplain | exact Hmade |].
    rewrite <- List.app_assoc in Hwalk, Hnode. now split.
Qed.

(** Where a directory on the way is missing, resolution of a longer path
    fails with FileNotFoundError. *)
Lemma walk_missing (l : loc) (names more : list string) :
  node_at l w = Some Dir -> plain_names names = true ->
  dirs_free l names (fs w) = true -> dirs_made l names (fs w) = false ->
  more <> [] ->
  walk w l (names ++ more) = Raise FileNotFoundError.
Proof.
  intros Hl Hplain Hfree Hmade Hmore.
  revert l Hl Hfree Hmade. induction names as [|x names IH]; intros l Hl Hfree Hmade;
    [discriminate Hmade|].
  cbn [plain_names forallb] in Hplain. apply andb_true_iff in Hplain as [Hx Hplain].
  apply negb_true_iff in Hx. cbn [dirs_free dirs_made] in Hfree, Hmade.
  cbn [app walk]. rewrite Hl, Hx.
  destruct (lookup (l ++ [x]) (fs w)) as [[|c]|] eqn:E; [|discriminate Hfree|].
  - apply (IH Hplain); [now rewrite node_at_app | exact Hfree | exact Hmade].
  - destruct (names ++ more)%list as [|y rest] eqn:Hrest.
    + apply app_eq_nil in Hrest as [_ ->]. contradiction.
    + cbn [walk]. now rewrite node_at_app, E.
Qed.

End Walk.

Section Mkdir.

Variable r : string.

(** [stat] finds the directory when every place on the way is one, and
    fails otherwise. *)
Lemma stat_made (names : list string) (w : world) :
  let base := start (mk_path r names) w in
  node_at base w = Some Dir -> plain_names names = true ->
  dirs_free base names (fs w) = true ->
  if dirs_made base names (fs w)
  then stat (mk_path r names) w = (Ok Dir, w)
  else exists e, stat (mk_path r names) w = (Raise e, w).
Proof.
  intros base Hbase Hplain Hfree. unfold stat, locate. cbn [parts]. fold base.
  destruct (dirs_made base names (fs w)) eqn:Hmade.
  - destruct (walk_through w base names Hbase Hplain Hmade) as [-> ->]. reflexivity.
  - destruct names as [|x names] using rev_ind; [discriminate Hmade|]. clear IHnames.
    rewrite plain_names_app in Hplain. apply andb_true_iff in Hplain as [Hplain Hx].
    rewrite dirs_free_app in Hfree. apply andb_true_iff in Hfree as [Hfree Hlast].
    rewrite dirs_made_app in Hmade.
    destruct (dirs_made base names (fs w)) eqn:Hup.
    + destruct (walk_through w base names Hbase Hplain Hup) as [Hwalk Hnode].
      rewrite walk_app, Hwalk. cbn [walk]. rewrite Hnode.
      cbn [plain_names forallb] in Hx. rewrite andb_true_r in Hx.
      apply negb_true_iff in Hx. rewrite Hx, node_at_app, <- List.app_assoc.
      cbn [andb dirs_made dirs_free] in Hmade, Hlast.
      rewrite <- List.app_assoc in Hmade, Hlast.
      destruct (lookup _ (fs w)) as [[|c]|]; try discriminate; now eexists.
    + rewrite (walk_missing w base names [x] Hbase Hplain Hfree Hup) by discriminate.
      now eexists.
Qed.

(** [os.mkdir] of a path whose parent directories are made. *)
Lemma os_mkdir_last (names : list string) (x : string) (w : world) :
  let base := start (mk_path r names) w in
  node_at base w = Some Dir -> plain_names (names ++ [x]) = true ->
  dirs_made base names (fs w) = true ->
  os_mkdir (mk_path r (names ++ [x])) w =
  match lookup (base ++ names ++ [x]) (fs w) with
  | Some _ => (Raise FileExistsError, w)
  | None => (Ok tt, set_fs (put (base ++ names ++ [x]) Dir (fs w)) w)
  end.
Proof.
  intros base Hbase Hplain Hmade.
  rewrite plain_names_app in Hplain. apply andb_true_iff in Hplain as [Hplain Hx].
  cbn [plain_names forallb] in Hx. rewrite andb_true_r in Hx.
  apply negb_true_iff in Hx.
  destruct (walk_through w base names Hbase Hplain Hmade) as [Hwalk Hnode].
  unfold os_mkdir, locate. cbn [parts].
  change (start (mk_path r (names ++ [x])) w) with base.
  rewrite walk_app, Hwalk. cbn [walk]. rewrite Hnode, Hx.
  now rewrite node_at_app, <- List.app_assoc.
Qed.

(** [mkdir(parents=True, exist_ok=True)] makes the directories that are
    missing on the way, from the top down. *)
Lemma mkdir_parents_makes (names : list string) :
  forall w,
    let base := start (mk_path r names) w in
    node_at base w = Some Dir -> plain_names names = true ->
    dirs_free base names (fs w) = true ->
    mkdir_parents r (rev names) w
    = (Ok tt, set_fs (makedirs base names (fs w)) w).
Proof.
  induction names as [|x names IH] using rev_ind; intros w base Hbase Hplain Hfree.
  - cbn [rev mkdir_parents makedirs]. unfold os_mkdir, is_dir, stat, locate.
    cbn [parts walk]. unfold base in Hbase. rewrite !Hbase. now rewrite set_fs_same.
  - rewrite rev_unit. cbn [mkdir_parents]. rewrite <- rev_unit, rev_involutive.
    change (start (mk_path r (names ++ [x])) w) with (start (mk_path r names) w) in base.
    pose proof Hplain as Hplain'. rewrite plain_names_app in Hplain'.
    apply andb_true_iff in Hplain' as [Hup _].
    pose proof Hfree as Hfree'. rewrite dirs_free_app in Hfree'.
    apply andb_true_iff in Hfree' as [Hfree_up Hfree_last].
    cbn [dirs_free] in Hfree_last. rewrite <- List.app_assoc in Hfree_last.
    rewrite makedirs_app. cbn [makedirs]. rewrite <- List.app_assoc.
    destruct (dirs_made base names (fs w)) eqn:Hmade.
    + rewrite (os_mkdir_last names x w Hbase Hplain Hmade). fold base.
      rewrite (makedirs_noop _ _ _ Hmade).
      destruct (lookup (base ++ names ++ [x]) (fs w)) as [[|c]|] eqn:E;
        [|discriminate Hfree_last|reflexivity].
      unfold is_dir.
      pose proof (stat_made (names ++ [x]) w Hbase Hplain Hfree) as Hstat.
      change (start (mk_path r (names ++ [x])) w) with base in Hstat.
      rewrite dirs_made_app, Hmade in Hstat. cbn [andb dirs_made] in Hstat.
      rewrite <- List.app_assoc, E in Hstat. rewrite Hstat.
      now rewrite set_fs_same.
    + unfold os_mkdir at 1, locate. cbn [parts].
      change (start (mk_path r (names ++ [x])) w) with base.
      rewrite (walk_missing w base names [x] Hbase Hup Hfree_up Hmade) by discriminate.
      unfold bindM. rewrite (IH w Hbase Hup Hfree_up). fold base.
      set (m1 := makedirs base names (fs w)).
      assert (Hbase1 : node_at base (set_fs m1 w) = Some Dir).
      { rewrite node_at_set_fs. destruct base as [|b0 base'] eqn:Eb; [reflexivity|].
        unfold m1. rewrite lookup_makedirs by (left; lia).
        exact Hbase. }
      assert (Hmade1 : dirs_made base names (fs (set_fs m1 w)) = true)
        by (apply makedirs_made; exact Hfree_up).
      assert (Hlast : lookup (base ++ names ++ [x]) m1
                      = lookup (base ++ names ++ [x]) (fs w)).
      { unfold m1. apply lookup_makedirs. right.
        rewrite !List.length_app. cbn [List.length]. lia. }
      unfold mkdir_exist_ok.
      pose proof (os_mkdir_last names x (set_fs m1 w)) as Hmk.
      change (start (mk_path r names) (set_fs m1 w)) with base in Hmk.
      rewrite (Hmk Hbase1 Hplain Hmade1). cbn [fs set_fs]. rewrite Hlast.
      destruct (lookup (base ++ names ++ [x]) (fs w)) as [[|c]|] eqn:E;
        [|discriminate Hfree_last|reflexivity].
      unfold is_dir.
      assert (Hfree1 : dirs_free base (names ++ [x]) (fs (set_fs m1 w)) = true).
      { rewrite dirs_free_app. cbn [fs set_fs dirs_free].
        rewrite <- List.app_assoc, Hlast, andb_true_r.
        now apply dirs_made_free. }
      pose proof (stat_made (names ++ [x]) (set_fs m1 w) Hbase1 Hplain Hfree1) as Hstat.
      change (start (mk_path r (names ++ [x])) (set_fs m1 w)) with base in Hstat.
      rewrite dirs_made_app, Hmade1 in Hstat. cbn [andb dirs_made fs set_fs] in Hstat.
      rewrite <- List.app_assoc, Hlast in Hstat. rewrite Hstat. reflexivity.
Qed.

(** The directory of the report after [exists()] and [mkdir]. *)
Lemma ensure_dir (names : list string) (w : world) :
  let base := start (mk_path r names) w in
  node_at base w = Some Dir -> plain_names names = true ->
  dirs_free base names (fs w) = true ->
  bindM (exists_ (mk_path r names))
        (fun there => if there then ret tt else mkdir (mk_path r names)) w
  = (Ok tt, set_fs (makedirs base names (fs w)) w).
Proof.
  intros base Hbase Hplain Hfree.
  pose proof (stat_made names w Hbase Hplain Hfree) as Hstat. fold base in Hstat.
  unfold bindM, exists_.
  destruct (dirs_made base names (fs w)) eqn:Hmade.
  - rewrite Hstat, (makedirs_noop _ _ _ Hmade). unfold ret. now rewrite set_fs_same.
  - destruct Hstat as [e ->]. unfold mkdir. cbn [root parts].
    now apply mkdir_parents_makes.
Qed.

End Mkdir.

End FileSystem.
(* ================================================================== *)
(** * The report: what [get_key] collects and [write_output] writes *)

Lemma bindM_assoc {A B C : Type} (m : M A) (f : A -> M B) (g : B -> M C) (w : world) :
  bindM (bindM m f) g w = bindM m (fun a => bindM (f a) g) w.
Proof.
  unfold bindM. destruct (m w) as [[a|e] w1]; reflexivity.
Qed.

Section Entries.

Variable folder_guids : list (string * string).

(** Values that decode are appended in order; the loop goes on with the
    values after them. *)
Lemma parse_values_decodes (values rest : list reg_value) :
  (forall v, In v values -> exists ua_data, raw_data_parser (value_data v) = Ok ua_data) ->
  forall pd_list w,
    parse_values folder_guids (values ++ rest) pd_list w
    = parse_values folder_guids rest
        (pd_list ++ map (entry_of folder_guids) values)%list w.
Proof.
  induction values as [|v values IH]; intros Hok pd_list w; cbn [app parse_values map].
  - now rewrite List.app_nil_r.
  - run. unfold entry_of at 1, decoded, resolve.
    destruct (Hok v (or_introl eq_refl)) as [ua_data Hv]. rewrite Hv.
    rewrite IH by (intros v' Hin; apply Hok; now right).
    now rewrite <- List.app_assoc.
Qed.

(** GUID keys that decode contribute their values and their two lines; the
    loop goes on with the keys after them. *)
Lemma parse_guids_decodes (guids rest : list guid_key) :
  Forall guid_decodes guids ->
  forall pd_list so cw m,
    parse_guids folder_guids (guids ++ rest) pd_list (mk_world so cw m)
    = parse_guids folder_guids rest
        (pd_list ++ map (entry_of folder_guids) (hive_values guids))%list
        (mk_world (so ++ guid_messages guids)%list cw m).
Proof.
  induction 1 as [|g guids Hg Hguids IH]; intros pd_list so cw m.
  - cbn. now rewrite !List.app_nil_r.
  - destruct Hg as (values & Hcount & Hok).
    cbn [app parse_guids hive_values guid_messages flat_map]. rewrite Hcount.
    fold (hive_values guids). fold (guid_messages guids).
    destruct values as [|v values].
    + cbn [app]. apply IH.
    + run. cbn [stdout cwd fs].
      rewrite <- (List.app_nil_r (v :: values)) at 1.
      rewrite (parse_values_decodes (v :: values) [] Hok). cbn [parse_values]. run.
      rewrite IH. rewrite map_app, !List.app_assoc.
      cbn [app]. now rewrite <- !List.app_assoc.
Qed.

End Entries.

(** ** write_output *)

(** A loop whose body appends the rows of each element to the file at
    [fh]. *)
Lemma forM__rows {A : Type} (fh : loc) (body : A -> M unit)
      (rows : A -> list csv_row) (l : list A) :
  (forall a, In a l -> forall so cw cur m,
      body a (mk_world so cw (put fh (File (Csv cur)) m))
      = (Ok tt, mk_world so cw (put fh (File (Csv (cur ++ rows a)%list)) m))) ->
  forall so cw cur m,
    forM_ l body (mk_world so cw (put fh (File (Csv cur)) m))
    = (Ok tt, mk_world so cw (put fh (File (Csv (cur ++ flat_map rows l)%list)) m)).
Proof.
  induction l as [|a l IH]; intros Hbody so cw cur m; cbn [forM_ flat_map].
  - run. now rewrite List.app_nil_r.
  - run. rewrite (Hbody a (or_introl eq_refl)).
    rewrite IH by (intros a' Hin; apply Hbody; now right).
    now rewrite <- List.app_assoc.
Qed.

Lemma writerow_appends (fh : loc) (row : csv_row) so cw cur m :
  fh <> [] ->
  writerow fh row (mk_world so cw (put fh (File (Csv cur)) m))
  = (Ok tt, mk_world so cw (put fh (File (Csv (cur ++ [row])%list)) m)).
Proof.
  intros Hfh. unfold writerow, set_fs, node_at. cbn [stdout cwd fs].
  destruct fh as [|x fh]; [contradiction|].
  now rewrite lookup_put_same, put_put.
Qed.

(** The row loop of [write_output] on a well-shaped list: the rows of the
    non-empty items are appended to the header, in list order. *)
Lemma write_rows_loop (fh : loc) (pd_list : list pd_dict) :
  fh <> [] -> well_shaped pd_list ->
  forall so cw m,
    forM_ pd_list
      (fun program => forM_ program
         (fun '(key, val) =>
            match val with
            | [] => ret tt
            | _ :: _ =>
                bindM (index val 0) (fun v0 =>
                bindM (index val 1) (fun v1 =>
                bindM (index val 2) (fun v2 =>
                bindM (index val 3) (fun v3 =>
                writerow fh [PStr key; v0; v1; v2; v3]))))
            end))
      (mk_world so cw (put fh (File (Csv [header])) m))
    = (Ok tt, mk_world so cw (put fh (File (Csv (header :: rows_of pd_list))) m)).
Proof.
  intros Hfh Hshape so cw m.
  change (header :: rows_of pd_list) with ([header] ++ rows_of pd_list)%list.
  apply (forM__rows fh _ (flat_map row_of)).
  intros d Hd so' cw' cur m'.
  apply (forM__rows fh _ row_of).
  intros [key val] Hitem so'' cw'' cur' m''.
  destruct (Hshape d (key, val) Hd Hitem) as [Hempty|Hlen]; cbn [snd] in *.
  - subst val. unfold row_of. cbn [snd]. run. now rewrite List.app_nil_r.
  - destruct val as [|a [|b [|c [|e val]]]]; cbn [List.length] in Hlen; try lia.
    unfold row_of, index. cbn [snd fst nth nth_error]. run.
    now apply writerow_appends.
Qed.

Lemma joinpath_csv (p : path) :
  joinpath p "UserAssist.csv" = mk_path (root p) (parts p ++ ["UserAssist.csv"])%list.
Proof. reflexivity. Qed.

(** What [out_ready] says, in parts. *)
Lemma out_ready_parts (out : string) (w : world) :
  out_ready out w = true ->
  node_at (start (Path out) w) w = Some Dir /\
  plain_names (parts (Path out)) = true /\
  dirs_free (start (Path out) w) (parts (Path out)) (fs w) = true /\
  lookup (csv_loc out w) (fs w) <> Some Dir.
Proof.
  unfold out_ready. intros H.
  apply andb_true_iff in H as [H Hcsv]. apply andb_true_iff in H as [H Hfree].
  apply andb_true_iff in H as [Hbase Hplain].
  repeat split; try assumption.
  - now destruct (node_at _ w) as [[|c]|].
  - intros E. rewrite E in Hcsv. discriminate Hcsv.
Qed.

(** Up to the opened file: the directories are made and the report is
    created empty, or emptied. *)
Lemma open_report (out : string) (w : world) (k : loc -> M unit) :
  out_ready out w = true ->
  bindM (exists_ (Path out))
        (fun there =>
           bindM (if there then ret tt else mkdir (Path out))
                 (fun _ => bindM (open_w (joinpath (Path out) "UserAssist.csv")) k)) w
  = k (csv_loc out w)
      (mk_world (stdout w) (cwd w)
                (put (csv_loc out w) (File (Csv [])) (out_fs out w))).
Proof.
  intros Hready.
  destruct (out_ready_parts out w Hready) as (Hbase & Hplain & Hfree & Hcsv).
  rewrite <- bindM_assoc. unfold bindM at 1.
  destruct (Path out) as [r names] eqn:Hp. cbn [parts] in *.
  rewrite (ensure_dir r names w Hbase Hplain Hfree).
  unfold out_fs, csv_loc in *. rewrite Hp in *. cbn [parts] in *.
  set (base := start (mk_path r names) w) in *.
  set (m1 := makedirs base names (fs w)) in *.
  assert (Hbase1 : node_at base (set_fs m1 w) = Some Dir).
  { rewrite node_at_set_fs. destruct base as [|b0 base'] eqn:Eb; [reflexivity|].
    unfold m1. rewrite lookup_makedirs by (left; lia). exact Hbase. }
  assert (Hmade1 : dirs_made base names (fs (set_fs m1 w)) = true)
    by (apply makedirs_made; exact Hfree).
  destruct (walk_through (set_fs m1 w) base names Hbase1 Hplain Hmade1)
    as [Hwalk Hnode].
  assert (Hlast : lookup (base ++ names ++ ["UserAssist.csv"])%list m1
                  = lookup (base ++ names ++ ["UserAssist.csv"])%list (fs w)).
  { unfold m1. apply lookup_makedirs. right.
    rewrite !List.length_app. cbn [List.length]. lia. }
  rewrite joinpath_csv. cbn [root parts].
  unfold bindM, open_w, locate. cbn [parts].
  change (start (mk_path r (names ++ ["UserAssist.csv"])) (set_fs m1 w)) with base.
  rewrite walk_app, Hwalk. cbn [walk]. rewrite Hnode.
  cbn [String.eqb Ascii.eqb Bool.eqb]. rewrite node_at_app, <- List.app_assoc.
  cbn [fs set_fs]. rewrite Hlast.
  destruct (lookup (base ++ names ++ ["UserAssist.csv"])%list (fs w)) as [[|c]|];
    [contradiction | reflexivity | reflexivity].
Qed.

Lemma csv_loc_nonempty (out : string) (w : world) : csv_loc out w <> [].
Proof.
  unfold csv_loc. intros H. apply app_eq_nil in H as [_ H].
  apply app_eq_nil in H as [_ H]. discriminate H.
Qed.

(** An empty report: the file holds the header alone. *)
Lemma write_output_empty (out : string) (w : world) :
  out_ready out w = true ->
  write_output (Some []) out w =
  (Ok tt,
   mk_world (stdout w ++ [("[+] Output written to " ++ csv_name out)%string])%list
            (cwd w)
            (put (csv_loc out w) (File (Csv [header])) (out_fs out w))).
Proof.
  intros Hready. unfold write_output.
  rewrite open_report by exact Hready.
  unfold bindM at 1.
  now rewrite (writerow_appends _ header _ _ [] _ (csv_loc_nonempty out w)).
Qed.

(** No list at all: the header is written, then the loop raises. *)
Lemma write_output_none (out : string) (w : world) :
  out_ready out w = true ->
  write_output None out w =
  (Raise TypeError,
   mk_world (stdout w) (cwd w)
            (put (csv_loc out w) (File (Csv [header])) (out_fs out w))).
Proof.
  intros Hready. unfold write_output.
  rewrite open_report by exact Hready.
  pose proof (csv_loc_nonempty out w) as Hfh.
  unfold bindM at 1.
  rewrite (writerow_appends _ header _ _ [] _ Hfh). reflexivity.
Qed.

Lemma out_ready_stdout (out : string) (so : list string) (w : world) :
  out_ready out (mk_world so (cwd w) (fs w)) = out_ready out w.
Proof. reflexivity. Qed.

(* ================================================================== *)
(** * The run as a whole (claims C6, C7) *)

(** What a run does when the hive has no UserAssist key. *)
Example main_without_key :
  main [] csv_not_regf "NTUSER.DAT" "out" world_without_key =
  (Ok tt,
   mk_world ["[x] UserAssist key not found";
             "[+] Output written to out/UserAssist.csv"]
            ["work"]
            [(["work"], Dir);
             (["work"; "NTUSER.DAT"], File (Hive (Regf (mk_hive "ntuser.dat" None))));
             (["work"; "out"], Dir);
             (["work"; "out"; "UserAssist.csv"], File (Csv [header]))]).
Proof. reflexivity. Qed.

(** C7 as stated does not hold: with the key absent a CSV file is written. *)
Lemma subtree_absent_no_csv_fails : ~ subtree_absent_no_csv.
Proof.
  intros H.
  destruct (H [] csv_not_regf "NTUSER.DAT" "out" world_without_key
              (mk_hive "ntuser.dat" None) eq_refl eq_refl eq_refl) as [_ Hfiles].
  rewrite main_without_key in Hfiles.
  specialize (Hfiles ["work"; "out"; "UserAssist.csv"] (Csv [header]) eq_refl).
  discriminate Hfiles.
Qed.

(** C7, amended. When the UserAssist key is absent from an ntuser.dat hive
    and the report can be written under [out], the run reports the absence,
    raises nothing, makes the directories of [out] that are missing and
    writes [UserAssist.csv] holding the header row alone. *)
Theorem subtree_absent_header_only (folder_guids : list (string * string))
        (csv_hive : list csv_row -> hive_file)
        (path out : string) (w : world) (h : hive) :
  hive_at csv_hive path w = Some (Regf h) ->
  hive_type h = "ntuser.dat" -> userassist h = None ->
  out_ready out w = true ->
  main folder_guids csv_hive path out w =
  (Ok tt,
   mk_world (stdout w ++ ["[x] UserAssist key not found";
                          ("[+] Output written to " ++ csv_name out)%string])%list
            (cwd w)
            (put (csv_loc out w) (File (Csv [header])) (out_fs out w))).
Proof.
  intros Hfile Htype Hkey Hready.
  rewrite (main_read folder_guids csv_hive path out w _ Hfile), Htype, Hkey.
  cbn [String.eqb]. rewrite !Ascii.eqb_refl.
  rewrite write_output_empty by exact Hready.
  cbn [stdout cwd fs]. now rewrite <- List.app_assoc.
Qed.

Lemma subtree_absent_header_only_witness :
  main [] csv_not_regf "NTUSER.DAT" "new/out/" world_without_key =
  (Ok tt,
   mk_world (stdout world_without_key
             ++ ["[x] UserAssist key not found";
                 ("[+] Output written to " ++ csv_name "new/out/")%string])%list
            (cwd world_without_key)
            (put (csv_loc "new/out/" world_without_key) (File (Csv [header]))
                 (out_fs "new/out/" world_without_key))).
Proof.
  apply (subtree_absent_header_only [] csv_not_regf "NTUSER.DAT" "new/out/"
           world_without_key (mk_hive "ntuser.dat" None)); reflexivity.
Defined.

(** The FILETIME 2^64 - 1 falls in year 60056: the converter raises. *)
Example convert_filetime_overflow :
  convert_filetime (2 ^ 64 - 1) = Raise ValueError.
Proof. vm_compute. reflexivity. Qed.

(** A run over a hive whose first record has that FILETIME: the exception
    leaves [main]; neither the second record nor any file is written. *)
Example main_with_overflow :
  main [] csv_not_regf "NTUSER.DAT" "out" world_with_overflow =
  (Raise ValueError,
   mk_world [String (ascii_of_nat 10) "[+] Found UserAssist";
             "[+] Found GUID with values: {CEBFF5CD-ACE2-4F4F-9178-9926F41749EA}";
             "[+] Parsing values..."]
            (cwd world_with_overflow) (fs world_with_overflow)).
Proof. vm_compute. reflexivity. Qed.

(** C6 as stated does not hold, in either half: the record is not kept with
    an absent field (the decoder raises), and the run does not go on (the
    exception leaves [main]). *)
Lemma out_of_range_timestamp_tolerated_fails :
  ~ out_of_range_field_absent /\ ~ out_of_range_run_continues.
Proof.
  split.
  - intros Hrecord.
    assert (Hft : convert_filetime (u64_at 8 overflow_payload) = Raise ValueError)
      by (vm_compute; reflexivity).
    specialize (Hrecord overflow_payload eq_refl Hft).
    vm_compute in Hrecord. discriminate Hrecord.
  - intros Hrun.
    specialize (Hrun [] csv_not_regf "NTUSER.DAT" "out" world_with_overflow _ _ _
                     eq_refl eq_refl eq_refl).
    rewrite main_with_overflow in Hrun. cbn [fst] in Hrun.
    assert (Hcount : forall g, In g overflow_guids -> count_values g <> None).
    { intros g [<-|[]]. discriminate. }
    specialize (Hrun Hcount). discriminate Hrun.
Qed.

Lemma last_executed_of_raises (ft : Z) (e : exn) :
  convert_filetime ft = Raise e -> last_executed_of ft = Raise e.
Proof.
  intros H. unfold last_executed_of.
  destruct (ft =? 0) eqn:E; [|exact H].
  apply Z.eqb_eq in E. subst ft. vm_compute in H. discriminate H.
Qed.

(** C6, amended. When the converter raises on the FILETIME of a record,
    [raw_data_parser] raises the same exception instead of returning the
    record, and nothing catches it: with the GUID keys and the records
    before it decoding, [main] ends with that exception right after the
    two lines of the record's GUID key; whatever records and keys come
    after it are not looked at, and the file system is left as it was (no
    report is written). *)
Theorem out_of_range_aborts (folder_guids : list (string * string))
        (csv_hive : list csv_row -> hive_file)
        (path out ua_key : string) (w : world) (h : hive)
        (before after : list guid_key) (g : guid_key)
        (earlier later : list reg_value) (v : reg_value) (e : exn) :
  hive_at csv_hive path w = Some (Regf h) ->
  hive_type h = "ntuser.dat" ->
  userassist h = Some (ua_key, before ++ g :: after)%list ->
  Forall guid_decodes before ->
  count_values g = Some (earlier ++ v :: later)%list ->
  (forall v', In v' earlier ->
              exists ua_data, raw_data_parser (value_data v') = Ok ua_data) ->
  (List.length (value_data v) = 16%nat /\
   convert_filetime (u64_at 8 (value_data v)) = Raise e)
  \/
  (List.length (value_data v) = 72%nat /\
   convert_filetime (u64_at 60 (value_data v)) = Raise e) ->
  raw_data_parser (value_data v) = Raise e /\
  main folder_guids csv_hive path out w =
  (Raise e,
   mk_world (stdout w
             ++ (newline ++ "[+] Found " ++ ua_key)%string
                :: guid_messages before
             ++ [("[+] Found GUID with values: " ++ guid_name g)%string;
                 "[+] Parsing values..."])%list
            (cwd w) (fs w)).
Proof.
  intros Hfile Htype Hkey Hbefore Hcount Hearlier Hft.
  assert (Hraw : raw_data_parser (value_data v) = Raise e).
  { destruct Hft as [[Hlen Hft] | [Hlen Hft]].
    - rewrite raw_data_parser_len16 by assumption.
      now rewrite (last_executed_of_raises _ _ Hft).
    - rewrite raw_data_parser_len72 by assumption.
      now rewrite (last_executed_of_raises _ _ Hft). }
  split; [exact Hraw|].
  rewrite (main_read folder_guids csv_hive path out w _ Hfile), Htype, Hkey.
  cbn [String.eqb]. rewrite !Ascii.eqb_refl.
  rewrite (parse_guids_decodes folder_guids before (g :: after) Hbefore).
  cbn [parse_guids]. rewrite Hcount.
  destruct (earlier ++ v :: later)%list as [|v0 values] eqn:Hvs.
  { destruct earlier; discriminate Hvs. }
  run. cbn [stdout cwd fs]. rewrite <- Hvs.
  rewrite (parse_values_decodes folder_guids earlier (v :: later) Hearlier).
  cbn [parse_values]. run. rewrite Hraw.
  now rewrite <- !List.app_assoc.
Qed.

Lemma out_of_range_aborts_witness :
  raw_data_parser overflow_payload = Raise ValueError /\
  main [] csv_not_regf "NTUSER.DAT" "out" world_with_overflow =
  (Raise ValueError,
   mk_world (stdout world_with_overflow
             ++ (newline ++ "[+] Found " ++ "UserAssist")%string
                :: guid_messages []
             ++ [("[+] Found GUID with values: "
                  ++ "{CEBFF5CD-ACE2-4F4F-9178-9926F41749EA}")%string;
                 "[+] Parsing values..."])%list
            (cwd world_with_overflow) (fs world_with_overflow)).
Proof.
  apply (out_of_range_aborts [] csv_not_regf "NTUSER.DAT" "out" "UserAssist"
           world_with_overflow _ [] []
           (mk_guid "{CEBFF5CD-ACE2-4F4F-9178-9926F41749EA}"
              (Some [mk_value "pzq.rkr" overflow_payload;
                     mk_value "abgrcnq.rkr" xp_payload]))
           [] [mk_value "abgrcnq.rkr" xp_payload]
           (mk_value "pzq.rkr" overflow_payload) ValueError
           eq_refl eq_refl eq_refl (Forall_nil _) eq_refl).
  - intros v' [].
  - left. split; [reflexivity | vm_compute; reflexivity].
Defined.

(* ================================================================== *)
(** * The identifier resolver (claims C5, C9) *)

Lemma rot13_char_involutive (c : ascii) : rot13_char (rot13_char c) = c.
Proof.
  destruct c as [[] [] [] [] [] [] [] []]; reflexivity.
Qed.

Lemma rot13_involutive (s : string) : rot13 (rot13 s) = s.
Proof.
  induction s as [|c s IH]; cbn [rot13]; [reflexivity|].
  now rewrite rot13_char_involutive, IH.
Qed.

Lemma prefix_refl_app (a b : string) : String.prefix a (a ++ b) = true.
Proof.
  induction a as [|c a IH]; cbn; [now destruct b|].
  destruct (ascii_dec c c); [exact IH | contradiction].
Qed.

(** A string is its first segment followed by the rest. *)
Lemma split0_drop (sep : ascii) (s : string) :
  s = split0 sep s ++ drop (String.length (split0 sep s)) s.
Proof.
  induction s as [|c s IH]; cbn [split0]; [reflexivity|].
  destruct (Ascii.eqb c sep); cbn; [reflexivity | now f_equal].
Qed.

Lemma split0_prefix (sep : ascii) (s : string) :
  String.prefix (split0 sep s) s = true.
Proof.
  rewrite (split0_drop sep s) at 2. apply prefix_refl_app.
Qed.

Lemma prefix_occurs (key s : string) :
  String.prefix key s = true -> occurs key s = true.
Proof.
  intros H. destruct s; cbn [occurs]; now rewrite H.
Qed.

(** Skipping [k] characters, then scanning. *)
Lemma replace_scan_skip (old new : string) (k : nat) :
  forall s, replace_scan old new k s = replace_scan old new O (drop k s).
Proof.
  induction k as [|k IH]; intros s; [now destruct s|].
  destruct s as [|c s]; [reflexivity|]. cbn [replace_scan drop]. apply IH.
Qed.

(** A match at the head is replaced and the scan resumes after it. *)
Lemma replace_at_head (key val s : string) :
  key <> EmptyString -> String.prefix key s = true ->
  replace key val s = val ++ replace key val (drop (String.length key) s).
Proof.
  intros Hkey Hpre.
  destruct key as [|k key]; [contradiction|]. unfold replace.
  destruct s as [|c s]; [discriminate Hpre|].
  cbn [replace_scan]. rewrite Hpre.
  rewrite replace_scan_skip. cbn [String.length drop].
  replace (S (String.length key) - 1)%nat with (String.length key) by lia.
  reflexivity.
Qed.

Section Resolver.

Variable folder_guids : list (string * string).

(** No key is the first segment: the loop falls through. *)
Lemma resolve_guid_items_none (items : list (string * string)) (program : string) :
  (forall key val, In (key, val) items -> split0 "\" program <> key) ->
  resolve_guid_items items program = program.
Proof.
  induction items as [|[k v] items IH]; intros Hnone; cbn [resolve_guid_items];
    [reflexivity|].
  destruct (String.eqb k (split0 "\" program)) eqn:E.
  - apply String.eqb_eq in E. exfalso. apply (Hnone k v); [now left | now symmetry].
  - apply IH. intros key val Hin. apply (Hnone key val). now right.
Qed.

(** The entry whose key is the first segment decides the result. *)
Lemma resolve_guid_items_some (items : list (string * string))
      (program key val : string) :
  NoDup (map fst items) -> In (key, val) items ->
  split0 "\" program = key ->
  resolve_guid_items items program = replace key val program.
Proof.
  induction items as [|[k v] items IH]; intros Hnd Hin Hseg; [contradiction|].
  cbn [resolve_guid_items]. cbn [map fst] in Hnd. inversion Hnd as [|? ? Hnotin Hnd']; subst.
  destruct (String.eqb k (split0 "\" program)) eqn:E.
  - apply String.eqb_eq in E. subst k.
    destruct Hin as [Heq|Hin]; [now inversion Heq|].
    exfalso. apply Hnotin. change (split0 "\" program) with (fst (split0 "\" program, val)).
    now apply in_map.
  - destruct Hin as [Heq|Hin]; [|now apply IH].
    inversion Heq; subst. now rewrite String.eqb_refl in E.
Qed.

End Resolver.

(** What the resolver does to a name that carries the identifier twice. *)
Example resolve_twice_name :
  resolve system_table twice_name = "System32\System32\cmd.exe".
Proof. reflexivity. Qed.

(** C5 as stated does not hold: a later occurrence of the matched
    identifier is substituted as well. *)
Lemma only_leading_segment_replaced_fails : ~ only_leading_segment_replaced.
Proof.
  intros H.
  specialize (H system_table twice_name
                "{1AC14E77-02E7-4E5D-B744-2EB1AE5198B7}" "System32").
  assert (Hnd : NoDup (map fst system_table))
    by (repeat constructor; cbn; tauto).
  specialize (H Hnd (or_introl eq_refl) eq_refl).
  rewrite resolve_twice_name in H. vm_compute in H. discriminate H.
Qed.

(** C5, amended. The resolver substitutes only when the first path segment
    of the de-obfuscated name is a table key; it then replaces that leading
    segment and, with it, every further non-overlapping occurrence of the
    same key in the name; a name whose first segment is no key is returned
    as de-obfuscated. *)
Theorem resolve_replaces_every_occurrence (folder_guids : list (string * string))
        (name : string) :
  NoDup (map fst folder_guids) ->
  (forall key val,
      In (key, val) folder_guids -> split0 "\" (rot13 name) = key ->
      resolve folder_guids name = replace key val (rot13 name) /\
      (key <> EmptyString ->
       resolve folder_guids name =
       val ++ replace key val (drop (String.length key) (rot13 name)))) /\
  ((forall key val, In (key, val) folder_guids -> split0 "\" (rot13 name) <> key) ->
   resolve folder_guids name = rot13 name).
Proof.
  intros Hnd. split.
  - intros key val Hin Hseg.
    assert (Hres : resolve folder_guids name = replace key val (rot13 name))
      by (now apply resolve_guid_items_some).
    split; [exact Hres|].
    intros Hkey. rewrite Hres. apply replace_at_head; [exact Hkey|].
    rewrite <- Hseg. apply split0_prefix.
  - intros Hnone. now apply resolve_guid_items_none.
Qed.

Lemma resolve_replaces_every_occurrence_witness :
  (forall key val,
      In (key, val) system_table -> split0 "\" (rot13 twice_name) = key ->
      resolve system_table twice_name = replace key val (rot13 twice_name) /\
      (key <> EmptyString ->
       resolve system_table twice_name =
       val ++ replace key val (drop (String.length key) (rot13 twice_name)))) /\
  ((forall key val, In (key, val) system_table -> split0 "\" (rot13 twice_name) <> key) ->
   resolve system_table twice_name = rot13 twice_name).
Proof.
  apply (resolve_replaces_every_occurrence system_table twice_name).
  repeat constructor; cbn; tauto.
Defined.

(** The resolver on a plain path: rot-13 scrambles it. *)
Example resolve_plain_path :
  resolve system_table "C:\Windows\notepad.exe" = "P:\Jvaqbjf\abgrcnq.rkr".
Proof. reflexivity. Qed.

(** C9 as stated does not hold: the resolver is called on obfuscated names
    and applies rot-13 first, so a plain path does not come back unchanged. *)
Lemma resolve_fixes_plain_paths_fails : ~ resolve_fixes_plain_paths.
Proof.
  intros H.
  specialize (H system_table "C:\Windows\notepad.exe").
  rewrite resolve_plain_path in H.
  assert (Hno : forall key val, In (key, val) system_table ->
                  occurs key "C:\Windows\notepad.exe" = false /\
                  occurs key (rot13 "C:\Windows\notepad.exe") = false).
  { intros key val [Heq|[]]. inversion Heq; subst. split; reflexivity. }
  specialize (H Hno). discriminate H.
Qed.

(** C9, amended. The substitution step [resolve_guid] returns unchanged any
    path whose first segment is no table key, and is idempotent there.  The
    resolver as a whole, which applies rot-13 first, returns that path for
    its rot-13 image; for the path itself it returns the rot-13 image of
    the path when the first segment of the image is no table key either. *)
Theorem resolve_guid_fixes_plain_paths (folder_guids : list (string * string))
        (path : string) :
  (forall key val, In (key, val) folder_guids -> split0 "\" path <> key) ->
  resolve_guid folder_guids path = path /\
  resolve_guid folder_guids (resolve_guid folder_guids path)
  = resolve_guid folder_guids path /\
  resolve folder_guids (rot13 path) = path /\
  ((forall key val, In (key, val) folder_guids -> split0 "\" (rot13 path) <> key) ->
   resolve folder_guids path = rot13 path).
Proof.
  intros Hnone.
  assert (H1 : resolve_guid folder_guids path = path)
    by (now apply resolve_guid_items_none).
  split; [exact H1|]. split; [now rewrite !H1|]. split.
  - unfold resolve. now rewrite rot13_involutive.
  - intros Himage. unfold resolve, resolve_guid.
    now apply resolve_guid_items_none.
Qed.

Lemma resolve_guid_fixes_plain_paths_witness :
  let path := "C:\Windows\notepad.exe" in
  resolve_guid system_table path = path /\
  resolve_guid system_table (resolve_guid system_table path)
  = resolve_guid system_table path /\
  resolve system_table (rot13 path) = path /\
  ((forall key val, In (key, val) system_table -> split0 "\" (rot13 path) <> key) ->
   resolve system_table path = rot13 path).
Proof.
  apply (resolve_guid_fixes_plain_paths system_table "C:\Windows\notepad.exe").
  intros key val [Heq|[]]. inversion Heq; subst. cbn. discriminate.
Defined.

(* ================================================================== *)
(** * The focus time of the 72-byte layout (claim C2) *)

Lemma append_assoc (a b c : string) : (a ++ b) ++ c = a ++ b ++ c.
Proof. induction a as [|x a IH]; cbn; [reflexivity | now rewrite IH]. Qed.

Lemma lacks_app (sep : ascii) (a b : string) :
  lacks sep (a ++ b) = lacks sep a && lacks sep b.
Proof.
  induction a as [|c a IH]; cbn [append lacks]; [reflexivity|].
  now rewrite IH, andb_assoc.
Qed.

Lemma split0_lacks (sep : ascii) (a : string) :
  lacks sep a = true -> split0 sep a = a.
Proof.
  induction a as [|c a IH]; cbn [lacks split0]; [reflexivity|].
  intros H. apply andb_true_iff in H as [Hc Ha].
  apply negb_true_iff in Hc. rewrite Hc. now rewrite IH.
Qed.

Lemma split0_before_sep (sep : ascii) (a b : string) :
  lacks sep a = true -> split0 sep (a ++ String sep b) = a.
Proof.
  induction a as [|c a IH]; cbn [lacks split0 append].
  - now rewrite Ascii.eqb_refl.
  - intros H. apply andb_true_iff in H as [Hc Ha].
    apply negb_true_iff in Hc. rewrite Hc. now rewrite IH.
Qed.

Lemma digit_not_dot (d : Z) : 0 <= d < 10 -> Ascii.eqb (digit d) "." = false.
Proof.
  intros H. unfold digit.
  assert (Hn : (Z.to_nat d < 10)%nat) by lia.
  remember (Z.to_nat d) as k eqn:Hk. clear Hk.
  do 10 (destruct k as [|k]; [reflexivity|]). lia.
Qed.

Lemma zpad_lacks_dot (w : nat) (n : Z) : lacks "." (zpad w n) = true.
Proof.
  induction w as [|w IH]; cbn [zpad lacks]; [reflexivity|].
  rewrite digit_not_dot by (apply Z.mod_pos_bound; lia). exact IH.
Qed.

Lemma fmt_d_lacks_dot (w : nat) (n : Z) : lacks "." (fmt_d w n) = true.
Proof. apply zpad_lacks_dot. Qed.

Lemma hms_lacks_dot (s : Z) : lacks "." (hms s) = true.
Proof.
  unfold hms. rewrite !lacks_app, !fmt_d_lacks_dot. reflexivity.
Qed.

(** The focus time the code computes, in closed form. *)
Lemma focus_time_closed_form (ms : Z) :
  0 <= ms ->
  split0 "." (timedelta_str (timedelta_milliseconds ms)) = focus_time_fmt ms.
Proof.
  intros Hms. unfold timedelta_str, timedelta_milliseconds, focus_time_fmt.
  cbn [td_days td_seconds td_microseconds].
  replace (ms * 1000 / 1000000) with (ms / 1000)
    by (change 1000000 with (1000 * 1000); now rewrite Z.div_mul_cancel_r).
  set (s := ms / 1000).
  assert (Hs : 0 <= s) by (apply Z.div_pos; lia).
  assert (Hbase : fmt_d 1 (s mod 86400 / 60 / 60) ++ ":"
                  ++ fmt_d 2 ((s mod 86400 / 60) mod 60) ++ ":"
                  ++ fmt_d 2 ((s mod 86400) mod 60) = hms (s mod 86400)).
  { unfold hms. now rewrite Z.div_div by lia. }
  rewrite Hbase.
  assert (Hsplit : forall t, lacks "." t = true ->
            split0 "." (if ms * 1000 mod 1000000 =? 0 then t
                        else t ++ "." ++ fmt_d 6 (ms * 1000 mod 1000000)) = t).
  { intros t Ht. destruct (ms * 1000 mod 1000000 =? 0).
    - now apply split0_lacks.
    - now apply split0_before_sep. }
  destruct (s <? 86400) eqn:Hlt.
  - apply Z.ltb_lt in Hlt.
    rewrite (Z.div_small s 86400), (Z.mod_small s 86400) by lia.
    cbn [Z.eqb]. apply Hsplit, hms_lacks_dot.
  - apply Z.ltb_ge in Hlt.
    assert (Hd : 1 <= s / 86400) by (apply Z.div_le_lower_bound; lia).
    destruct (s / 86400 =? 0) eqn:Hz; [apply Z.eqb_eq in Hz; lia|].
    rewrite Z.abs_eq by lia.
    rewrite Hsplit.
    + destruct (s / 86400 =? 1); cbn [append]; now rewrite append_assoc.
    + rewrite !lacks_app, fmt_d_lacks_dot, hms_lacks_dot.
      now destruct (s / 86400 =? 1).
Qed.

(** The focus time of [day_payload] is a full day. *)
Example raw_data_parser_day_payload :
  raw_data_parser day_payload =
  Ok [PInt 3; PInt 2; PStr "1 day, 0:00:00"; absent].
Proof. vm_compute. reflexivity. Qed.

Example focus_time_spec_day : focus_time_spec 86400000 = "24:00:00".
Proof. vm_compute. reflexivity. Qed.

(** C2 as stated does not hold: from 24 hours on the focus time is not of
    the form H:MM:SS. *)
Lemma win7_focus_time_hms_fails : ~ win7_focus_time_hms.
Proof.
  intros H. specialize (H day_payload eq_refl).
  rewrite raw_data_parser_day_payload in H. vm_compute in H. discriminate H.
Qed.

(** C2, amended. A 72-byte payload decodes to: run count = the u32 at
    4..8 (no adjustment); focus count = the u32 at 8..12; focus time = the
    u32 at 12..16 as milliseconds, truncated to whole seconds, printed as
    H:MM:SS below 24 hours and as "D day(s), H:MM:SS" with H < 24 from 24
    hours on; last executed = the Filetime Converter on the u64 at 60..68,
    absent when that integer is zero. *)
Theorem raw_data_parser_win7 (data : bytes) :
  List.length data = 72%nat ->
  0 <= u32_at 4 data < 2 ^ 32 /\
  0 <= u32_at 8 data < 2 ^ 32 /\
  0 <= u32_at 12 data < 2 ^ 32 /\
  0 <= u64_at 60 data < 2 ^ 64 /\
  raw_data_parser data =
    (last_executed <- (if u64_at 60 data =? 0 then Ok ""
                       else convert_filetime (u64_at 60 data)) ;;
     Ok [PInt (u32_at 4 data); PInt (u32_at 8 data);
         PStr (focus_time_fmt (u32_at 12 data)); PStr last_executed])%result.
Proof.
  intros H.
  pose proof (u32_range 12 data) as H12.
  repeat (split; [apply u32_range || apply u64_range; lia|]).
  rewrite raw_data_parser_len72 by assumption.
  rewrite focus_time_closed_form by lia. reflexivity.
Qed.

Lemma raw_data_parser_win7_witness :
  List.length day_payload = 72%nat /\
  0 <= u32_at 4 day_payload < 2 ^ 32 /\
  0 <= u32_at 8 day_payload < 2 ^ 32 /\
  0 <= u32_at 12 day_payload < 2 ^ 32 /\
  0 <= u64_at 60 day_payload < 2 ^ 64 /\
  raw_data_parser day_payload =
    (last_executed <- (if u64_at 60 day_payload =? 0 then Ok ""
                       else convert_filetime (u64_at 60 day_payload)) ;;
     Ok [PInt (u32_at 4 day_payload); PInt (u32_at 8 day_payload);
         PStr (focus_time_fmt (u32_at 12 day_payload)); PStr last_executed])%result.
Proof.
  split; [reflexivity | apply (raw_data_parser_win7 day_payload); reflexivity].
Defined.

(* ================================================================== *)
(** * Rounding to the nearest integer *)

Module RoundFacts.
Import Float.
Local Open Scope Q_scope.

(** From an inequality between injected integers back to [Z]. *)
Lemma Zlt_of_Q (a b c : Z) : inject_Z a < inject_Z b + inject_Z c -> (a < b + c)%Z.
Proof. intros H. rewrite <- inject_Z_plus, <- Zlt_Qlt in H. exact H. Qed.

Lemma Zle_of_Q (a b c : Z) : inject_Z a <= inject_Z b + inject_Z c -> (a <= b + c)%Z.
Proof. intros H. rewrite <- inject_Z_plus, <- Zle_Qle in H. exact H. Qed.

(** [rne x] is within one half of [x]; at exactly one half it is even. *)
Lemma rne_spec (x : Q) :
  (inject_Z (rne x) - (1 # 2) < x /\ x < inject_Z (rne x) + (1 # 2)) \/
  ((x == inject_Z (rne x) - (1 # 2) \/ x == inject_Z (rne x) + (1 # 2)) /\
   Z.even (rne x) = true).
Proof.
  unfold rne. cbv zeta. pose proof (Qfloor_le x) as Hlo. pose proof (Qlt_floor x) as Hhi.
  rewrite inject_Z_plus in Hhi. change (inject_Z 1) with 1 in Hhi.
  destruct (Qcompare_spec (x - inject_Z (Qfloor x)) (1 # 2)) as [He|Hl|Hg].
  - right. destruct (Z.even (Qfloor x)) eqn:Ev.
    + split; [right; lra | exact Ev].
    + split; [left; rewrite inject_Z_plus; change (inject_Z 1) with 1; lra|].
      rewrite Z.even_add, Ev. reflexivity.
  - left. lra.
  - left. rewrite inject_Z_plus. change (inject_Z 1) with 1. lra.
Qed.

(** The integer described by [rne_spec] is unique. *)
Lemma rne_unique (x : Q) (n : Z) :
  (inject_Z n - (1 # 2) < x /\ x < inject_Z n + (1 # 2)) \/
  ((x == inject_Z n - (1 # 2) \/ x == inject_Z n + (1 # 2)) /\ Z.even n = true) ->
  rne x = n.
Proof.
  intros Hn. pose proof (rne_spec x) as Hr.
  set (r := rne x) in *. clearbody r.
  assert (Hclose : (r - 1 <= n <= r + 1)%Z).
  { split.
    - assert (H : (r < n + 2)%Z); [ | lia].
      apply Zlt_of_Q. change (inject_Z 2) with 2.
      destruct Hn as [[? ?]|[[?|?] _]]; destruct Hr as [[? ?]|[[?|?] _]]; lra.
    - assert (H : (n < r + 2)%Z); [ | lia].
      apply Zlt_of_Q. change (inject_Z 2) with 2.
      destruct Hn as [[? ?]|[[?|?] _]]; destruct Hr as [[? ?]|[[?|?] _]]; lra. }
  assert (Hcases : (n = r - 1 \/ n = r \/ n = r + 1)%Z) by lia.
  destruct Hcases as [Hc | [Hc | Hc]]; [ | now symmetry | ]; exfalso.
  - assert (Hq : inject_Z r == inject_Z n + 1)
      by (replace r with (n + 1)%Z by lia; rewrite inject_Z_plus; reflexivity).
    destruct Hn as [[? ?]|[[?|?] Ev]]; destruct Hr as [[? ?]|[[?|?] Ev']]; try lra.
    replace r with (n + 1)%Z in Ev' by lia.
    rewrite Z.even_add, Ev in Ev'. discriminate Ev'.
  - assert (Hq : inject_Z n == inject_Z r + 1)
      by (rewrite Hc, inject_Z_plus; reflexivity).
    destruct Hn as [[? ?]|[[?|?] Ev]]; destruct Hr as [[? ?]|[[?|?] Ev']]; try lra.
    rewrite Hc, Z.even_add, Ev' in Ev. discriminate Ev.
Qed.

Lemma rne_Z (z : Z) : rne (inject_Z z) = z.
Proof. apply rne_unique. left. lra. Qed.

Lemma rne_opp (x : Q) : rne (- x) = (- rne x)%Z.
Proof.
  apply rne_unique. rewrite inject_Z_opp, Z.even_opp.
  destruct (rne_spec x) as [[? ?]|[[?|?] Ev]].
  - left. lra.
  - right. split; [right; lra | exact Ev].
  - right. split; [left; lra | exact Ev].
Qed.

Lemma rne_comp (x y : Q) : x == y -> rne x = rne y.
Proof.
  intros H. apply rne_unique.
  destruct (rne_spec y) as [[? ?]|[[?|?] Ev]].
  - left. lra.
  - right. split; [left; lra | exact Ev].
  - right. split; [right; lra | exact Ev].
Qed.

Lemma rne_mono (x y : Q) : x <= y -> (rne x <= rne y)%Z.
Proof.
  intros Hxy.
  destruct (Z.le_gt_cases (rne x) (rne y)) as [H|H]; [exact H|exfalso].
  assert (Hq : inject_Z (rne y) + 1 <= inject_Z (rne x)).
  { change 1 with (inject_Z 1). rewrite <- inject_Z_plus, <- Zle_Qle. lia. }
  destruct (rne_spec x) as [[? ?]|[[?|?] Ex]];
    destruct (rne_spec y) as [[? ?]|[[?|?] Ey]]; try lra.
  assert (Hsucc : (rne x = rne y + 1)%Z).
  { assert (H' : (rne x <= rne y + 1)%Z); [ | lia].
    apply Zle_of_Q. change (inject_Z 1) with 1. lra. }
  rewrite Hsucc, Z.even_add, Ey in Ex. discriminate Ex.
Qed.

End RoundFacts.

(* ================================================================== *)
(** * Rounding to binary64 *)

Module RoundingFacts.
Import Float RoundFacts.
Local Open Scope Q_scope.

Lemma pow2_pos (e : Z) : 0 < 2 ^ e.
Proof. apply Qpower_0_lt. reflexivity. Qed.

Lemma pow2_add (a b : Z) : 2 ^ (a + b) == 2 ^ a * 2 ^ b.
Proof. apply Qpower_plus. discriminate. Qed.

Lemma pow2_succ (a : Z) : 2 ^ (a + 1) == 2 * 2 ^ a.
Proof. rewrite pow2_add. change (2 ^ 1) with 2. ring. Qed.

Lemma pow2_le (a b : Z) : (a <= b)%Z -> 2 ^ a <= 2 ^ b.
Proof. intros H. apply Qpower_le_compat_l; [exact H | discriminate]. Qed.

Lemma pow2_lt (a b : Z) : (a < b)%Z -> 2 ^ a < 2 ^ b.
Proof. intros H. apply Qpower_lt_compat_l; [exact H | reflexivity]. Qed.

Lemma pow2_Z (n : Z) : (0 <= n)%Z -> 2 ^ n == inject_Z (2 ^ n).
Proof. intros H. symmetry. exact (Zpower_Qpower 2 n H). Qed.

(** [ilog2] is the binary exponent. *)
Lemma ilog2_spec (x : Q) : 0 < x -> 2 ^ ilog2 x <= x /\ x < 2 ^ (ilog2 x + 1).
Proof.
  intros Hx. destruct x as [a b].
  assert (Ha : (0 < a)%Z) by (unfold Qlt in Hx; cbn in Hx; lia).
  unfold ilog2. cbn [Qnum Qden].
  set (la := Z.log2 a). set (lb := Z.log2 (Zpos b)).
  destruct (Z.log2_spec a Ha) as [Ha1 Ha2]. fold la in Ha1, Ha2.
  destruct (Z.log2_spec (Zpos b) eq_refl) as [Hb1 Hb2]. fold lb in Hb1, Hb2.
  assert (Hla : (0 <= la)%Z) by apply Z.log2_nonneg.
  assert (Hlb : (0 <= lb)%Z) by apply Z.log2_nonneg.
  rewrite Zle_Qle, <- pow2_Z in Ha1, Hb1 by lia.
  rewrite Zlt_Qlt, <- pow2_Z in Ha2, Hb2 by lia.
  rewrite <- Z.add_1_r, pow2_succ in Ha2, Hb2.
  pose proof (pow2_pos la) as Pa. pose proof (pow2_pos lb) as Pb.
  pose proof (pow2_pos (la - lb)) as Pe.
  assert (He : 2 ^ (la - lb) * 2 ^ lb == 2 ^ la)
    by (rewrite <- pow2_add; now replace (la - lb + lb)%Z with la by lia).
  assert (Hxab : (a # b) * inject_Z (Zpos b) == inject_Z a).
  { rewrite (Qmake_Qdiv a b). field. discriminate. }
  set (x := a # b) in *. set (A := inject_Z a) in *.
  set (B := inject_Z (Zpos b)) in *.
  set (E := 2 ^ (la - lb)) in *. set (Pla := 2 ^ la) in *. set (Plb := 2 ^ lb) in *.
  assert (Hup : x < 2 * E).
  { apply Qnot_le_lt. intros Hc.
    assert (2 * E * Plb <= x * B).
    { apply Qle_trans with (2 * E * B).
      - apply Qmult_le_l; [lra | lra].
      - apply Qmult_le_compat_r; lra. }
    lra. }
  assert (Hlow : E <= 2 * x).
  { apply Qnot_lt_le. intros Hc.
    assert (2 * x * B < E * (2 * Plb)).
    { apply Qle_lt_trans with (E * B).
      - apply Qmult_le_compat_r; lra.
      - apply Qmult_lt_l; lra. }
    lra. }
  destruct (Qle_bool E x) eqn:Hb.
  - apply Qle_bool_iff in Hb. split; [exact Hb|]. rewrite pow2_succ. exact Hup.
  - assert (Hlt : x < E).
    { apply Qnot_le_lt. intros Hc. apply Qle_bool_iff in Hc. congruence. }
    replace (la - lb - 1 + 1)%Z with (la - lb)%Z by lia. fold E.
    split; [|exact Hlt].
    assert (Hh : 2 * 2 ^ (la - lb - 1) == E).
    { rewrite <- pow2_succ. unfold E. now replace (la - lb - 1 + 1)%Z with (la - lb)%Z by lia. }
    lra.
Qed.

Lemma ilog2_unique (x : Q) (e : Z) :
  2 ^ e <= x -> x < 2 ^ (e + 1) -> ilog2 x = e.
Proof.
  intros Hlo Hhi.
  assert (Hx : 0 < x) by (pose proof (pow2_pos e); lra).
  destruct (ilog2_spec x Hx) as [Hlo' Hhi'].
  destruct (Z.lt_trichotomy (ilog2 x) e) as [H|[H|H]]; [exfalso|exact H|exfalso].
  - pose proof (pow2_le (ilog2 x + 1) e ltac:(lia)). lra.
  - pose proof (pow2_le (e + 1) (ilog2 x) ltac:(lia)). lra.
Qed.

Lemma ilog2_comp (x y : Q) : 0 < x -> x == y -> ilog2 x = ilog2 y.
Proof.
  intros Hx Hxy. destruct (ilog2_spec x Hx) as [Hlo Hhi].
  symmetry. apply ilog2_unique; lra.
Qed.

Lemma ilog2_mono (x y : Q) : 0 < x -> x <= y -> (ilog2 x <= ilog2 y)%Z.
Proof.
  intros Hx Hxy.
  destruct (ilog2_spec x Hx) as [Hlo Hhi].
  destruct (ilog2_spec y ltac:(lra)) as [Hlo' Hhi'].
  destruct (Z.le_gt_cases (ilog2 x) (ilog2 y)) as [H|H]; [exact H|exfalso].
  pose proof (pow2_le (ilog2 y + 1) (ilog2 x) ltac:(lia)). lra.
Qed.


Lemma ulp_pos (x : Q) : 0 < ulp x.
Proof. apply pow2_pos. Qed.

Lemma ulp_of_pos (x : Q) : 0 < x -> ulp x = 2 ^ (ilog2 x - 52).
Proof.
  intros Hx. unfold ulp. f_equal. f_equal.
  symmetry. apply ilog2_comp; [exact Hx|]. symmetry. apply Qabs_pos. lra.
Qed.

Lemma ulp_opp (x : Q) : ~ x == 0 -> ulp (- x) = ulp x.
Proof.
  intros Hx. unfold ulp. f_equal. f_equal.
  apply ilog2_comp; [|apply Qabs_opp].
  apply Qabs_case; intros; lra.
Qed.

Lemma ulp_comp (x y : Q) : ~ x == 0 -> x == y -> ulp x = ulp y.
Proof.
  intros Hx Hxy. unfold ulp. f_equal. f_equal.
  apply ilog2_comp; [apply Qabs_case; intros; lra|].
  now rewrite Hxy.
Qed.

Lemma RN_0 (x : Q) : x == 0 -> RN x == 0.
Proof.
  intros H. unfold RN. apply Qeq_bool_iff in H. now rewrite H.
Qed.

Lemma RN_nonzero (x : Q) :
  ~ x == 0 -> RN x == inject_Z (rne (x / ulp x)) * ulp x.
Proof.
  intros H. unfold RN.
  destruct (Qeq_bool x 0) eqn:E; [apply Qeq_bool_iff in E; contradiction|].
  apply Qred_correct.
Qed.

Lemma RN_comp (x y : Q) : x == y -> RN x == RN y.
Proof.
  intros Hxy. destruct (Qeq_dec x 0) as [Hx|Hx].
  - rewrite (RN_0 x Hx), (RN_0 y); [reflexivity | lra].
  - rewrite (RN_nonzero x Hx), (RN_nonzero y) by lra.
    rewrite <- (ulp_comp x y Hx Hxy).
    rewrite (rne_comp (x / ulp x) (y / ulp x)); [reflexivity|].
    unfold Qdiv. apply Qmult_comp; [exact Hxy | reflexivity].
Qed.

Lemma RN_opp (x : Q) : RN (- x) == - RN x.
Proof.
  destruct (Qeq_dec x 0) as [Hx|Hx].
  - rewrite (RN_0 x Hx), (RN_0 (- x)); lra.
  - rewrite (RN_nonzero x Hx), (RN_nonzero (- x)) by lra.
    rewrite (ulp_opp x Hx).
    rewrite (rne_comp (- x / ulp x) (- (x / ulp x))), rne_opp, inject_Z_opp.
    + ring.
    + field. pose proof (ulp_pos x). lra.
Qed.

(** A positive number and its rounding lie in the same closed binade. *)
Lemma RN_binade (x : Q) :
  0 < x -> 2 ^ ilog2 x <= RN x /\ RN x <= 2 ^ (ilog2 x + 1).
Proof.
  intros Hx. destruct (ilog2_spec x Hx) as [Hlo Hhi].
  rewrite RN_nonzero by lra. rewrite (ulp_of_pos x Hx).
  set (e := ilog2 x) in *. set (u := 2 ^ (e - 52)).
  pose proof (pow2_pos (e - 52)) as Hu. fold u in Hu.
  assert (H52 : 2 ^ e == inject_Z (2 ^ 52) * u).
  { unfold u. rewrite <- (pow2_Z 52), <- pow2_add by lia.
    now replace (52 + (e - 52))%Z with e by lia. }
  assert (H53 : 2 ^ (e + 1) == inject_Z (2 ^ 53) * u).
  { unfold u. rewrite <- (pow2_Z 53), <- pow2_add by lia.
    now replace (53 + (e - 52))%Z with (e + 1)%Z by lia. }
  assert (Hq : x / u * u == x) by (field; lra).
  assert (Hm1 : (2 ^ 52 <= rne (x / u))%Z).
  { rewrite <- (rne_Z (2 ^ 52)). apply rne_mono.
    apply (Qmult_le_r _ _ u Hu). rewrite Hq, <- H52. exact Hlo. }
  assert (Hm2 : (rne (x / u) <= 2 ^ 53)%Z).
  { rewrite <- (rne_Z (2 ^ 53)). apply rne_mono.
    apply (Qmult_le_r _ _ u Hu). rewrite Hq, <- H53. lra. }
  rewrite Zle_Qle in Hm1, Hm2.
  rewrite H52, H53. split; apply Qmult_le_compat_r; lra.
Qed.

Lemma RN_nonneg (x : Q) : 0 <= x -> 0 <= RN x.
Proof.
  intros Hx. destruct (Qeq_dec x 0) as [H0|H0].
  - rewrite (RN_0 x H0). lra.
  - assert (Hp : 0 < x) by lra.
    destruct (RN_binade x Hp). pose proof (pow2_pos (ilog2 x)). lra.
Qed.

Lemma RN_mono_pos (x y : Q) : 0 < x -> x <= y -> RN x <= RN y.
Proof.
  intros Hx Hxy. assert (Hy : 0 < y) by lra.
  pose proof (ilog2_mono x y Hx Hxy) as He.
  destruct (Z.eq_dec (ilog2 x) (ilog2 y)) as [Heq|Hne].
  - rewrite (RN_nonzero x), (RN_nonzero y) by lra.
    rewrite (ulp_of_pos x Hx), (ulp_of_pos y Hy), <- Heq.
    pose proof (pow2_pos (ilog2 x - 52)) as Hu.
    apply Qmult_le_compat_r; [|lra].
    rewrite <- Zle_Qle. apply rne_mono.
    apply Qmult_le_compat_r; [exact Hxy|].
    apply Qlt_le_weak, Qinv_lt_0_compat, Hu.
  - destruct (RN_binade x Hx) as [_ Hux]. destruct (RN_binade y Hy) as [Hly _].
    pose proof (pow2_le (ilog2 x + 1) (ilog2 y) ltac:(lia)). lra.
Qed.

(** Rounding is monotone. *)
Lemma RN_mono (x y : Q) : x <= y -> RN x <= RN y.
Proof.
  intros Hxy.
  destruct (Qlt_le_dec 0 x) as [Hx|Hx]; [now apply RN_mono_pos|].
  destruct (Qlt_le_dec y 0) as [Hy|Hy].
  - assert (H : RN (- y) <= RN (- x)) by (apply RN_mono_pos; lra).
    rewrite !RN_opp in H. lra.
  - pose proof (RN_nonneg y Hy) as Hny.
    pose proof (RN_nonneg (- x) ltac:(lra)) as Hnx.
    rewrite RN_opp in Hnx. lra.
Qed.

(** A number with a significand of at most 53 bits is its own rounding. *)
Lemma RN_exact_pos (m e : Z) :
  (0 < m < 2 ^ 53)%Z -> RN (inject_Z m * 2 ^ e) == inject_Z m * 2 ^ e.
Proof.
  intros [Hm0 Hm]. set (x := inject_Z m * 2 ^ e).
  pose proof (pow2_pos e) as Pe.
  assert (HmQ : 0 < inject_Z m)
    by (change 0 with (inject_Z 0); now rewrite <- Zlt_Qlt).
  assert (Hx : 0 < x) by (unfold x; apply Qmult_lt_0_compat; assumption).
  set (k := Z.log2 m).
  destruct (Z.log2_spec m Hm0) as [Hk1 Hk2]. fold k in Hk1, Hk2.
  assert (Hk0 : (0 <= k)%Z) by apply Z.log2_nonneg.
  assert (Hk : (k < 53)%Z) by (apply Z.log2_lt_pow2; lia).
  assert (Hil : ilog2 x = (k + e)%Z).
  { apply ilog2_unique; unfold x.
    - rewrite pow2_add, (pow2_Z k) by lia.
      apply Qmult_le_compat_r; [now rewrite <- Zle_Qle | lra].
    - replace (k + e + 1)%Z with (Z.succ k + e)%Z by lia.
      rewrite pow2_add, (pow2_Z (Z.succ k)) by lia.
      apply Qmult_lt_compat_r; [exact Pe | now rewrite <- Zlt_Qlt]. }
  rewrite RN_nonzero by lra. rewrite (ulp_of_pos x Hx), Hil.
  pose proof (pow2_pos (k + e - 52)) as Hu.
  assert (Hsplit : 2 ^ e == inject_Z (2 ^ (52 - k)) * 2 ^ (k + e - 52)).
  { rewrite <- (pow2_Z (52 - k)), <- pow2_add by lia.
    now replace (52 - k + (k + e - 52))%Z with e by lia. }
  rewrite (rne_comp _ (inject_Z (m * 2 ^ (52 - k)))).
  - rewrite rne_Z, inject_Z_mult. unfold x. rewrite Hsplit. ring.
  - unfold x. rewrite Hsplit, inject_Z_mult. field. lra.
Qed.

Lemma RN_exact (m e : Z) :
  (Z.abs m < 2 ^ 53)%Z -> RN (inject_Z m * 2 ^ e) == inject_Z m * 2 ^ e.
Proof.
  intros Hm. destruct (Z.lt_trichotomy m 0) as [H|[H|H]].
  - assert (Hp := RN_exact_pos (- m) e ltac:(lia)).
    rewrite inject_Z_opp in Hp.
    rewrite (RN_comp (- inject_Z m * 2 ^ e) (- (inject_Z m * 2 ^ e))) in Hp by ring.
    rewrite RN_opp in Hp. lra.
  - subst m. rewrite RN_0; [|ring]. ring.
  - apply RN_exact_pos. lia.
Qed.

(** Integers below 2^53 are binary64 numbers. *)
Lemma RN_Z (z : Z) : (Z.abs z < 2 ^ 53)%Z -> RN (inject_Z z) == inject_Z z.
Proof.
  intros H. rewrite (RN_comp (inject_Z z) (inject_Z z * 2 ^ 0)) by (cbn; ring).
  rewrite RN_exact by exact H. cbn. ring.
Qed.

(** So are the multiples of 2^-k with a numerator below 2^53. *)
Lemma RN_dyadic (a k : Z) :
  (Z.abs a < 2 ^ 53)%Z -> (0 <= k)%Z ->
  RN (inject_Z a / inject_Z (2 ^ k)) == inject_Z a / inject_Z (2 ^ k).
Proof.
  intros Ha Hk.
  assert (H : inject_Z a / inject_Z (2 ^ k) == inject_Z a * 2 ^ (- k)).
  { rewrite Qpower_opp, <- (pow2_Z k) by lia. reflexivity. }
  rewrite (RN_comp _ _ H), H. now apply RN_exact.
Qed.

End RoundingFacts.

(* ================================================================== *)
(** * The whole seconds of a float timestamp *)

Module TimestampFacts.
Import Float RoundFacts RoundingFacts.
Local Open Scope Q_scope.

Lemma microseconds_comp (g g' : Q) : g == g' -> microseconds g = microseconds g'.
Proof.
  intros H. unfold microseconds, mul. apply rne_comp, RN_comp.
  now rewrite H.
Qed.

Lemma microseconds_mono (g g' : Q) : g <= g' -> (microseconds g <= microseconds g')%Z.
Proof.
  intros H. unfold microseconds, mul. apply rne_mono, RN_mono.
  apply Qmult_le_compat_r; [exact H | discriminate].
Qed.

Lemma microseconds_zero (g : Q) : g == 0 -> microseconds g = 0%Z.
Proof. intros H. now rewrite (microseconds_comp g 0 H). Qed.

(** Floor and ceiling of a rational are equal or one apart. *)
Lemma ceiling_floor (t : Q) :
  (Qceiling t = Qfloor t /\ t == inject_Z (Qfloor t)) \/
  (Qceiling t = (Qfloor t + 1)%Z /\ inject_Z (Qfloor t) < t).
Proof.
  pose proof (Qfloor_le t) as H1. pose proof (Qlt_floor t) as H2.
  pose proof (Qle_ceiling t) as H3. pose proof (Qceiling_lt t) as H4.
  rewrite inject_Z_plus in H2. unfold Z.sub in H4. rewrite inject_Z_plus in H4.
  change (inject_Z 1) with 1 in H2. change (inject_Z (Z.opp 1)) with (Qopp 1) in H4.
  assert (Hlo : (Qfloor t <= Qceiling t)%Z) by (rewrite Zle_Qle; lra).
  assert (Hhi : (Qceiling t < Qfloor t + 2)%Z)
    by (apply Zlt_of_Q; change (inject_Z 2) with 2; lra).
  destruct (Z.eq_dec (Qceiling t) (Qfloor t)) as [E|E].
  - left. split; [exact E|]. rewrite E in H3. lra.
  - right. assert (E' : Qceiling t = (Qfloor t + 1)%Z) by lia.
    split; [exact E'|].
    destruct (Qeq_dec t (inject_Z (Qfloor t))) as [Ht|Ht]; [|lra].
    exfalso. apply E. rewrite (Qceiling_comp _ _ Ht). apply Qceiling_Z.
Qed.

(** Timestamps from zero on: the fraction above the floor may carry. *)
Lemma timestamp_seconds_nonneg (t : Q) :
  0 <= t ->
  timestamp_seconds t =
  if (1000000 <=? microseconds (t - inject_Z (Qfloor t)))%Z
  then (Qfloor t + 1)%Z else Qfloor t.
Proof.
  intros Ht. unfold timestamp_seconds, timestamp_parts, modf, trunc.
  apply Qle_bool_iff in Ht as Hb. rewrite Hb.
  rewrite (microseconds_comp _ _ (Qred_correct _)).
  apply Qle_bool_iff in Hb.
  set (us := microseconds (t - inject_Z (Qfloor t))).
  assert (Hus : (0 <= us)%Z).
  { rewrite <- (microseconds_zero 0) by reflexivity.
    apply microseconds_mono. pose proof (Qfloor_le t). lra. }
  destruct (1000000 <=? us)%Z; [reflexivity|].
  destruct (us <? 0)%Z eqn:E; [apply Z.ltb_lt in E; lia | reflexivity].
Qed.

(** Negative timestamps: the fraction below the ceiling may borrow. *)
Lemma timestamp_seconds_neg (t : Q) :
  t < 0 ->
  timestamp_seconds t =
  if (microseconds (t - inject_Z (Qceiling t)) <? 0)%Z
  then (Qceiling t - 1)%Z else Qceiling t.
Proof.
  intros Ht. unfold timestamp_seconds, timestamp_parts, modf, trunc.
  destruct (Qle_bool 0 t) eqn:Hb; [apply Qle_bool_iff in Hb; lra|].
  rewrite (microseconds_comp _ _ (Qred_correct _)).
  set (us := microseconds (t - inject_Z (Qceiling t))).
  assert (Hus : (us <= 0)%Z).
  { rewrite <- (microseconds_zero 0) by reflexivity.
    apply microseconds_mono. pose proof (Qle_ceiling t). lra. }
  destruct (1000000 <=? us)%Z eqn:E; [apply Z.leb_le in E; lia|].
  destruct (us <? 0)%Z; reflexivity.
Qed.

(** The seconds are the floor of the timestamp or one more. *)
Lemma timestamp_seconds_bounds (t : Q) :
  (Qfloor t <= timestamp_seconds t <= Qfloor t + 1)%Z.
Proof.
  destruct (Qlt_le_dec t 0) as [Ht|Ht].
  - rewrite (timestamp_seconds_neg t Ht).
    destruct (ceiling_floor t) as [[Ec Heq]|[Ec Hlt]]; rewrite Ec.
    + rewrite microseconds_zero by lra. cbn. lia.
    + destruct (_ <? 0)%Z; lia.
  - rewrite (timestamp_seconds_nonneg t Ht).
    destruct (1000000 <=? _)%Z; lia.
Qed.

Lemma timestamp_seconds_Z (z : Z) : timestamp_seconds (inject_Z z) = z.
Proof.
  assert (Hf : Qfloor (inject_Z z) = z) by apply Qfloor_Z.
  assert (Hc : Qceiling (inject_Z z) = z) by apply Qceiling_Z.
  destruct (Qlt_le_dec (inject_Z z) 0) as [Ht|Ht].
  - rewrite (timestamp_seconds_neg _ Ht), Hc.
    now rewrite microseconds_zero by lra.
  - rewrite (timestamp_seconds_nonneg _ Ht), Hf.
    now rewrite microseconds_zero by lra.
Qed.

(** The seconds grow with the timestamp. *)
Lemma timestamp_seconds_mono (t1 t2 : Q) :
  t1 <= t2 -> (timestamp_seconds t1 <= timestamp_seconds t2)%Z.
Proof.
  intros H12.
  pose proof (Qfloor_resp_le _ _ H12) as Hf.
  pose proof (timestamp_seconds_bounds t1) as B1.
  pose proof (timestamp_seconds_bounds t2) as B2.
  destruct (Z.eq_dec (Qfloor t1) (Qfloor t2)) as [Ef|Nf]; [|lia].
  destruct (Qlt_le_dec t1 0) as [Hn1|Hp1].
  - assert (Hn2 : t2 < 0).
    { pose proof (Qlt_floor t2) as H2. rewrite <- Ef, inject_Z_plus in H2.
      change (inject_Z 1) with 1 in H2.
      assert (Hneg : (Qfloor t1 + 1 <= 0)%Z).
      { assert (Hq : (Qfloor t1 < 0)%Z); [ | lia].
        rewrite Zlt_Qlt. pose proof (Qfloor_le t1). change (inject_Z 0) with 0. lra. }
      rewrite Zle_Qle, inject_Z_plus in Hneg.
      change (inject_Z 1) with 1 in Hneg. change (inject_Z 0) with 0 in Hneg. lra. }
    pose proof (Qceiling_resp_le _ _ H12) as Hc.
    rewrite (timestamp_seconds_neg t1 Hn1), (timestamp_seconds_neg t2 Hn2) in *.
    destruct (microseconds (t1 - inject_Z (Qceiling t1)) <? 0)%Z eqn:E1;
      destruct (microseconds (t2 - inject_Z (Qceiling t2)) <? 0)%Z eqn:E2; try lia.
    destruct (Z.eq_dec (Qceiling t1) (Qceiling t2)) as [Ec|Nc]; [exfalso|lia].
    rewrite Ec in E1.
    pose proof (microseconds_mono (t1 - inject_Z (Qceiling t2))
                  (t2 - inject_Z (Qceiling t2)) ltac:(lra)) as Hus.
    apply Z.ltb_lt in E2. apply Z.ltb_ge in E1. lia.
  - assert (Hp2 : 0 <= t2) by lra.
    rewrite (timestamp_seconds_nonneg t1 Hp1), (timestamp_seconds_nonneg t2 Hp2), <- Ef.
    pose proof (microseconds_mono (t1 - inject_Z (Qfloor t1))
                  (t2 - inject_Z (Qfloor t1)) ltac:(lra)) as Hus.
    destruct (1000000 <=? microseconds (t1 - _))%Z eqn:E1;
      destruct (1000000 <=? microseconds (t2 - _))%Z eqn:E2; lia.
Qed.


Lemma timestamp_seconds_comp (t t' : Q) :
  t == t' -> timestamp_seconds t = timestamp_seconds t'.
Proof.
  intros H. apply Z.le_antisymm; apply timestamp_seconds_mono; lra.
Qed.

Lemma Qfloor_unique (t : Q) (z : Z) :
  inject_Z z <= t -> t < inject_Z z + 1 -> Qfloor t = z.
Proof.
  intros Hlo Hhi.
  pose proof (Qfloor_le t) as H1. pose proof (Qlt_floor t) as H2.
  rewrite inject_Z_plus in H2. change (inject_Z 1) with 1 in H2.
  assert (Ha : (z < Qfloor t + 1)%Z)
    by (apply Zlt_of_Q; change (inject_Z 1) with 1; lra).
  assert (Hb : (Qfloor t < z + 1)%Z)
    by (apply Zlt_of_Q; change (inject_Z 1) with 1; lra).
  lia.
Qed.

Lemma Qceiling_unique (t : Q) (z : Z) :
  inject_Z z - 1 < t -> t <= inject_Z z -> Qceiling t = z.
Proof.
  intros Hlo Hhi. unfold Qceiling.
  rewrite (Qfloor_unique (- t) (- z)); [lia | |]; rewrite inject_Z_opp; lra.
Qed.

(** Up to 999999.25 microseconds nothing is carried into the seconds. *)
Lemma microseconds_below_carry (g : Q) :
  g * inject_Z 1000000 <= 3999997 # 4 -> (microseconds g <= 999999)%Z.
Proof.
  intros H. unfold microseconds, mul.
  replace 999999%Z with (rne (3999997 # 4)) by reflexivity.
  apply rne_mono.
  assert (Hd : RN (3999997 # 4) == 3999997 # 4).
  { pose proof (RN_dyadic 3999997 2 ltac:(cbn; lia) ltac:(lia)) as Hr.
    rewrite <- (Qmake_Qdiv 3999997 4) in Hr. exact Hr. }
  rewrite <- Hd. now apply RN_mono.
Qed.

(** From three quarters of a microsecond below zero a second is borrowed. *)
Lemma microseconds_borrow (g : Q) :
  g * inject_Z 1000000 <= - (3 # 4) -> (microseconds g <= -1)%Z.
Proof.
  intros H. unfold microseconds, mul.
  replace (-1)%Z with (rne (- (3 # 4))) by reflexivity.
  apply rne_mono.
  assert (Hd : RN (- (3 # 4)) == - (3 # 4)).
  { pose proof (RN_dyadic (-3) 2 ltac:(cbn; lia) ltac:(lia)) as Hr.
    rewrite <- (Qmake_Qdiv (-3) 4) in Hr. exact Hr. }
  rewrite <- Hd. now apply RN_mono.
Qed.

(** A timestamp at least 2^-k below the next whole second, [k <= 20]. *)
Lemma timestamp_seconds_below (q k : Z) :
  (1 <= k <= 20)%Z ->
  timestamp_seconds (inject_Z q + 1 - 1 / inject_Z (2 ^ k)) = q.
Proof.
  intros Hk.
  assert (HP : (2 <= 2 ^ k <= 1048576)%Z).
  { split.
    - change 2%Z with (2 ^ 1)%Z at 1. apply Z.pow_le_mono_r; lia.
    - change 1048576%Z with (2 ^ 20)%Z. apply Z.pow_le_mono_r; lia. }
  destruct HP as [HP1 HP2]. rewrite Zle_Qle in HP1, HP2.
  set (P := inject_Z (2 ^ k)) in *.
  change (inject_Z 2) with 2 in HP1. change (inject_Z 1048576) with 1048576 in HP2.
  assert (Hy1 : 1 # 1048576 <= 1 / P) by (apply Qle_shift_div_l; lra).
  assert (Hy2 : 1 / P <= 1 # 2) by (apply Qle_shift_div_r; lra).
  set (y := 1 / P) in *. set (d := inject_Z q + 1 - y).
  destruct (Qlt_le_dec d 0) as [Hd|Hd].
  - rewrite (timestamp_seconds_neg d Hd).
    rewrite (Qceiling_unique d (q + 1)%Z)
      by (rewrite inject_Z_plus; change (inject_Z 1) with 1; unfold d; lra).
    assert (Hus : (microseconds (d - inject_Z (q + 1)) <= -1)%Z).
    { apply microseconds_borrow. rewrite inject_Z_plus.
      change (inject_Z 1) with 1. change (inject_Z 1000000) with 1000000.
      unfold d. lra. }
    destruct (_ <? 0)%Z eqn:E; [lia | apply Z.ltb_ge in E; lia].
  - rewrite (timestamp_seconds_nonneg d Hd).
    rewrite (Qfloor_unique d q) by (unfold d; lra).
    assert (Hus : (microseconds (d - inject_Z q) <= 999999)%Z).
    { apply microseconds_below_carry.
      change (inject_Z 1000000) with 1000000. unfold d. lra. }
    destruct (1000000 <=? _)%Z eqn:E; [apply Z.leb_le in E; lia | reflexivity].
Qed.

(** ** The quotient [n / 10^7] as a float, and its whole seconds *)

Lemma quotient_bounds (n : Z) :
  inject_Z (n / 10000000) <= inject_Z n / inject_Z 10000000 /\
  inject_Z n / inject_Z 10000000 < inject_Z (n / 10000000) + 1.
Proof.
  pose proof (Z.div_mod n 10000000 ltac:(lia)) as Hdm.
  pose proof (Z.mod_pos_bound n 10000000 ltac:(lia)) as [Hr0 Hr1].
  set (q := (n / 10000000)%Z) in *. set (r := (n mod 10000000)%Z) in *.
  assert (Hn : inject_Z n == 10000000 * inject_Z q + inject_Z r).
  { rewrite Hdm, inject_Z_plus, inject_Z_mult. reflexivity. }
  rewrite Zle_Qle in Hr0. rewrite Zlt_Qlt in Hr1.
  change (inject_Z 0) with 0 in Hr0. change (inject_Z 10000000) with 10000000 in *.
  split.
  - apply Qle_shift_div_l; lra.
  - apply Qlt_shift_div_r; lra.
Qed.

(** The seconds are the floor of the quotient or one more. *)
Lemma quotient_seconds_range (n : Z) :
  (Z.abs (n / 10000000) + 1 < 2 ^ 53)%Z ->
  (n / 10000000 <= timestamp_seconds (true_divide n 10000000)
   <= n / 10000000 + 1)%Z.
Proof.
  intros Hq. destruct (quotient_bounds n) as [Hlo Hhi].
  set (q := (n / 10000000)%Z) in *. unfold true_divide.
  split.
  - rewrite <- (timestamp_seconds_Z q) at 1. apply timestamp_seconds_mono.
    rewrite <- (RN_Z q) by lia. now apply RN_mono.
  - rewrite <- (timestamp_seconds_Z (q + 1)). apply timestamp_seconds_mono.
    rewrite <- (RN_Z (q + 1)) by lia. apply RN_mono.
    rewrite inject_Z_plus. change (inject_Z 1) with 1. lra.
Qed.

(** They are the floor when the remainder stays 2^-k seconds below the next
    second and the quotient leaves [k] bits of binary64 for the fraction. *)
Lemma quotient_seconds_floor (n k : Z) :
  (1 <= k <= 20)%Z ->
  ((Z.abs (n / 10000000) + 1) * 2 ^ k < 2 ^ 53)%Z ->
  ((n mod 10000000) * 2 ^ k <= 10000000 * (2 ^ k - 1))%Z ->
  timestamp_seconds (true_divide n 10000000) = (n / 10000000)%Z.
Proof.
  intros Hk Hq Hr.
  assert (HP : (1 <= 2 ^ k)%Z) by (apply Z.pow_le_mono_r with (b := 0%Z) (a := 2%Z); lia).
  assert (Hq' : (Z.abs (n / 10000000) + 1 < 2 ^ 53)%Z) by nia.
  pose proof (quotient_seconds_range n Hq') as [Hlo _].
  apply Z.le_antisymm; [|exact Hlo].
  pose proof (Z.div_mod n 10000000 ltac:(lia)) as Hdm.
  pose proof (Z.mod_pos_bound n 10000000 ltac:(lia)) as [Hr0 Hr1].
  set (q := (n / 10000000)%Z) in *. set (r := (n mod 10000000)%Z) in *.
  rewrite <- (timestamp_seconds_below q k Hk) at 1.
  apply timestamp_seconds_mono. unfold true_divide.
  set (a := ((q + 1) * 2 ^ k - 1)%Z).
  assert (Hd : inject_Z q + 1 - 1 / inject_Z (2 ^ k) == inject_Z a / inject_Z (2 ^ k)).
  { unfold a, Z.sub. rewrite !inject_Z_plus, inject_Z_mult, inject_Z_plus.
    change (inject_Z 1) with 1. change (inject_Z (Z.opp 1)) with (Qopp 1).
    field. change 0 with (inject_Z 0). rewrite inject_Z_injective. lia. }
  rewrite Hd, <- (RN_dyadic a k) by (unfold a; lia).
  apply RN_mono. rewrite <- Hd.
  assert (Hn : inject_Z n == 10000000 * inject_Z q + inject_Z r).
  { rewrite Hdm, inject_Z_plus, inject_Z_mult. reflexivity. }
  rewrite Zle_Qle in Hr, HP. rewrite !inject_Z_mult in Hr. unfold Z.sub in Hr.
  rewrite inject_Z_plus in Hr.
  change (inject_Z (Z.opp 1)) with (Qopp 1) in Hr.
  change (inject_Z 10000000) with 10000000 in *. change (inject_Z 1) with 1 in HP.
  set (P := inject_Z (2 ^ k)) in *.
  apply Qle_shift_div_r; [reflexivity|].
  assert (Hy : (1 / P) * P == 1) by (field; lra).
  set (y := 1 / P) in *.
  assert (Hry : inject_Z r <= 10000000 * (1 - y)).
  { apply (Qmult_le_r _ _ P); [lra|].
    setoid_replace (10000000 * (1 - y) * P) with (10000000 * (P - y * P)) by ring.
    rewrite Hy. lra. }
  lra.
Qed.

(** From 999999.5 microseconds on a second is carried. *)
Lemma microseconds_carry (g : Q) :
  1999999 # 2 <= g * inject_Z 1000000 -> (1000000 <= microseconds g)%Z.
Proof.
  intros H. unfold microseconds, mul.
  replace 1000000%Z with (rne (1999999 # 2)) by reflexivity.
  apply rne_mono.
  assert (Hd : RN (1999999 # 2) == 1999999 # 2).
  { pose proof (RN_dyadic 1999999 1 ltac:(cbn; lia) ltac:(lia)) as Hr.
    rewrite <- (Qmake_Qdiv 1999999 2) in Hr. exact Hr. }
  apply Qle_trans with (RN (1999999 # 2)); [|now apply RN_mono].
  apply Qle_lteq. right. symmetry. exact Hd.
Qed.

(** Down to half a microsecond below zero no second is borrowed. *)
Lemma microseconds_no_borrow (g : Q) :
  - (1 # 2) <= g * inject_Z 1000000 -> (0 <= microseconds g)%Z.
Proof.
  intros H. unfold microseconds, mul.
  replace 0%Z with (rne (- (1 # 2))) by reflexivity.
  apply rne_mono.
  assert (Hd : RN (- (1 # 2)) == - (1 # 2)).
  { pose proof (RN_dyadic (-1) 1 ltac:(cbn; lia) ltac:(lia)) as Hr.
    rewrite <- (Qmake_Qdiv (-1) 2) in Hr. exact Hr. }
  apply Qle_trans with (RN (- (1 # 2))); [|now apply RN_mono].
  apply Qle_lteq. right. symmetry. exact Hd.
Qed.

(** A timestamp at most 2^-k below the next whole second, [21 <= k], is
    rounded up to it. *)
Lemma timestamp_seconds_above (q k : Z) :
  (21 <= k)%Z ->
  timestamp_seconds (inject_Z q + 1 - 1 / inject_Z (2 ^ k)) = (q + 1)%Z.
Proof.
  intros Hk.
  assert (HP : (2097152 <= 2 ^ k)%Z).
  { change 2097152%Z with (2 ^ 21)%Z. apply Z.pow_le_mono_r; lia. }
  rewrite Zle_Qle in HP.
  set (P := inject_Z (2 ^ k)) in *.
  change (inject_Z 2097152) with 2097152 in HP.
  assert (Hy1 : 0 < 1 / P) by (apply Qlt_shift_div_l; lra).
  assert (Hy2 : 1 / P <= 1 # 2097152) by (apply Qle_shift_div_r; lra).
  set (y := 1 / P) in *. set (d := inject_Z q + 1 - y).
  destruct (Qlt_le_dec d 0) as [Hd|Hd].
  - rewrite (timestamp_seconds_neg d Hd).
    rewrite (Qceiling_unique d (q + 1)%Z)
      by (rewrite inject_Z_plus; change (inject_Z 1) with 1; unfold d; lra).
    assert (Hus : (0 <= microseconds (d - inject_Z (q + 1)))%Z).
    { apply microseconds_no_borrow. rewrite inject_Z_plus.
      change (inject_Z 1) with 1. change (inject_Z 1000000) with 1000000.
      unfold d. lra. }
    destruct (_ <? 0)%Z eqn:E; [apply Z.ltb_lt in E; lia | reflexivity].
  - rewrite (timestamp_seconds_nonneg d Hd).
    rewrite (Qfloor_unique d q) by (unfold d; lra).
    assert (Hus : (1000000 <= microseconds (d - inject_Z q))%Z).
    { apply microseconds_carry.
      change (inject_Z 1000000) with 1000000. unfold d. lra. }
    destruct (1000000 <=? _)%Z eqn:E; [reflexivity | apply Z.leb_gt in E; lia].
Qed.

(** They are the floor plus one when the remainder is within 2^-k seconds
    of the next second, [21 <= k], and the quotient leaves [k] bits of
    binary64 for the fraction. *)
Lemma quotient_seconds_ceil (n k : Z) :
  (21 <= k)%Z ->
  ((Z.abs (n / 10000000) + 1) * 2 ^ k < 2 ^ 53)%Z ->
  (10000000 * (2 ^ k - 1) <= (n mod 10000000) * 2 ^ k)%Z ->
  timestamp_seconds (true_divide n 10000000) = (n / 10000000 + 1)%Z.
Proof.
  intros Hk Hq Hr.
  assert (HP : (1 <= 2 ^ k)%Z) by (apply Z.pow_le_mono_r with (b := 0%Z) (a := 2%Z); lia).
  assert (Hq' : (Z.abs (n / 10000000) + 1 < 2 ^ 53)%Z) by nia.
  pose proof (quotient_seconds_range n Hq') as [_ Hhi].
  apply Z.le_antisymm; [exact Hhi|].
  pose proof (Z.div_mod n 10000000 ltac:(lia)) as Hdm.
  pose proof (Z.mod_pos_bound n 10000000 ltac:(lia)) as [Hr0 Hr1].
  set (q := (n / 10000000)%Z) in *. set (r := (n mod 10000000)%Z) in *.
  rewrite <- (timestamp_seconds_above q k Hk) at 1.
  apply timestamp_seconds_mono. unfold true_divide.
  set (a := ((q + 1) * 2 ^ k - 1)%Z).
  assert (Hd : inject_Z q + 1 - 1 / inject_Z (2 ^ k) == inject_Z a / inject_Z (2 ^ k)).
  { unfold a, Z.sub. rewrite !inject_Z_plus, inject_Z_mult, inject_Z_plus.
    change (inject_Z 1) with 1. change (inject_Z (Z.opp 1)) with (Qopp 1).
    field. change 0 with (inject_Z 0). rewrite inject_Z_injective. lia. }
  rewrite Hd, <- (RN_dyadic a k) by (unfold a; lia).
  apply RN_mono. rewrite <- Hd.
  assert (Hn : inject_Z n == 10000000 * inject_Z q + inject_Z r).
  { rewrite Hdm, inject_Z_plus, inject_Z_mult. reflexivity. }
  rewrite Zle_Qle in Hr, HP. rewrite !inject_Z_mult in Hr. unfold Z.sub in Hr.
  rewrite inject_Z_plus in Hr.
  change (inject_Z (Z.opp 1)) with (Qopp 1) in Hr.
  change (inject_Z 10000000) with 10000000 in *. change (inject_Z 1) with 1 in HP.
  set (P := inject_Z (2 ^ k)) in *.
  apply Qle_shift_div_l; [reflexivity|].
  assert (Hy : (1 / P) * P == 1) by (field; lra).
  set (y := 1 / P) in *.
  assert (Hry : 10000000 * (1 - y) <= inject_Z r).
  { apply (Qmult_le_r _ _ P); [lra|].
    setoid_replace (10000000 * (1 - y) * P) with (10000000 * (P - y * P)) by ring.
    rewrite Hy. lra. }
  lra.
Qed.

Lemma quotient_seconds_mono (n1 n2 : Z) :
  (n1 <= n2)%Z ->
  (timestamp_seconds (true_divide n1 10000000)
   <= timestamp_seconds (true_divide n2 10000000))%Z.
Proof.
  intros H. apply timestamp_seconds_mono, RN_mono.
  apply Qmult_le_compat_r; [now rewrite <- Zle_Qle | discriminate].
Qed.

End TimestampFacts.

(* ================================================================== *)
(** * The proleptic Gregorian calendar *)

Module CalendarFacts.

Ltac leap_cases :=
  unfold is_leap, bool_int;
  repeat match goal with
         | |- context [?a =? ?b] => destruct (Z.eqb_spec a b)
         end;
  cbn [andb orb negb].

Lemma days_before_year_succ (y : Z) :
  days_before_year (y + 1) = days_before_year y + days_in_year y.
Proof.
  unfold days_before_year, days_in_year. leap_cases;
    Z.div_mod_to_equations; lia.
Qed.

Lemma days_before_year_mono (y1 y2 : Z) :
  y1 <= y2 -> days_before_year y1 <= days_before_year y2.
Proof.
  intros H. unfold days_before_year. Z.div_mod_to_equations. lia.
Qed.

Lemma days_in_year_pos (y : Z) : 365 <= days_in_year y <= 366.
Proof. unfold days_in_year, bool_int. destruct (is_leap y); lia. Qed.

(** The year of an ordinal, with the 0-based day in that year. *)
Lemma ord2ymd_spec (ordinal : Z) :
  exists doy,
    let '(y, m, d) := ord2ymd ordinal in
    ordinal - 1 = days_before_year y + doy /\
    0 <= doy < days_in_year y /\
    (m, d) = month_day (is_leap y) doy.
Proof.
  unfold ord2ymd, DI400Y, DI100Y, DI4Y.
  set (n0 := ordinal - 1).
  set (n400 := n0 / 146097). set (r400 := n0 mod 146097).
  set (n100 := r400 / 36524). set (r100 := r400 mod 36524).
  set (n4 := r100 / 1461). set (r4 := r100 mod 1461).
  set (n1 := r4 / 365). set (r1 := r4 mod 365).
  assert (H400 : n0 = 146097 * n400 + r400 /\ 0 <= r400 < 146097)
    by (split; [apply Z.div_mod | apply Z.mod_pos_bound]; lia).
  assert (H100 : r400 = 36524 * n100 + r100 /\ 0 <= r100 < 36524)
    by (split; [apply Z.div_mod | apply Z.mod_pos_bound]; lia).
  assert (H4 : r100 = 1461 * n4 + r4 /\ 0 <= r4 < 1461)
    by (split; [apply Z.div_mod | apply Z.mod_pos_bound]; lia).
  assert (H1 : r4 = 365 * n1 + r1 /\ 0 <= r1 < 365)
    by (split; [apply Z.div_mod | apply Z.mod_pos_bound]; lia).
  clearbody n400 r400 n100 r100 n4 r4 n1 r1.
  destruct H400 as [E400 B400]. destruct H100 as [E100 B100].
  destruct H4 as [E4 B4]. destruct H1 as [E1 B1].
  assert (Bn100 : 0 <= n100 <= 4) by lia.
  assert (Bn4 : 0 <= n4 <= 24) by lia.
  assert (Bn1 : 0 <= n1 <= 4) by lia.
  destruct ((n1 =? 4) || (n100 =? 4)) eqn:Hspecial.
  - (* the last day of a leap year *)
    exists 365.
    assert (Hy : is_leap (n400 * 400 + 1 + n100 * 100 + n4 * 4 + n1 - 1) = true).
    { apply orb_true_iff in Hspecial.
      rewrite !Z.eqb_eq in Hspecial.
      leap_cases; try reflexivity; exfalso; Z.div_mod_to_equations; lia. }
    unfold days_in_year. rewrite Hy.
    split; [|split; [cbn; lia | reflexivity]].
    apply orb_true_iff in Hspecial. rewrite !Z.eqb_eq in Hspecial.
    unfold days_before_year. Z.div_mod_to_equations. lia.
  - apply orb_false_iff in Hspecial. rewrite !Z.eqb_neq in Hspecial.
    destruct Hspecial as [Hn1 Hn100].
    exists r1.
    assert (Hy : is_leap (n400 * 400 + 1 + n100 * 100 + n4 * 4 + n1)
                 = (n1 =? 3) && (negb (n4 =? 24) || (n100 =? 3))).
    { leap_cases; try reflexivity; exfalso; Z.div_mod_to_equations; lia. }
    rewrite <- Hy.
    destruct (month_day _ r1) as [m d] eqn:Emd.
    split; [|split; [|now rewrite Emd]].
    + unfold days_before_year. Z.div_mod_to_equations. lia.
    + pose proof (days_in_year_pos (n400 * 400 + 1 + n100 * 100 + n4 * 4 + n1)). lia.
Qed.


Lemma month_day_table :
  forallb (month_day_ok false) (seq 0 365) && forallb (month_day_ok true) (seq 0 366)
  = true.
Proof. vm_compute. reflexivity. Qed.

Lemma month_day_ok_all (leapyear : bool) (k : nat) :
  (k < 365 + (if leapyear then 1 else 0))%nat -> month_day_ok leapyear k = true.
Proof.
  intros Hk. pose proof month_day_table as T.
  apply andb_true_iff in T as [Tf Tt].
  destruct leapyear.
  - rewrite forallb_forall in Tt. apply Tt, in_seq. lia.
  - rewrite forallb_forall in Tf. apply Tf, in_seq. lia.
Qed.

Lemma month_day_valid (leapyear : bool) (doy : Z) :
  0 <= doy < 365 + bool_int leapyear ->
  1 <= fst (month_day leapyear doy) <= 12 /\
  1 <= snd (month_day leapyear doy) <= 31 /\
  month_day_key leapyear doy < month_day_key leapyear (doy + 1).
Proof.
  intros Hd.
  pose proof (month_day_ok_all leapyear (Z.to_nat doy)) as Hok.
  unfold month_day_ok in Hok.
  replace (Z.of_nat (S (Z.to_nat doy))) with (doy + 1) in Hok by lia.
  rewrite Z2Nat.id in Hok by lia.
  destruct (month_day leapyear doy) as [m d]. cbn [fst snd].
  assert (Hn : (Z.to_nat doy < 365 + (if leapyear then 1 else 0))%nat)
    by (destruct leapyear; cbn [bool_int] in Hd; lia).
  specialize (Hok Hn).
  rewrite !andb_true_iff in Hok. lia.
Qed.

(** Later days of a year have a later month and day. *)
Lemma month_day_key_lt (leapyear : bool) (a b : Z) :
  0 <= a -> a < b -> b < 365 + bool_int leapyear ->
  month_day_key leapyear a < month_day_key leapyear b.
Proof.
  intros Ha Hab Hb.
  replace b with (a + 1 + Z.of_nat (Z.to_nat (b - a - 1))) in * by lia.
  induction (Z.to_nat (b - a - 1)) as [|k IH].
  - rewrite Z.add_0_r. apply month_day_valid. cbn [Z.of_nat] in Hb. lia.
  - rewrite Nat2Z.inj_succ in *.
    eapply Z.lt_trans; [apply IH; lia|].
    replace (a + 1 + Z.succ (Z.of_nat k)) with (a + 1 + Z.of_nat k + 1) by lia.
    apply month_day_valid. lia.
Qed.

(** The calendar fields of a successful conversion from 1601 on. *)
Lemma datetime_of_seconds_fields (t us : Z) (dt : datetime) :
  -11644473600 <= t -> datetime_of_seconds t us = Ok dt ->
  four_digit_datetime dt.
Proof.
  intros Ht. unfold datetime_of_seconds, four_digit_datetime, MINYEAR, MAXYEAR, EPOCH_ORDINAL.
  destruct (ord2ymd_spec (t / 86400 + 719163)) as [doy Hspec].
  destruct (ord2ymd _) as [[y m] d].
  destruct Hspec as (Hord & Hdoy & Hmd).
  destruct ((1 <=? y) && (y <=? 9999)) eqn:Hrange; [|discriminate].
  intros Hdt. injection Hdt as <-. cbn [year month day hour minute second].
  apply andb_true_iff in Hrange. rewrite !Z.leb_le in Hrange.
  pose proof (month_day_valid (is_leap y) doy Hdoy) as (Hm & Hd & _).
  rewrite <- Hmd in Hm, Hd. cbn [fst snd] in Hm, Hd.
  assert (Hy : 1601 <= y).
  { destruct (Z.le_gt_cases 1601 y) as [H|H]; [exact H|exfalso].
    pose proof (days_before_year_mono (y + 1) 1601 ltac:(lia)) as Hmono.
    rewrite days_before_year_succ in Hmono.
    change (days_before_year 1601) with 584388 in Hmono.
    assert (-134774 <= t / 86400) by (apply Z.div_le_lower_bound; lia).
    lia. }
  pose proof (Z.mod_pos_bound t 86400 ltac:(lia)) as Hrem.
  set (rem := t mod 86400) in *.
  clearbody rem.
  repeat split; try lia; clear - Hrem; Z.div_mod_to_equations; lia.
Qed.

(** Later seconds give a later (or the same) calendar date and time. *)
Lemma datetime_of_seconds_mono (t1 t2 us1 us2 : Z) (dt1 dt2 : datetime) :
  t1 <= t2 ->
  datetime_of_seconds t1 us1 = Ok dt1 -> datetime_of_seconds t2 us2 = Ok dt2 ->
  datetime_compare dt1 dt2 <> Gt.
Proof.
  intros Ht. unfold datetime_of_seconds, EPOCH_ORDINAL.
  destruct (ord2ymd_spec (t1 / 86400 + 719163)) as [doy1 Hs1].
  destruct (ord2ymd_spec (t2 / 86400 + 719163)) as [doy2 Hs2].
  destruct (ord2ymd (t1 / 86400 + 719163)) as [[y1 m1] d1].
  destruct (ord2ymd (t2 / 86400 + 719163)) as [[y2 m2] d2].
  destruct Hs1 as (Ho1 & Hd1 & Hmd1). destruct Hs2 as (Ho2 & Hd2 & Hmd2).
  destruct (_ && _); [|discriminate]. destruct (_ && _); [|discriminate].
  intros H1 H2. injection H1 as <-. injection H2 as <-.
  unfold datetime_compare. cbn [year month day hour minute second].
  assert (Hdays : t1 / 86400 <= t2 / 86400) by (apply Z.div_le_mono; lia).
  assert (Hy : y1 <= y2).
  { destruct (Z.le_gt_cases y1 y2) as [H|H]; [exact H|exfalso].
    pose proof (days_before_year_mono (y2 + 1) y1 ltac:(lia)) as Hmono.
    rewrite days_before_year_succ in Hmono. lia. }
  destruct (Z.compare_spec y1 y2) as [Ey|Ly|Gy]; cbn [lexc]; [|discriminate|lia].
  subst y2.
  assert (Hdoy : doy1 <= doy2) by lia.
  pose proof (month_day_valid (is_leap y1) doy1 Hd1) as (Hm1 & Hdd1 & _).
  pose proof (month_day_valid (is_leap y1) doy2 Hd2) as (Hm2 & Hdd2 & _).
  assert (Hkey : doy1 < doy2 ->
                 month_day_key (is_leap y1) doy1 < month_day_key (is_leap y1) doy2).
  { intros Hlt. apply month_day_key_lt; unfold days_in_year in *; lia. }
  assert (Hsame : doy1 = doy2 -> m1 = m2 /\ d1 = d2).
  { intros E. rewrite E in Hmd1. rewrite <- Hmd2 in Hmd1.
    injection Hmd1 as -> ->. now split. }
  unfold month_day_key in Hkey.
  rewrite <- Hmd1 in Hm1, Hdd1, Hkey. rewrite <- Hmd2 in Hm2, Hdd2, Hkey.
  cbn [fst snd] in *.
  destruct (Z.compare_spec m1 m2) as [Em|Lm|Gm]; cbn [lexc]; [|discriminate|lia].
  destruct (Z.compare_spec d1 d2) as [Ed|Ld|Gd]; cbn [lexc]; [|discriminate|lia].
  assert (Esame : t1 / 86400 = t2 / 86400) by lia.
  pose proof (Z.div_mod t1 86400 ltac:(lia)) as E1.
  pose proof (Z.div_mod t2 86400 ltac:(lia)) as E2.
  pose proof (Z.mod_pos_bound t1 86400 ltac:(lia)) as B1.
  pose proof (Z.mod_pos_bound t2 86400 ltac:(lia)) as B2.
  assert (Hrem : t1 mod 86400 <= t2 mod 86400) by lia.
  set (r1 := t1 mod 86400) in *. set (r2 := t2 mod 86400) in *.
  clearbody r1 r2.
  destruct (Z.compare_spec (r1 / 3600) (r2 / 3600)) as [Eh|Lh|Gh]; cbn [lexc];
    [|discriminate|exfalso; Z.div_mod_to_equations; lia].
  destruct (Z.compare_spec (r1 mod 3600 / 60) (r2 mod 3600 / 60)) as [Emi|Lmi|Gmi];
    cbn [lexc]; [|discriminate|exfalso; Z.div_mod_to_equations; lia].
  destruct (Z.compare_spec (Z.min (r1 mod 60) 59) (Z.min (r2 mod 60) 59)) as [Es|Ls|Gs];
    [discriminate|discriminate|exfalso; Z.div_mod_to_equations; lia].
Qed.

(** Later seconds give a later calendar date and time. *)
Lemma datetime_of_seconds_lt (t1 t2 us1 us2 : Z) (dt1 dt2 : datetime) :
  t1 < t2 ->
  datetime_of_seconds t1 us1 = Ok dt1 -> datetime_of_seconds t2 us2 = Ok dt2 ->
  datetime_compare dt1 dt2 = Lt.
Proof.
  intros Ht. unfold datetime_of_seconds, EPOCH_ORDINAL.
  destruct (ord2ymd_spec (t1 / 86400 + 719163)) as [doy1 Hs1].
  destruct (ord2ymd_spec (t2 / 86400 + 719163)) as [doy2 Hs2].
  destruct (ord2ymd (t1 / 86400 + 719163)) as [[y1 m1] d1].
  destruct (ord2ymd (t2 / 86400 + 719163)) as [[y2 m2] d2].
  destruct Hs1 as (Ho1 & Hd1 & Hmd1). destruct Hs2 as (Ho2 & Hd2 & Hmd2).
  destruct (_ && _); [|discriminate]. destruct (_ && _); [|discriminate].
  intros H1 H2. injection H1 as <-. injection H2 as <-.
  unfold datetime_compare. cbn [year month day hour minute second].
  assert (Hdays : t1 / 86400 <= t2 / 86400) by (apply Z.div_le_mono; lia).
  assert (Hy : y1 <= y2).
  { destruct (Z.le_gt_cases y1 y2) as [H|H]; [exact H|exfalso].
    pose proof (days_before_year_mono (y2 + 1) y1 ltac:(lia)) as Hmono.
    rewrite days_before_year_succ in Hmono. lia. }
  destruct (Z.compare_spec y1 y2) as [Ey|Ly|Gy]; cbn [lexc]; [|reflexivity|lia].
  subst y2.
  assert (Hdoy : doy1 <= doy2) by lia.
  assert (Hkey : doy1 < doy2 ->
                 month_day_key (is_leap y1) doy1 < month_day_key (is_leap y1) doy2).
  { intros Hlt. apply month_day_key_lt; unfold days_in_year in *; lia. }
  pose proof (month_day_valid (is_leap y1) doy1 Hd1) as (Hm1 & Hdd1 & _).
  pose proof (month_day_valid (is_leap y1) doy2 Hd2) as (Hm2 & Hdd2 & _).
  assert (Hsame : doy1 = doy2 -> m1 = m2 /\ d1 = d2).
  { intros E. rewrite E in Hmd1. rewrite <- Hmd2 in Hmd1.
    injection Hmd1 as -> ->. now split. }
  unfold month_day_key in Hkey.
  rewrite <- Hmd1 in Hm1, Hdd1, Hkey. rewrite <- Hmd2 in Hm2, Hdd2, Hkey.
  cbn [fst snd] in *.
  destruct (Z.compare_spec m1 m2) as [Em|Lm|Gm]; cbn [lexc]; [|reflexivity|lia].
  destruct (Z.compare_spec d1 d2) as [Ed|Ld|Gd]; cbn [lexc]; [|reflexivity|lia].
  assert (Esame : t1 / 86400 = t2 / 86400) by lia.
  pose proof (Z.div_mod t1 86400 ltac:(lia)) as E1.
  pose proof (Z.div_mod t2 86400 ltac:(lia)) as E2.
  pose proof (Z.mod_pos_bound t1 86400 ltac:(lia)) as B1.
  pose proof (Z.mod_pos_bound t2 86400 ltac:(lia)) as B2.
  assert (Hrem : t1 mod 86400 < t2 mod 86400) by lia.
  set (r1 := t1 mod 86400) in *. set (r2 := t2 mod 86400) in *.
  clearbody r1 r2. clear - Hrem B1 B2.
  destruct (Z.compare_spec (r1 / 3600) (r2 / 3600)) as [Eh|Lh|Gh]; cbn [lexc];
    [|reflexivity|exfalso; Z.div_mod_to_equations; lia].
  destruct (Z.compare_spec (r1 mod 3600 / 60) (r2 mod 3600 / 60)) as [Emi|Lmi|Gmi];
    cbn [lexc]; [|reflexivity|exfalso; Z.div_mod_to_equations; lia].
  destruct (Z.compare_spec (Z.min (r1 mod 60) 59) (Z.min (r2 mod 60) 59)) as [Es|Ls|Gs];
    [exfalso|reflexivity|exfalso]; Z.div_mod_to_equations; lia.
Qed.

End CalendarFacts.

(* ================================================================== *)
(** * Order of the printed timestamps *)

Module FormatFacts.

Lemma ndigits_fuel_small (fuel : nat) (n : Z) : n < 10 -> ndigits_fuel fuel n = 1%nat.
Proof.
  intros H. destruct fuel; cbn [ndigits_fuel]; [reflexivity|].
  apply Z.ltb_lt in H. now rewrite H.
Qed.

Lemma ndigits_fuel_step (fuel : nat) (n : Z) :
  10 <= n -> ndigits_fuel (S fuel) n = S (ndigits_fuel fuel (n / 10)).
Proof.
  intros H. cbn [ndigits_fuel]. apply Z.ltb_ge in H. now rewrite H.
Qed.

(** Two-digit fields. *)
Lemma fmt_d_two (n : Z) : 0 <= n < 100 -> fmt_d 2 n = zpad 2 n.
Proof.
  intros Hn. unfold fmt_d, ndigits. f_equal.
  destruct (Z.lt_ge_cases n 10) as [H|H].
  - now rewrite ndigits_fuel_small.
  - assert (Hl : 3 <= Z.log2 n) by (change 3 with (Z.log2 10); now apply Z.log2_le_mono).
    destruct (Z.to_nat (Z.log2 n)) as [|f] eqn:E; [lia|].
    rewrite ndigits_fuel_step by lia.
    rewrite ndigits_fuel_small; [reflexivity|].
    apply Z.div_lt_upper_bound; lia.
Qed.

(** Years of four digits. *)
Lemma fmt_d_year (n : Z) : 1000 <= n <= 9999 -> fmt_d 1 n = zpad 4 n.
Proof.
  intros Hn. unfold fmt_d, ndigits. f_equal.
  assert (Hl : 9 <= Z.log2 n) by (change 9 with (Z.log2 1000); apply Z.log2_le_mono; lia).
  destruct (Z.to_nat (Z.log2 n)) as [|[|[|f]]] eqn:E; try lia.
  rewrite !ndigits_fuel_step; try lia.
  - rewrite ndigits_fuel_small; [reflexivity|].
    repeat (apply Z.div_lt_upper_bound; [lia|]). lia.
  - repeat (apply Z.div_le_lower_bound; [lia|]). lia.
  - apply Z.div_le_lower_bound; lia.
Qed.

Lemma zpad_length (w : nat) (n : Z) : String.length (zpad w n) = w.
Proof. induction w as [|w IH]; cbn [zpad String.length]; [reflexivity | now rewrite IH]. Qed.

Lemma lexc_Eq_r (c : comparison) : lexc c Eq = c.
Proof. now destruct c. Qed.

Lemma compare_head (c1 c2 : ascii) (s1 s2 : string) :
  String.compare (String c1 s1) (String c2 s2)
  = lexc (Ascii.compare c1 c2) (String.compare s1 s2).
Proof. cbn [String.compare]. now destruct (Ascii.compare c1 c2). Qed.

Lemma compare_same_head (c : ascii) (s1 s2 : string) :
  String.compare (String c s1) (String c s2) = String.compare s1 s2.
Proof.
  rewrite compare_head. unfold Ascii.compare. now rewrite N.compare_refl.
Qed.

(** Strings that start with pieces of equal length compare piecewise. *)
Lemma compare_app (a b s t : string) :
  String.length a = String.length b ->
  String.compare (a ++ s) (b ++ t) = lexc (String.compare a b) (String.compare s t).
Proof.
  revert b. induction a as [|c a IH]; intros [|c' b] Hlen; try discriminate Hlen.
  - reflexivity.
  - cbn [append]. rewrite !compare_head.
    rewrite IH by (cbn in Hlen; lia).
    now destruct (Ascii.compare c c').
Qed.

Lemma compare_digit (a b : Z) :
  0 <= a < 10 -> 0 <= b < 10 -> Ascii.compare (digit a) (digit b) = (a ?= b).
Proof.
  intros Ha Hb. unfold digit.
  rewrite <- (Z2Nat.id a), <- (Z2Nat.id b) at 2 by lia.
  assert (Hka : (Z.to_nat a < 10)%nat) by lia.
  assert (Hkb : (Z.to_nat b < 10)%nat) by lia.
  remember (Z.to_nat a) as ka eqn:Eka. remember (Z.to_nat b) as kb eqn:Ekb.
  clear Eka Ekb Ha Hb.
  do 10 (destruct ka as [|ka]; [do 10 (destruct kb as [|kb]; [reflexivity|]); lia|]).
  lia.
Qed.

(** Zero-padded numbers of one width compare as numbers. *)
Lemma compare_zpad (w : nat) (a b : Z) :
  String.compare (zpad w a) (zpad w b)
  = (a mod 10 ^ Z.of_nat w ?= b mod 10 ^ Z.of_nat w).
Proof.
  induction w as [|w IH].
  - cbn. now rewrite !Z.mod_1_r.
  - cbn [zpad]. rewrite compare_head, IH.
    rewrite compare_digit by (apply Z.mod_pos_bound; lia).
    rewrite Nat2Z.inj_succ, Z.pow_succ_r by lia.
    set (P := 10 ^ Z.of_nat w).
    assert (HP : 0 < P) by (apply Z.pow_pos_nonneg; lia).
    rewrite (Z.mul_comm 10 P), !Z.rem_mul_r by lia.
    pose proof (Z.mod_pos_bound a P HP) as Ha0.
    pose proof (Z.mod_pos_bound b P HP) as Hb0.
    pose proof (Z.mod_pos_bound (a / P) 10 ltac:(lia)) as Ha1.
    pose proof (Z.mod_pos_bound (b / P) 10 ltac:(lia)) as Hb1.
    set (a0 := a mod P) in *. set (b0 := b mod P) in *.
    set (a1 := (a / P) mod 10) in *. set (b1 := (b / P) mod 10) in *.
    clearbody a0 b0 a1 b1.
    destruct (Z.compare_spec a1 b1) as [E1|L1|G1]; cbn [lexc]; symmetry.
    + subst b1. destruct (Z.compare_spec a0 b0) as [E0|L0|G0].
      * apply Z.compare_eq_iff. lia.
      * apply Z.compare_lt_iff. lia.
      * apply Z.compare_gt_iff. lia.
    + apply Z.compare_lt_iff. nia.
    + apply Z.compare_gt_iff. nia.
Qed.

Lemma compare_zpad_small (w : nat) (a b : Z) :
  0 <= a < 10 ^ Z.of_nat w -> 0 <= b < 10 ^ Z.of_nat w ->
  String.compare (zpad w a) (zpad w b) = (a ?= b).
Proof.
  intros Ha Hb. rewrite compare_zpad. now rewrite !Z.mod_small.
Qed.

(** The format of [convert_filetime], spelt out. *)
Lemma strftime_fields (dt : datetime) :
  strftime "%Y-%m-%d %H:%M:%S (UTC)" dt =
  fmt_d 1 (year dt) ++ "-" ++ fmt_d 2 (month dt) ++ "-" ++ fmt_d 2 (day dt) ++ " "
  ++ fmt_d 2 (hour dt) ++ ":" ++ fmt_d 2 (minute dt) ++ ":" ++ fmt_d 2 (second dt)
  ++ " (UTC)".
Proof. reflexivity. Qed.

(** Printed timestamps of four-digit years compare as the datetimes do. *)
Lemma strftime_compare (dt1 dt2 : datetime) :
  four_digit_datetime dt1 -> four_digit_datetime dt2 ->
  String.compare (strftime "%Y-%m-%d %H:%M:%S (UTC)" dt1)
                 (strftime "%Y-%m-%d %H:%M:%S (UTC)" dt2)
  = datetime_compare dt1 dt2.
Proof.
  intros (Hy1 & Hm1 & Hd1 & HH1 & HM1 & HS1) (Hy2 & Hm2 & Hd2 & HH2 & HM2 & HS2).
  rewrite !strftime_fields.
  rewrite !fmt_d_year, !fmt_d_two by lia.
  unfold datetime_compare.
  repeat (rewrite compare_app by (now rewrite !zpad_length);
          rewrite compare_zpad_small by (cbn; lia);
          cbn [append]; rewrite ?compare_same_head).
  now rewrite lexc_Eq_r.
Qed.

End FormatFacts.

(* ================================================================== *)
(** * The Filetime Converter (claim C4) *)

(** The converter prints the calendar string of its whole seconds; the
    microseconds do not reach the format. *)
Lemma convert_filetime_calendar (ft : Z) :
  convert_filetime ft = calendar_string (filetime_seconds ft).
Proof.
  unfold convert_filetime, utcfromtimestamp, filetime_seconds,
    timestamp_seconds, calendar_string.
  destruct (timestamp_parts _) as [secs us]. cbn [fst].
  unfold datetime_of_seconds.
  destruct (ord2ymd _) as [[y m] d].
  destruct ((MINYEAR <=? y) && (y <=? MAXYEAR)); reflexivity.
Qed.

(** The scenario of the specification: the epoch offset itself. *)
Example convert_filetime_epoch :
  convert_filetime 116444736000000000 = Ok "1970-01-01 00:00:00 (UTC)".
Proof. vm_compute. reflexivity. Qed.

(** One tick before the next second, the next second is printed. *)
Example convert_filetime_rounds_up :
  convert_filetime 116444736009999999 = Ok "1970-01-01 00:00:01 (UTC)".
Proof. vm_compute. reflexivity. Qed.

(** C4 as stated does not hold: 0.9999999 s after the epoch the whole
    seconds are 0, and the converter prints second 1. *)
Lemma filetime_truncates_fails : ~ filetime_truncates.
Proof.
  intros H.
  specialize (H 116444736009999999 "1970-01-01 00:00:00 (UTC)" ltac:(lia)).
  rewrite convert_filetime_rounds_up in H.
  assert (Hs : Ok "1970-01-01 00:00:01 (UTC)" = Ok "1970-01-01 00:00:00 (UTC)")
    by (apply H; vm_compute; reflexivity).
  discriminate Hs.
Qed.

(** C4, amended. For a nonzero 64-bit FILETIME [ft], with [q] and [r] the
    quotient and remainder of [ft - 116444736000000000] by 10,000,000, the
    converter returns the calendar string "YYYY-MM-DD HH:MM:SS (UTC)" of
    second [q] or of second [q + 1] (the quotient is a float and the
    timestamp is rounded to microseconds before the seconds are taken, so
    the second is not always truncated).  It is second [q] whenever
    [r <= 9995117]; for values in the calendar's range whenever
    [r <= 9999389]; for |q| < 2^32 whenever [r <= 9999990].  It is second
    [q + 1], the remainder being rounded up rather than truncated, whenever
    [|q| + 1 < 2^32] and [9999996 <= r].  The epoch offset itself gives
    "1970-01-01 00:00:00 (UTC)". *)
Theorem convert_filetime_seconds (ft : Z) :
  0 < ft < 2 ^ 64 ->
  let q := (ft - EPOCH_AS_FILETIME) / HUNDREDS_OF_NANOSECONDS in
  let r := (ft - EPOCH_AS_FILETIME) mod HUNDREDS_OF_NANOSECONDS in
  (convert_filetime ft = calendar_string q \/
   convert_filetime ft = calendar_string (q + 1)) /\
  (r <= 9995117 -> convert_filetime ft = calendar_string q) /\
  (q < 253402300800 -> r <= 9999389 -> convert_filetime ft = calendar_string q) /\
  (Z.abs q < 2 ^ 32 -> r <= 9999990 -> convert_filetime ft = calendar_string q) /\
  (Z.abs q + 1 < 2 ^ 32 -> 9999996 <= r ->
   convert_filetime ft = calendar_string (q + 1)) /\
  convert_filetime EPOCH_AS_FILETIME = Ok "1970-01-01 00:00:00 (UTC)".
Proof.
  intros Hft q r.
  rewrite !convert_filetime_calendar. unfold filetime_seconds.
  unfold EPOCH_AS_FILETIME, HUNDREDS_OF_NANOSECONDS in *.
  set (n := ft - 116444736000000000) in *.
  assert (Hq : -11644473600 <= q < 1833029933771).
  { unfold q. split.
    - apply Z.div_le_lower_bound; lia.
    - apply Z.div_lt_upper_bound; lia. }
  assert (Hr : 0 <= r < 10000000) by (apply Z.mod_pos_bound; lia).
  split; [|split; [|split; [|split; [|split]]]].
  - pose proof (TimestampFacts.quotient_seconds_range n ltac:(fold q; lia)) as Hs.
    fold q in Hs.
    destruct (Z.eq_dec (timestamp_seconds (Float.true_divide n 10000000)) q) as [E|E].
    + left. now rewrite E.
    + right. f_equal. lia.
  - intros Hr'. f_equal.
    apply (TimestampFacts.quotient_seconds_floor n 11); fold q; fold r; lia.
  - intros Hq' Hr'. f_equal.
    apply (TimestampFacts.quotient_seconds_floor n 14); fold q; fold r; lia.
  - intros Hq' Hr'. f_equal.
    apply (TimestampFacts.quotient_seconds_floor n 20); fold q; fold r; lia.
  - intros Hq' Hr'. f_equal.
    apply (TimestampFacts.quotient_seconds_ceil n 21); fold q; fold r; lia.
  - vm_compute. reflexivity.
Qed.

Lemma convert_filetime_seconds_witness :
  let ft := 132537600123456789 in
  let q := (ft - EPOCH_AS_FILETIME) / HUNDREDS_OF_NANOSECONDS in
  let r := (ft - EPOCH_AS_FILETIME) mod HUNDREDS_OF_NANOSECONDS in
  (convert_filetime ft = calendar_string q \/
   convert_filetime ft = calendar_string (q + 1)) /\
  (r <= 9995117 -> convert_filetime ft = calendar_string q) /\
  (q < 253402300800 -> r <= 9999389 -> convert_filetime ft = calendar_string q) /\
  (Z.abs q < 2 ^ 32 -> r <= 9999990 -> convert_filetime ft = calendar_string q) /\
  (Z.abs q + 1 < 2 ^ 32 -> 9999996 <= r ->
   convert_filetime ft = calendar_string (q + 1)) /\
  convert_filetime EPOCH_AS_FILETIME = Ok "1970-01-01 00:00:00 (UTC)".
Proof.
  apply (convert_filetime_seconds 132537600123456789). lia.
Defined.

(* ================================================================== *)
(** * Monotonicity of the Filetime Converter (claim C8) *)

Lemma calendar_string_datetime (t : Z) (s : string) :
  calendar_string t = Ok s ->
  exists dt, datetime_of_seconds t 0 = Ok dt /\
             s = strftime "%Y-%m-%d %H:%M:%S (UTC)" dt.
Proof.
  unfold calendar_string. destruct (datetime_of_seconds t 0) as [dt|e]; cbn [bind].
  - intros H. injection H as <-. now exists dt.
  - discriminate.
Qed.

(** The seconds of a nonzero 64-bit FILETIME are not before 1601. *)
Lemma filetime_seconds_lower (ft : Z) :
  0 < ft < 2 ^ 64 -> -11644473600 <= filetime_seconds ft.
Proof.
  intros Hft. unfold filetime_seconds, EPOCH_AS_FILETIME, HUNDREDS_OF_NANOSECONDS.
  set (n := ft - 116444736000000000).
  assert (Hq : -11644473600 <= n / 10000000 < 1833029933771).
  { split; [apply Z.div_le_lower_bound | apply Z.div_lt_upper_bound]; lia. }
  pose proof (TimestampFacts.quotient_seconds_range n ltac:(lia)). lia.
Qed.

(** Two FILETIMEs one tenth of a microsecond apart, in the same second:
    the strings are equal. *)
Example convert_filetime_same_second :
  convert_filetime 116444736000000000 = Ok "1970-01-01 00:00:00 (UTC)" /\
  convert_filetime 116444736000000001 = Ok "1970-01-01 00:00:00 (UTC)".
Proof. split; vm_compute; reflexivity. Qed.

(** C8 as stated does not hold: the order of two FILETIMEs is not always
    the order of their strings, which may be equal. *)
Lemma convert_filetime_order_preserved_fails : ~ convert_filetime_order_preserved.
Proof.
  intros H. destruct convert_filetime_same_second as [H1 H2].
  specialize (H 116444736000000000 116444736000000001 _ _
                ltac:(lia) ltac:(lia) ltac:(lia) H1 H2).
  discriminate H.
Qed.

(** C8, amended. The converter is monotonic, not strictly: for nonzero
    64-bit FILETIMEs [ft1 < ft2] that both convert, the string of [ft1] is
    not after the string of [ft2] in lexicographic order; it is before it
    exactly when the two values fall in different seconds, which they do
    when they are two seconds or more apart, and the two strings are equal
    otherwise. *)
Theorem convert_filetime_monotone (ft1 ft2 : Z) (s1 s2 : string) :
  0 < ft1 -> ft1 < ft2 -> ft2 < 2 ^ 64 ->
  convert_filetime ft1 = Ok s1 -> convert_filetime ft2 = Ok s2 ->
  String.leb s1 s2 = true /\ String.compare s1 s2 <> Gt /\
  (String.compare s1 s2 = Lt <-> filetime_seconds ft1 < filetime_seconds ft2) /\
  (filetime_seconds ft1 = filetime_seconds ft2 -> s1 = s2) /\
  (ft1 + 20000000 <= ft2 -> String.compare s1 s2 = Lt).
Proof.
  intros H1 H12 H2 Hs1 Hs2.
  rewrite convert_filetime_calendar in Hs1, Hs2.
  assert (Hsame : filetime_seconds ft1 = filetime_seconds ft2 -> s1 = s2).
  { intros E. rewrite E in Hs1. congruence. }
  destruct (calendar_string_datetime _ _ Hs1) as (dt1 & Hdt1 & ->).
  destruct (calendar_string_datetime _ _ Hs2) as (dt2 & Hdt2 & ->).
  pose proof (filetime_seconds_lower ft1 ltac:(lia)) as Hlo1.
  pose proof (filetime_seconds_lower ft2 ltac:(lia)) as Hlo2.
  assert (Hsecs : filetime_seconds ft1 <= filetime_seconds ft2)
    by (apply TimestampFacts.quotient_seconds_mono; lia).
  pose proof (CalendarFacts.datetime_of_seconds_fields _ _ _ Hlo1 Hdt1) as F1.
  pose proof (CalendarFacts.datetime_of_seconds_fields _ _ _ Hlo2 Hdt2) as F2.
  pose proof (CalendarFacts.datetime_of_seconds_mono _ _ _ _ _ _ Hsecs Hdt1 Hdt2) as Hcmp.
  rewrite <- (FormatFacts.strftime_compare dt1 dt2 F1 F2) in Hcmp.
  assert (Hlt : filetime_seconds ft1 < filetime_seconds ft2 ->
                String.compare (strftime "%Y-%m-%d %H:%M:%S (UTC)" dt1)
                               (strftime "%Y-%m-%d %H:%M:%S (UTC)" dt2) = Lt).
  { intros Hstrict. rewrite (FormatFacts.strftime_compare dt1 dt2 F1 F2).
    exact (CalendarFacts.datetime_of_seconds_lt _ _ _ _ _ _ Hstrict Hdt1 Hdt2). }
  split; [unfold String.leb; now destruct (String.compare _ _)|].
  split; [exact Hcmp|]. split; [|split; [exact Hsame|]].
  - split; [|exact Hlt].
    intros Hc. destruct (Z.eq_dec (filetime_seconds ft1) (filetime_seconds ft2)) as [E|E];
      [|lia].
    rewrite (Hsame E) in Hc.
    pose proof (String.compare_antisym (strftime "%Y-%m-%d %H:%M:%S (UTC)" dt2)
                                       (strftime "%Y-%m-%d %H:%M:%S (UTC)" dt2)) as Hanti.
    rewrite Hc in Hanti. discriminate Hanti.
  - intros Hfar. apply Hlt. clear - H1 H2 Hfar.
    unfold filetime_seconds, EPOCH_AS_FILETIME, HUNDREDS_OF_NANOSECONDS.
    set (n1 := ft1 - 116444736000000000). set (n2 := ft2 - 116444736000000000).
    assert (Hq1 : -11644473600 <= n1 / 10000000 < 1833029933771).
    { split; [apply Z.div_le_lower_bound | apply Z.div_lt_upper_bound]; lia. }
    assert (Hq2 : -11644473600 <= n2 / 10000000 < 1833029933771).
    { split; [apply Z.div_le_lower_bound | apply Z.div_lt_upper_bound]; lia. }
    pose proof (TimestampFacts.quotient_seconds_range n1 ltac:(lia)) as [_ Hup].
    pose proof (TimestampFacts.quotient_seconds_range n2 ltac:(lia)) as [Hdown _].
    assert (Hq : n1 / 10000000 + 2 <= n2 / 10000000).
    { replace (n1 / 10000000 + 2) with ((n1 + 2 * 10000000) / 10000000)
        by (rewrite Z.div_add by lia; reflexivity).
      apply Z.div_le_mono; lia. }
    lia.
Qed.

Lemma convert_filetime_monotone_witness :
  let s1 := "2020-01-01 00:00:00 (UTC)" in
  let s2 := "2020-12-30 00:00:12 (UTC)" in
  String.leb s1 s2 = true /\ String.compare s1 s2 <> Gt /\
  (String.compare s1 s2 = Lt <->
   filetime_seconds 132223104000000000 < filetime_seconds 132537600123456789) /\
  (filetime_seconds 132223104000000000 = filetime_seconds 132537600123456789 ->
   s1 = s2) /\
  (132223104000000000 + 20000000 <= 132537600123456789 -> String.compare s1 s2 = Lt).
Proof.
  apply (convert_filetime_monotone 132223104000000000 132537600123456789);
    try lia; vm_compute; reflexivity.
Defined.


(* ================================================================== *)
(** * Further properties of the converter and the decoder *)

(** The converter raises nothing but ValueError. *)
Lemma convert_filetime_error (ft : Z) (e : exn) :
  convert_filetime ft = Raise e -> e = ValueError.
Proof.
  rewrite convert_filetime_calendar. unfold calendar_string, datetime_of_seconds.
  destruct (ord2ymd _) as [[y m] d].
  destruct ((MINYEAR <=? y) && (y <=? MAXYEAR)); cbn [bind]; congruence.
Qed.

(** What the decoder returns is empty or holds four fields. *)
Lemma raw_data_parser_fields (data : bytes) (ua_data : list pyval) :
  raw_data_parser data = Ok ua_data ->
  ua_data = [] \/ exists a b c d, ua_data = [a; b; c; d].
Proof.
  destruct (Nat.eq_dec (List.length data) 16) as [H16|H16];
    [|destruct (Nat.eq_dec (List.length data) 72) as [H72|H72]].
  - rewrite raw_data_parser_len16 by exact H16.
    destruct (last_executed_of _) as [s|e]; cbn [bind]; [|discriminate].
    intros H. injection H as <-. right. now repeat eexists.
  - rewrite raw_data_parser_len72 by exact H72.
    destruct (last_executed_of _) as [s|e]; cbn [bind]; [|discriminate].
    intros H. injection H as <-. right. now repeat eexists.
  - rewrite raw_data_parser_other by assumption.
    intros H. injection H as <-. now left.
Qed.

(** X1. The decoder never fails on its unpack calls: whatever the payload, it
    returns the empty list (length neither 16 nor 72), returns exactly four
    fields, or raises the ValueError of the converter. *)
Theorem raw_data_parser_shape (data : bytes) :
  match raw_data_parser data with
  | Ok ua_data =>
      (ua_data = [] /\ List.length data <> 16%nat /\ List.length data <> 72%nat) \/
      ((exists a b c d, ua_data = [a; b; c; d]) /\
       (List.length data = 16%nat \/ List.length data = 72%nat))
  | Raise e =>
      e = ValueError /\ (List.length data = 16%nat \/ List.length data = 72%nat)
  end.
Proof.
  destruct (Nat.eq_dec (List.length data) 16) as [H16|H16];
    [|destruct (Nat.eq_dec (List.length data) 72) as [H72|H72]].
  - rewrite raw_data_parser_len16 by exact H16. unfold last_executed_of.
    destruct (u64_at 8 data =? 0); cbn [bind].
    + right. split; [now repeat eexists | now left].
    + destruct (convert_filetime _) as [s|e] eqn:E; cbn [bind].
      * right. split; [now repeat eexists | now left].
      * split; [exact (convert_filetime_error _ _ E) | now left].
  - rewrite raw_data_parser_len72 by exact H72. unfold last_executed_of.
    destruct (u64_at 60 data =? 0); cbn [bind].
    + right. split; [now repeat eexists | now right].
    + destruct (convert_filetime _) as [s|e] eqn:E; cbn [bind].
      * right. split; [now repeat eexists | now right].
      * split; [exact (convert_filetime_error _ _ E) | now right].
  - rewrite raw_data_parser_other by assumption. now left.
Qed.

(** The year grows with the ordinal. *)
Lemma ord2ymd_year_mono (o1 o2 : Z) :
  o1 <= o2 -> fst (fst (ord2ymd o1)) <= fst (fst (ord2ymd o2)).
Proof.
  intros Ho.
  destruct (CalendarFacts.ord2ymd_spec o1) as [doy1 H1].
  destruct (CalendarFacts.ord2ymd_spec o2) as [doy2 H2].
  destruct (ord2ymd o1) as [[y1 m1] d1]. destruct (ord2ymd o2) as [[y2 m2] d2].
  cbn [fst]. destruct H1 as (E1 & B1 & _). destruct H2 as (E2 & B2 & _).
  destruct (Z.le_gt_cases y1 y2) as [H|H]; [exact H|exfalso].
  pose proof (CalendarFacts.days_before_year_mono (y2 + 1) y1 ltac:(lia)) as Hmono.
  rewrite CalendarFacts.days_before_year_succ in Hmono. lia.
Qed.

(** Seconds from 1601 to the end of 9999 make a datetime. *)
Lemma datetime_of_seconds_in_range (t us : Z) :
  -11644473600 <= t <= 253402300799 ->
  exists dt, datetime_of_seconds t us = Ok dt.
Proof.
  intros Ht. unfold datetime_of_seconds, EPOCH_ORDINAL, MINYEAR, MAXYEAR.
  assert (Hd : -134774 <= t / 86400 < 2932897).
  { split; [apply Z.div_le_lower_bound | apply Z.div_lt_upper_bound]; lia. }
  pose proof (ord2ymd_year_mono 584389 (t / 86400 + 719163) ltac:(lia)) as Hlo.
  pose proof (ord2ymd_year_mono (t / 86400 + 719163) 3652059 ltac:(lia)) as Hhi.
  change (fst (fst (ord2ymd 584389))) with 1601 in Hlo.
  change (fst (fst (ord2ymd 3652059))) with 9999 in Hhi.
  destruct (ord2ymd _) as [[y m] d]. cbn [fst] in Hlo, Hhi.
  replace ((1 <=? y) && (y <=? 9999)) with true by (symmetry; apply andb_true_iff; lia).
  now eexists.
Qed.

(** Seconds from year 10000 on make none. *)
Lemma datetime_of_seconds_overflow (t us : Z) :
  253402300800 <= t -> datetime_of_seconds t us = Raise ValueError.
Proof.
  intros Ht. unfold datetime_of_seconds, EPOCH_ORDINAL, MINYEAR, MAXYEAR.
  assert (Hd : 2932897 <= t / 86400) by (apply Z.div_le_lower_bound; lia).
  pose proof (ord2ymd_year_mono 3652060 (t / 86400 + 719163) ltac:(lia)) as Hlo.
  change (fst (fst (ord2ymd 3652060))) with 10000 in Hlo.
  destruct (ord2ymd _) as [[y m] d]. cbn [fst] in Hlo.
  replace ((1 <=? y) && (y <=? 9999)) with false; [reflexivity|].
  symmetry. apply andb_false_iff. right. apply Z.leb_gt. lia.
Qed.

(** A nonzero FILETIME up to [MAX_FILETIME] converts. *)
Lemma convert_filetime_converts (ft : Z) :
  0 < ft <= MAX_FILETIME -> exists s, convert_filetime ft = Ok s.
Proof.
  intros Hft. rewrite convert_filetime_calendar. unfold calendar_string.
  assert (Hrange : 0 < ft < 2 ^ 64) by (unfold MAX_FILETIME in Hft; lia).
  pose proof (filetime_seconds_lower ft Hrange) as Hlo.
  assert (Hhi : filetime_seconds ft <= 253402300799).
  { change 253402300799 with (filetime_seconds MAX_FILETIME).
    apply TimestampFacts.quotient_seconds_mono. lia. }
  destruct (datetime_of_seconds_in_range (filetime_seconds ft) 0 ltac:(lia)) as [dt ->].
  cbn [bind]. now eexists.
Qed.

(** A 64-bit FILETIME above [MAX_FILETIME] raises. *)
Lemma convert_filetime_overflows (ft : Z) :
  MAX_FILETIME < ft < 2 ^ 64 -> convert_filetime ft = Raise ValueError.
Proof.
  intros Hft. rewrite convert_filetime_calendar. unfold calendar_string.
  assert (Hhi : 253402300800 <= filetime_seconds ft).
  { change 253402300800 with (filetime_seconds (MAX_FILETIME + 1)).
    apply TimestampFacts.quotient_seconds_mono. unfold MAX_FILETIME in *. lia. }
  now rewrite datetime_of_seconds_overflow.
Qed.

(** X2. The range of the converter: a nonzero 64-bit FILETIME converts when
    it is at most 2650467743999999847 (the last value that does not round
    up to the year 10000) and raises ValueError when it is larger. *)
Theorem convert_filetime_range (ft : Z) :
  0 < ft < 2 ^ 64 ->
  (ft <= MAX_FILETIME -> exists s, convert_filetime ft = Ok s) /\
  (MAX_FILETIME < ft -> convert_filetime ft = Raise ValueError).
Proof.
  intros Hft. split; intros Hmax.
  - apply convert_filetime_converts. lia.
  - apply convert_filetime_overflows. lia.
Qed.

Lemma convert_filetime_range_witness :
  (2650467743999999847 <= MAX_FILETIME ->
   exists s, convert_filetime 2650467743999999847 = Ok s) /\
  (MAX_FILETIME < 2650467743999999847 ->
   convert_filetime 2650467743999999847 = Raise ValueError).
Proof.
  apply (convert_filetime_range 2650467743999999847). lia.
Defined.

(** The same range for the last-executed field, zero included. *)
Lemma last_executed_of_range (ft : Z) :
  0 <= ft < 2 ^ 64 ->
  (ft <= MAX_FILETIME -> exists s, last_executed_of ft = Ok s) /\
  (MAX_FILETIME < ft -> last_executed_of ft = Raise ValueError).
Proof.
  intros Hft. unfold last_executed_of.
  destruct (ft =? 0) eqn:E.
  - apply Z.eqb_eq in E. subst ft. split; [now eexists | unfold MAX_FILETIME; lia].
  - apply Z.eqb_neq in E. split; intros Hmax.
    + apply convert_filetime_converts. lia.
    + apply convert_filetime_overflows. lia.
Qed.

(** X3. Which payloads make the decoder raise: those of 16 or 72 bytes whose
    FILETIME field exceeds 2650467743999999847. *)
Theorem raw_data_parser_raises_iff (data : bytes) :
  (List.length data = 16%nat ->
   (raw_data_parser data = Raise ValueError <-> MAX_FILETIME < u64_at 8 data)) /\
  (List.length data = 72%nat ->
   (raw_data_parser data = Raise ValueError <-> MAX_FILETIME < u64_at 60 data)).
Proof.
  split; intros Hlen.
  - rewrite raw_data_parser_len16 by exact Hlen.
    destruct (last_executed_of_range (u64_at 8 data) (u64_range 8 data ltac:(lia)))
      as [Hok Hraise].
    split.
    + intros H. destruct (Z.le_gt_cases (u64_at 8 data) MAX_FILETIME) as [Hle|Hgt];
        [|exact Hgt].
      destruct (Hok Hle) as [s Hs]. rewrite Hs in H. discriminate H.
    + intros Hgt. now rewrite (Hraise Hgt).
  - rewrite raw_data_parser_len72 by exact Hlen.
    destruct (last_executed_of_range (u64_at 60 data) (u64_range 60 data ltac:(lia)))
      as [Hok Hraise].
    split.
    + intros H. destruct (Z.le_gt_cases (u64_at 60 data) MAX_FILETIME) as [Hle|Hgt];
        [|exact Hgt].
      destruct (Hok Hle) as [s Hs]. rewrite Hs in H. discriminate H.
    + intros Hgt. now rewrite (Hraise Hgt).
Qed.

Lemma raw_data_parser_raises_iff_witness :
  raw_data_parser overflow_payload = Raise ValueError <->
  MAX_FILETIME < u64_at 8 overflow_payload.
Proof.
  apply (proj1 (raw_data_parser_raises_iff overflow_payload)). reflexivity.
Defined.

Lemma length_append (a b : string) :
  String.length (a ++ b) = (String.length a + String.length b)%nat.
Proof. induction a as [|c a IH]; cbn; [reflexivity | now rewrite IH]. Qed.

(** The calendar string of a second from 1601 on has 25 characters. *)
Lemma calendar_string_length (t : Z) (s : string) :
  -11644473600 <= t -> calendar_string t = Ok s -> String.length s = 25%nat.
Proof.
  intros Ht Hs.
  destruct (calendar_string_datetime _ _ Hs) as (dt & Hdt & ->).
  pose proof (CalendarFacts.datetime_of_seconds_fields _ _ _ Ht Hdt)
    as (Hy & Hm & Hd & HH & HM & HS).
  rewrite FormatFacts.strftime_fields.
  rewrite FormatFacts.fmt_d_year, !FormatFacts.fmt_d_two by lia.
  rewrite !length_append, !FormatFacts.zpad_length. reflexivity.
Qed.

(** X4. The printed timestamp of a nonzero 64-bit FILETIME has exactly 25
    characters: the year has four digits and every other field two. *)
Theorem convert_filetime_length (ft : Z) (s : string) :
  0 < ft < 2 ^ 64 -> convert_filetime ft = Ok s -> String.length s = 25%nat.
Proof.
  intros Hft Hs. rewrite convert_filetime_calendar in Hs.
  exact (calendar_string_length _ _ (filetime_seconds_lower ft Hft) Hs).
Qed.

Lemma convert_filetime_length_witness :
  convert_filetime 132223104000000000 = Ok "2020-01-01 00:00:00 (UTC)" /\
  String.length "2020-01-01 00:00:00 (UTC)" = 25%nat.
Proof.
  assert (H : convert_filetime 132223104000000000 = Ok "2020-01-01 00:00:00 (UTC)")
    by (vm_compute; reflexivity).
  split; [exact H|].
  apply (convert_filetime_length 132223104000000000); [lia | exact H].
Defined.

(** X5. An empty last-executed field always means a zero FILETIME: on a payload
    of 16 or 72 bytes that decodes, the fourth field is the empty string
    exactly when the FILETIME field is zero. *)
Theorem last_executed_absent_iff_zero (data : bytes) (ua_data : list pyval) :
  raw_data_parser data = Ok ua_data ->
  (List.length data = 16%nat ->
   (nth 3 ua_data (PInt 0) = absent <-> u64_at 8 data = 0)) /\
  (List.length data = 72%nat ->
   (nth 3 ua_data (PInt 0) = absent <-> u64_at 60 data = 0)).
Proof.
  assert (Hfield : forall ft s, 0 <= ft < 2 ^ 64 -> last_executed_of ft = Ok s ->
                                (PStr s = absent <-> ft = 0)).
  { intros ft s Hft. unfold last_executed_of.
    destruct (Z.eqb_spec ft 0) as [E|E].
    - intros H. injection H as <-. now split.
    - intros H. rewrite convert_filetime_calendar in H.
      pose proof (calendar_string_length _ s
                    (filetime_seconds_lower ft ltac:(lia)) H) as Hl.
      split; [|contradiction].
      intros Habs. unfold absent in Habs. injection Habs as ->. discriminate Hl. }
  intros Hraw. split; intros Hlen.
  - rewrite raw_data_parser_len16 in Hraw by exact Hlen.
    destruct (last_executed_of _) as [s|e] eqn:E; [|discriminate Hraw].
    cbn [bind] in Hraw. injection Hraw as <-. cbn [nth].
    apply Hfield; [apply u64_range; lia | exact E].
  - rewrite raw_data_parser_len72 in Hraw by exact Hlen.
    destruct (last_executed_of _) as [s|e] eqn:E; [|discriminate Hraw].
    cbn [bind] in Hraw. injection Hraw as <-. cbn [nth].
    apply Hfield; [apply u64_range; lia | exact E].
Qed.

Lemma last_executed_absent_iff_zero_witness :
  (List.length xp_payload = 16%nat ->
   (nth 3 [PInt 0; absent; absent; absent] (PInt 0) = absent <-> u64_at 8 xp_payload = 0)) /\
  (List.length xp_payload = 72%nat ->
   (nth 3 [PInt 0; absent; absent; absent] (PInt 0) = absent <-> u64_at 60 xp_payload = 0)).
Proof.
  apply (last_executed_absent_iff_zero xp_payload). reflexivity.
Defined.


(* ================================================================== *)
(** * Further properties of the run: get_key, write_output, main *)

Section Run.

Variable folder_guids : list (string * string).
Variable csv_hive : list csv_row -> hive_file.

(** X6. [get_key] on a hive whose records all decode: one entry per value,
    in traversal order, none dropped; keys without values print nothing,
    and the file system is left as it was. *)
Theorem get_key_entries (file ua_key : string) (w : world) (h : hive)
        (guids : list guid_key) :
  hive_at csv_hive file w = Some (Regf h) ->
  hive_type h = "ntuser.dat" -> userassist h = Some (ua_key, guids) ->
  Forall guid_decodes guids ->
  get_key folder_guids csv_hive (Path file) (path_str (Path file)) w =
  (Ok (Some (map (entry_of folder_guids) (hive_values guids))),
   mk_world (stdout w ++ (newline ++ "[+] Found " ++ ua_key)%string
                          :: guid_messages guids)%list
            (cwd w) (fs w)).
Proof.
  intros Hfile Htype Hkey Hok.
  destruct (hive_at_read csv_hive file w _ Hfile) as [_ Hread].
  unfold get_key, bindM at 1. rewrite Hread, Htype, Hkey.
  cbn [String.eqb]. rewrite !Ascii.eqb_refl. run.
  pose proof (parse_guids_decodes folder_guids guids [] Hok []
                (stdout w ++ [(newline ++ "[+] Found " ++ ua_key)%string])%list
                (cwd w) (fs w)) as Hloop.
  rewrite List.app_nil_r in Hloop. rewrite Hloop. cbn [parse_guids app]. run.
  now rewrite <- List.app_assoc.
Qed.

(** X7. [write_output] on a list whose field lists are empty or hold at
    least four fields, where the report can be written under [out]: the
    directories of [out] that are missing are made, and the file holds the
    header followed by one row per non-empty item, in list order, whatever
    it held before. *)
Theorem write_output_rows (pd_list : list pd_dict) (out : string) (w : world) :
  out_ready out w = true -> well_shaped pd_list ->
  write_output (Some pd_list) out w =
  (Ok tt,
   mk_world (stdout w ++ [("[+] Output written to " ++ csv_name out)%string])%list
            (cwd w)
            (put (csv_loc out w) (File (Csv (header :: rows_of pd_list)))
                 (out_fs out w))).
Proof.
  intros Hready Hshape. unfold write_output.
  rewrite open_report by exact Hready.
  pose proof (csv_loc_nonempty out w) as Hfh.
  unfold bindM at 1.
  rewrite (writerow_appends _ header _ _ [] _ Hfh). cbn [app].
  unfold bindM at 1.
  rewrite (write_rows_loop _ pd_list Hfh Hshape). reflexivity.
Qed.

(** The rows written for the entries of [get_key] are the rows of the
    values. *)
Lemma rows_of_entries (values : list reg_value) :
  rows_of (map (entry_of folder_guids) values)
  = flat_map (value_rows folder_guids) values.
Proof.
  unfold rows_of. induction values as [|v values IH]; cbn [map flat_map]; [reflexivity|].
  rewrite IH. f_equal.
  unfold entry_of, decoded, value_rows, row_of. cbn [flat_map snd fst].
  destruct (raw_data_parser (value_data v)) as [ua|e] eqn:E; [|reflexivity].
  destruct (raw_data_parser_fields _ _ E) as [->|(a & b & c & d & ->)]; reflexivity.
Qed.

(** They are well shaped. *)
Lemma entries_well_shaped (values : list reg_value) :
  well_shaped (map (entry_of folder_guids) values).
Proof.
  intros d item Hd Hitem. apply in_map_iff in Hd as (v & <- & _).
  destruct Hitem as [<-|[]]. cbn [snd]. unfold decoded.
  destruct (raw_data_parser (value_data v)) as [ua|e] eqn:E; [|now left].
  destruct (raw_data_parser_fields _ _ E) as [->|(a & b & c & d & ->)];
    [now left | right; cbn; lia].
Qed.

(** The report of the entries [get_key] returns. *)
Lemma write_output_entries (values : list reg_value) (out : string) (w : world) :
  out_ready out w = true ->
  write_output (Some (map (entry_of folder_guids) values)) out w =
  (Ok tt,
   mk_world (stdout w ++ [("[+] Output written to " ++ csv_name out)%string])%list
            (cwd w)
            (put (csv_loc out w)
                 (File (Csv (header :: flat_map (value_rows folder_guids) values)))
                 (out_fs out w))).
Proof.
  intros Hready. rewrite <- rows_of_entries. unfold write_output.
  rewrite open_report by exact Hready.
  pose proof (csv_loc_nonempty out w) as Hfh.
  unfold bindM at 1.
  rewrite (writerow_appends _ header _ _ [] _ Hfh). cbn [app].
  unfold bindM at 1.
  rewrite (write_rows_loop _ _ Hfh (entries_well_shaped values)). reflexivity.
Qed.

(** X8. The report of a run. On an ntuser.dat hive with the UserAssist key,
    all of whose GUID keys have a Count subkey and all of whose records
    decode, and with an output path under which the report can be written,
    [main] raises nothing, makes the missing directories and leaves in
    [UserAssist.csv] the header followed by one row per value whose payload
    has 16 or 72 bytes, in traversal order. *)
Theorem main_report (path out ua_key : string) (w : world) (h : hive)
        (guids : list guid_key) :
  hive_at csv_hive path w = Some (Regf h) ->
  hive_type h = "ntuser.dat" -> userassist h = Some (ua_key, guids) ->
  Forall guid_decodes guids ->
  out_ready out w = true ->
  main folder_guids csv_hive path out w =
  (Ok tt,
   mk_world (stdout w
             ++ (newline ++ "[+] Found " ++ ua_key)%string :: guid_messages guids
             ++ [("[+] Output written to " ++ csv_name out)%string])%list
            (cwd w)
            (put (csv_loc out w)
                 (File (Csv (header :: flat_map (value_rows folder_guids)
                                                (hive_values guids))))
                 (out_fs out w))).
Proof.
  intros Hfile Htype Hkey Hok Hready.
  rewrite (main_read folder_guids csv_hive path out w _ Hfile), Htype, Hkey.
  cbn [String.eqb]. rewrite !Ascii.eqb_refl.
  pose proof (parse_guids_decodes folder_guids guids [] Hok []
                (stdout w ++ [(newline ++ "[+] Found " ++ ua_key)%string])%list
                (cwd w) (fs w)) as Hloop.
  rewrite List.app_nil_r in Hloop. rewrite Hloop. cbn [parse_guids app]. run.
  rewrite write_output_entries by exact Hready.
  cbn [stdout cwd fs]. now rewrite <- !List.app_assoc.
Qed.

(** X9. A GUID key without a Count subkey aborts the run: when the keys
    before it decode, [main] raises RegistryKeyNotFoundException after
    their lines, and the file system is left as it was. *)
Theorem missing_count_aborts (path out ua_key : string) (w : world) (h : hive)
        (before after : list guid_key) (g : guid_key) :
  hive_at csv_hive path w = Some (Regf h) ->
  hive_type h = "ntuser.dat" ->
  userassist h = Some (ua_key, before ++ g :: after)%list ->
  Forall guid_decodes before -> count_values g = None ->
  main folder_guids csv_hive path out w =
  (Raise RegistryKeyNotFoundException,
   mk_world (stdout w ++ (newline ++ "[+] Found " ++ ua_key)%string
                          :: guid_messages before)%list
            (cwd w) (fs w)).
Proof.
  intros Hfile Htype Hkey Hok Hcount.
  rewrite (main_read folder_guids csv_hive path out w _ Hfile), Htype, Hkey.
  cbn [String.eqb]. rewrite !Ascii.eqb_refl.
  rewrite (parse_guids_decodes folder_guids before (g :: after) Hok).
  cbn [parse_guids]. rewrite Hcount. run.
  now rewrite <- List.app_assoc.
Qed.

(** X10. A hive of another type: [get_key] prints the complaint and returns
    None, and [write_output] fails on it with TypeError after it has made
    the directories and written the header. *)
Theorem wrong_hive_type_crashes (path out : string) (w : world) (h : hive) :
  hive_at csv_hive path w = Some (Regf h) -> hive_type h <> "ntuser.dat" ->
  out_ready out w = true ->
  main folder_guids csv_hive path out w =
  (Raise TypeError,
   mk_world (stdout w ++ [(newline ++ path_name (Path path)
                           ++ " is not an NTUSER.DAT file")%string])%list
            (cwd w)
            (put (csv_loc out w) (File (Csv [header])) (out_fs out w))).
Proof.
  intros Hfile Htype Hready. apply String.eqb_neq in Htype.
  rewrite (main_read folder_guids csv_hive path out w _ Hfile), Htype.
  now rewrite write_output_none by exact Hready.
Qed.

(** X11. Input that cannot be read as a hive leaves the file system as it
    was: a path that names no regular file gives one line and no exception;
    a file without the regf signature gives SystemExit, and a file too
    short to hold a signature gives struct.error, before anything is
    printed. *)
Theorem unreadable_input_writes_nothing (path out : string) (w : world) :
  (regular_file path w = false ->
   main folder_guids csv_hive path out w =
   (Ok tt, mk_world (stdout w ++ [(newline ++ "Invalid file path: "
                                   ++ path_str (Path path))%string])%list
                    (cwd w) (fs w))) /\
  (hive_at csv_hive path w = Some NotRegf ->
   main folder_guids csv_hive path out w =
   (Raise (SystemExit (newline ++ "[x] Wrong file type, regf Signature not found")), w)) /\
  (hive_at csv_hive path w = Some TooShort ->
   main folder_guids csv_hive path out w = (Raise StructError, w)).
Proof.
  split; [|split]; intros Hfile.
  - unfold main, bindM. now rewrite (regular_file_false path w Hfile).
  - now rewrite (main_read folder_guids csv_hive path out w _ Hfile).
  - now rewrite (main_read folder_guids csv_hive path out w _ Hfile).
Qed.

(** X15. An output path that names a regular file: the file counts as
    existing, so no directory is made, and opening the report below it
    fails with NotADirectoryError; nothing is written or printed. *)
Theorem output_under_file_fails (ua_list : option (list pd_dict)) (out : string)
        (w : world) (l : loc) (c : content) :
  locate (Path out) w = Ok l -> node_at l w = Some (File c) ->
  write_output ua_list out w = (Raise NotADirectoryError, w).
Proof.
  intros Hloc Hnode. unfold write_output, bindM, exists_, stat.
  rewrite Hloc, Hnode. unfold ret.
  rewrite joinpath_csv. unfold open_w, locate. cbn [root parts].
  change (start (mk_path (root (Path out)) (parts (Path out) ++ ["UserAssist.csv"])%list) w)
    with (start (Path out) w).
  unfold locate in Hloc. rewrite walk_app, Hloc. cbn [walk]. now rewrite Hnode.
Qed.

(** ** What a run never touches *)

Lemma only_touches_refl (t : loc) (w : world) : only_touches t w w.
Proof. split; [reflexivity | intros l; now left]. Qed.

Lemma only_touches_trans (t : loc) (w1 w2 w3 : world) :
  only_touches t w1 w2 -> only_touches t w2 w3 -> only_touches t w1 w3.
Proof.
  intros [C1 H1] [C2 H2]. split; [congruence|]. intros l.
  destruct (H1 l) as [A1|[[N1 D1]|(E1 & ND1 & rows1 & R1)]];
    destruct (H2 l) as [A2|[[N2 D2]|(E2 & ND2 & rows2 & R2)]].
  - left. congruence.
  - right. left. split; congruence.
  - right. right. split; [exact E2|]. split; [congruence | now exists rows2].
  - right. left. split; congruence.
  - congruence.
  - congruence.
  - right. right. split; [exact E1|]. split; [exact ND1|]. exists rows1. congruence.
  - congruence.
  - right. right. split; [exact E1|]. split; [exact ND1 | now exists rows2].
Qed.

Lemma same_files_only_touches (t : loc) (w w' : world) :
  same_files w w' -> only_touches t w w'.
Proof.
  intros [Hc Hf]. split; [exact Hc|]. intros l. left.
  unfold node_at. now rewrite Hf.
Qed.

Lemma node_at_put_same (l : loc) (n : node) (w : world) :
  l <> [] -> node_at l (set_fs (put l n (fs w)) w) = Some n.
Proof.
  intros Hl. destruct l as [|x l]; [contradiction|].
  cbn [node_at set_fs fs]. apply lookup_put_same.
Qed.

Lemma node_at_put_other (l l0 : loc) (n : node) (w : world) :
  l0 <> l -> node_at l0 (set_fs (put l n (fs w)) w) = node_at l0 w.
Proof.
  intros Hne. destruct l0 as [|x l0]; [reflexivity|].
  cbn [node_at set_fs fs]. now apply lookup_put_other.
Qed.

Lemma bindM_touches {A B : Type} (t : loc) (m : M A) (k : A -> M B) :
  (forall w, only_touches t w (snd (m w))) ->
  (forall a w, only_touches t w (snd (k a w))) ->
  forall w, only_touches t w (snd (bindM m k w)).
Proof.
  intros Hm Hk w. unfold bindM. specialize (Hm w).
  destruct (m w) as [[a|e] w1]; cbn [snd] in *; [|exact Hm].
  eapply only_touches_trans; [exact Hm | apply Hk].
Qed.

Lemma stat_world (p : path) (w : world) : snd (stat p w) = w.
Proof.
  unfold stat. destruct (locate p w) as [l|e]; [|reflexivity].
  now destruct (node_at l w).
Qed.

Lemma is_dir_world (p : path) (w : world) : snd (is_dir p w) = w.
Proof.
  unfold is_dir. destruct (stat p w) as [[[|c]|e] w1]; reflexivity.
Qed.

(** A new directory. *)
Lemma os_mkdir_touches (p : path) (t : loc) (w : world) :
  only_touches t w (snd (os_mkdir p w)).
Proof.
  unfold os_mkdir. destruct (locate p w) as [l|e]; [|apply only_touches_refl].
  destruct (node_at l w) as [n|] eqn:E; [apply only_touches_refl|].
  cbn [snd]. split; [reflexivity|]. intros l0.
  destruct (loc_eqb_spec l0 l) as [->|Hne].
  - right. left. split; [exact E|]. apply node_at_put_same.
    intros ->. discriminate E.
  - left. now apply node_at_put_other.
Qed.

Lemma mkdir_exist_ok_touches (p : path) (t : loc) (w : world) :
  only_touches t w (snd (mkdir_exist_ok p w)).
Proof.
  pose proof (os_mkdir_touches p t w) as H. unfold mkdir_exist_ok.
  destruct (os_mkdir p w) as [[[]|e] w1]; cbn [snd] in *; [exact H|].
  destruct e; try exact H;
    destruct (is_dir p w1) as [[[|]|e'] w2]; exact H.
Qed.

Lemma mkdir_parents_touches (r : string) (rev_parts : list string) (t : loc) :
  forall w, only_touches t w (snd (mkdir_parents r rev_parts w)).
Proof.
  induction rev_parts as [|x above IH]; intros w; cbn [mkdir_parents].
  - pose proof (os_mkdir_touches (mk_path r (rev [])) t w) as H0.
    destruct (os_mkdir _ w) as [[[]|e] w1]; cbn [snd] in *; [exact H0|].
    destruct e; try exact H0;
      destruct (is_dir _ w1) as [[[|]|e'] w2]; exact H0.
  - pose proof (os_mkdir_touches (mk_path r (rev (x :: above))) t w) as H1.
    destruct (os_mkdir _ w) as [[[]|e] w1]; cbn [snd] in *; [exact H1|].
    destruct e;
      try (destruct (is_dir _ w1) as [[[|]|e'] w2]; exact H1).
    eapply only_touches_trans; [exact H1|].
    apply bindM_touches; [apply IH | intros _; apply mkdir_exist_ok_touches].
Qed.

(** Opening the report. *)
Lemma open_w_touches (p : path) (w : world) :
  match open_w p w with
  | (Ok fh, w') => only_touches fh w w' /\ opened fh w'
  | (Raise _, w') => w' = w
  end.
Proof.
  unfold open_w. destruct (locate p w) as [l|e]; [|reflexivity].
  assert (Hopen : node_at l w <> Some Dir ->
                  only_touches l w (set_fs (put l (File (Csv [])) (fs w)) w) /\
                  opened l (set_fs (put l (File (Csv [])) (fs w)) w)).
  { intros Hnd. assert (Hl : l <> []) by (intros ->; now apply Hnd).
    split.
    - split; [reflexivity|]. intros l0.
      destruct (loc_eqb_spec l0 l) as [->|Hne].
      + right. right. split; [reflexivity|]. split; [exact Hnd|].
        exists []. now apply node_at_put_same.
      + left. now apply node_at_put_other.
    - exists []. now apply node_at_put_same. }
  destruct (node_at l w) as [[|c]|]; [reflexivity | |]; apply Hopen; discriminate.
Qed.

Lemma writes_only_bind {A B : Type} (fh : loc) (m : M A) (k : A -> M B) :
  writes_only fh m -> (forall a, writes_only fh (k a)) ->
  writes_only fh (bindM m k).
Proof.
  intros Hm Hk w Hw. unfold bindM. destruct (Hm w Hw) as [Ht Ho].
  destruct (m w) as [[a|e] w1]; cbn [snd] in *; [|now split].
  destruct (Hk a w1 Ho) as [Ht' Ho']. split; [|exact Ho'].
  eapply only_touches_trans; eassumption.
Qed.

Lemma writes_only_same {A : Type} (fh : loc) (m : M A) :
  (forall w, same_files w (snd (m w))) -> writes_only fh m.
Proof.
  intros H w [rows Hw]. specialize (H w). split.
  - now apply same_files_only_touches.
  - exists rows. destruct H as [_ Hf]. unfold node_at in *. now rewrite Hf.
Qed.

Lemma writes_only_forM {A : Type} (fh : loc) (body : A -> M unit) (l : list A) :
  (forall a, writes_only fh (body a)) -> writes_only fh (forM_ l body).
Proof.
  intros Hbody. induction l as [|a l IH]; cbn [forM_].
  - apply writes_only_same. intros w. apply same_files_refl.
  - apply writes_only_bind; [apply Hbody | intros _; exact IH].
Qed.

Lemma writes_only_writerow (fh : loc) (row : csv_row) :
  writes_only fh (writerow fh row).
Proof.
  intros w [rows Hw]. unfold writerow. cbn [snd]. rewrite Hw.
  assert (Hfh : fh <> []) by (intros ->; discriminate Hw).
  split; [split; [reflexivity|]|].
  - intros l0. destruct (loc_eqb_spec l0 fh) as [->|Hne].
    + right. right. split; [reflexivity|]. split; [congruence|].
      eexists. now apply node_at_put_same.
    + left. now apply node_at_put_other.
  - eexists. now apply node_at_put_same.
Qed.

Lemma writes_only_index (fh : loc) (val : list pyval) (i : nat) :
  writes_only fh (index val i).
Proof.
  apply writes_only_same. intros w. unfold index.
  destruct (nth_error val i); apply same_files_refl.
Qed.

(** [write_output] makes directories and writes one file. *)
Lemma write_output_touches (ua_list : option (list pd_dict)) (out : string) (w : world) :
  exists target, only_touches target w (snd (write_output ua_list out w)).
Proof.
  unfold write_output. unfold bindM at 1.
  assert (Hex : exists there, exists_ (Path out) w = (Ok there, w)).
  { unfold exists_. pose proof (stat_world (Path out) w) as Hs.
    destruct (stat (Path out) w) as [[n|e] w0]; now eexists. }
  destruct Hex as [there ->]. unfold bindM at 1.
  assert (Hdir : forall t, only_touches t w
                   (snd ((if there then ret tt else mkdir (Path out)) w))).
  { intros t. destruct there; [apply only_touches_refl|].
    apply mkdir_parents_touches. }
  destruct ((if there then ret tt else mkdir (Path out)) w) as [[[]|e1] w1];
    cbn [snd] in Hdir; [|exists []; apply Hdir].
  unfold bindM at 1.
  pose proof (open_w_touches (joinpath (Path out) "UserAssist.csv") w1) as Hopen.
  destruct (open_w (joinpath (Path out) "UserAssist.csv") w1) as [[fh|e2] w2].
  - destruct Hopen as [Htouch Hopened]. exists fh.
    eapply only_touches_trans; [apply Hdir|].
    eapply only_touches_trans; [exact Htouch|].
    refine (proj1 (_ w2 Hopened)).
    apply writes_only_bind; [apply writes_only_writerow | intros _].
    apply writes_only_bind.
    + destruct ua_list as [ua_list|];
        [|apply writes_only_same; intros w0; apply same_files_refl].
      apply writes_only_forM. intros program.
      apply writes_only_forM. intros [key val].
      destruct val as [|v val];
        [apply writes_only_same; intros w0; apply same_files_refl|].
      repeat (apply writes_only_bind; [apply writes_only_index | intros ?]).
      apply writes_only_writerow.
    + intros _. apply writes_only_same. intros w0. now split.
  - subst w2. exists []. apply Hdir.
Qed.

Lemma get_key_same_files (ntuser_path : path) (file : string) (w : world) :
  same_files w (snd (get_key folder_guids csv_hive ntuser_path file w)).
Proof.
  unfold get_key, bindM at 1.
  assert (Hread : snd (Registry csv_hive file w) = w).
  { unfold Registry, bindM, read_file.
    destruct (String.eqb file ""); [reflexivity|].
    destruct (locate (Path file) w) as [l|e]; [|reflexivity].
    destruct (node_at l w) as [[|c]|]; try reflexivity.
    destruct (names_dir file); reflexivity. }
  destruct (Registry csv_hive file w) as [[hf|e] w0]; cbn [snd] in Hread; subst w0;
    [|apply same_files_refl].
  destruct hf as [|h|]; try apply same_files_refl.
  destruct (String.eqb (hive_type h) "ntuser.dat"); [|now split].
  destruct (userassist h) as [[ua_key guids]|]; [|now split].
  run.
  match goal with
  | |- context [parse_guids _ _ ?pd ?w0] =>
      pose proof (parse_guids_same_files folder_guids guids pd w0) as Hs;
      destruct (parse_guids folder_guids guids pd w0) as [[pd'|e] w1]
  end; cbn [snd] in *;
    (eapply same_files_trans; [|exact Hs]); now split.
Qed.

(** X12. Whatever the input, and however the run ends, what a run changes
    in the file system is this: directories are added, and one regular
    file at most is made or replaced by a CSV text; every other node is
    as it was. *)
Theorem main_only_touches (path out : string) (w : world) :
  exists target,
    only_touches target w (snd (main folder_guids csv_hive path out w)).
Proof.
  unfold main, bindM at 1.
  assert (Hfile : exists regular, is_file (Path path) w = (Ok regular, w)).
  { unfold is_file. pose proof (stat_world (Path path) w) as Hs.
    destruct (stat (Path path) w) as [[[|c]|e] w0]; cbn [snd] in Hs; subst w0;
      now eexists. }
  destruct Hfile as [regular ->].
  destruct regular; [|exists []; apply same_files_only_touches; now split].
  unfold bindM.
  pose proof (get_key_same_files (Path path) (path_str (Path path)) w) as Hsame.
  destruct (get_key folder_guids csv_hive (Path path) (path_str (Path path)) w)
    as [[ua_dict|e] w1]; cbn [snd] in Hsame.
  - destruct (write_output_touches ua_dict out w1) as [target Htouch].
    exists target. eapply only_touches_trans; [|exact Htouch].
    now apply same_files_only_touches.
  - exists []. now apply same_files_only_touches.
Qed.

End Run.

Lemma sample_guids_decode : Forall guid_decodes sample_guids.
Proof.
  repeat constructor.
  - exists []. split; [reflexivity | intros v []].
  - eexists. split; [reflexivity|].
    intros v [<-|[<-|[<-|[]]]]; eexists; vm_compute; reflexivity.
Qed.

Lemma get_key_entries_witness :
  get_key system_table csv_not_regf (Path "NTUSER.DAT") (path_str (Path "NTUSER.DAT"))
          sample_world =
  (Ok (Some (map (entry_of system_table) (hive_values sample_guids))),
   mk_world (stdout sample_world ++ (newline ++ "[+] Found " ++ "UserAssist")%string
                                    :: guid_messages sample_guids)%list
            (cwd sample_world) (fs sample_world)).
Proof.
  apply (get_key_entries system_table csv_not_regf "NTUSER.DAT" "UserAssist"
           sample_world _ sample_guids eq_refl eq_refl eq_refl sample_guids_decode).
Defined.

Lemma write_output_rows_witness :
  write_output (Some [[("cmd.exe", [PInt 0; absent; absent; absent])];
                      [("notepad.exe", [])]]) "reports/today" sample_world =
  (Ok tt,
   mk_world (stdout sample_world
             ++ [("[+] Output written to " ++ csv_name "reports/today")%string])%list
            (cwd sample_world)
            (put (csv_loc "reports/today" sample_world)
               (File (Csv (header :: rows_of [[("cmd.exe", [PInt 0; absent; absent; absent])];
                                              [("notepad.exe", [])]])))
               (out_fs "reports/today" sample_world))).
Proof.
  apply (write_output_rows _ "reports/today" sample_world); [reflexivity|].
  intros d item [<-|[<-|[]]] [<-|[]]; cbn; [right; lia | now left].
Defined.

Lemma main_report_witness :
  main system_table csv_not_regf "NTUSER.DAT" "out" sample_world =
  (Ok tt,
   mk_world (stdout sample_world
             ++ (newline ++ "[+] Found " ++ "UserAssist")%string
                :: guid_messages sample_guids
             ++ [("[+] Output written to " ++ csv_name "out")%string])%list
            (cwd sample_world)
            (put (csv_loc "out" sample_world)
                 (File (Csv (header :: flat_map (value_rows system_table)
                                                (hive_values sample_guids))))
                 (out_fs "out" sample_world))).
Proof.
  apply (main_report system_table csv_not_regf "NTUSER.DAT" "out" "UserAssist"
           sample_world _ sample_guids eq_refl eq_refl eq_refl sample_guids_decode
           eq_refl).
Defined.

(** The file of that run: the stale content is gone, the record of unknown
    length has no row, and the identifier of the third name is resolved. *)
Example main_report_sample :
  node_at ["work"; "out"; "UserAssist.csv"]
          (snd (main system_table csv_not_regf "NTUSER.DAT" "out" sample_world))
  = Some (File (Csv [header;
                     [PStr "cmd.exe"; PInt 0; absent; absent; absent];
                     [PStr "System32\calc.exe"; PInt 3; PInt 2;
                      PStr "1 day, 0:00:00"; absent]])).
Proof. vm_compute. reflexivity. Qed.

Lemma missing_count_aborts_witness :
  main [] csv_not_regf "NTUSER.DAT" "out" world_without_count =
  (Raise RegistryKeyNotFoundException,
   mk_world (stdout world_without_count
             ++ (newline ++ "[+] Found " ++ "UserAssist")%string
                :: guid_messages [mk_guid "{CEBFF5CD-ACE2-4F4F-9178-9926F41749EA}"
                                    (Some [mk_value "pzq.rkr" xp_payload])])%list
            (cwd world_without_count) (fs world_without_count)).
Proof.
  apply (missing_count_aborts [] csv_not_regf "NTUSER.DAT" "out" "UserAssist"
           world_without_count
           _ [mk_guid "{CEBFF5CD-ACE2-4F4F-9178-9926F41749EA}"
                (Some [mk_value "pzq.rkr" xp_payload])]
           [] (mk_guid "{F4E57C4B-2036-45F0-A9AB-443BCFE33D9F}" None)
           eq_refl eq_refl eq_refl).
  - repeat constructor. eexists. split; [reflexivity|].
    intros v [<-|[]]. eexists. vm_compute. reflexivity.
  - reflexivity.
Defined.

Lemma wrong_hive_type_crashes_witness :
  main [] csv_not_regf "./SYSTEM" "out/" world_with_system_hive =
  (Raise TypeError,
   mk_world (stdout world_with_system_hive
             ++ [(newline ++ path_name (Path "./SYSTEM")
                  ++ " is not an NTUSER.DAT file")%string])%list
            (cwd world_with_system_hive)
            (put (csv_loc "out/" world_with_system_hive) (File (Csv [header]))
                 (out_fs "out/" world_with_system_hive))).
Proof.
  apply (wrong_hive_type_crashes [] csv_not_regf "./SYSTEM" "out/" world_with_system_hive
           (mk_hive "system" None) eq_refl); [discriminate | reflexivity].
Defined.

Lemma unreadable_input_writes_nothing_witness :
  main [] csv_not_regf "notes.txt" "out" sample_world = (Raise StructError, sample_world).
Proof.
  apply (proj2 (proj2 (unreadable_input_writes_nothing [] csv_not_regf
                         "notes.txt" "out" sample_world))).
  reflexivity.
Defined.

Lemma output_under_file_fails_witness :
  write_output (Some []) "notes.txt" sample_world
  = (Raise NotADirectoryError, sample_world).
Proof.
  apply (output_under_file_fails (Some []) "notes.txt" sample_world
           ["work"; "notes.txt"] (Hive TooShort)); reflexivity.
Defined.
(* ================================================================== *)
(** * Further properties of the identifier resolver *)

(** Where the pattern does not occur, [replace] changes nothing. *)
Lemma replace_scan_absent (old new s : string) :
  occurs old s = false -> replace_scan old new O s = s.
Proof.
  induction s as [|c s IH]; intros H; [reflexivity|].
  cbn [occurs] in H. apply orb_false_iff in H as [Hpre Hocc].
  cbn [replace_scan]. rewrite Hpre. now rewrite IH.
Qed.

(** The resolver on a name whose de-obfuscated first segment is a key. *)
Lemma resolve_at_head (folder_guids : list (string * string))
      (name key val : string) :
  NoDup (map fst folder_guids) -> In (key, val) folder_guids ->
  split0 "\" (rot13 name) = key -> key <> EmptyString ->
  resolve folder_guids name
  = val ++ replace key val (drop (String.length key) (rot13 name)).
Proof.
  intros Hnd Hin Hseg Hkey. unfold resolve, resolve_guid.
  rewrite (resolve_guid_items_some folder_guids _ key val Hnd Hin Hseg).
  apply replace_at_head; [exact Hkey|].
  rewrite <- Hseg. apply split0_prefix.
Qed.

(** X13. When the matched identifier occurs only as the leading segment,
    the resolver replaces that segment alone: the result is the folder name
    followed by the rest of the de-obfuscated name. *)
Theorem resolve_single_occurrence (folder_guids : list (string * string))
        (name key val : string) :
  NoDup (map fst folder_guids) -> In (key, val) folder_guids ->
  split0 "\" (rot13 name) = key -> key <> EmptyString ->
  occurs key (drop (String.length key) (rot13 name)) = false ->
  resolve folder_guids name = replace_leading key val (rot13 name).
Proof.
  intros Hnd Hin Hseg Hkey Hocc.
  rewrite (resolve_at_head folder_guids name key val Hnd Hin Hseg Hkey).
  unfold replace_leading. f_equal.
  destruct key as [|k key]; [contradiction|].
  unfold replace. now apply replace_scan_absent.
Qed.

Lemma resolve_single_occurrence_witness :
  resolve system_table "{1NP14R77-02R7-4R5Q-O744-2RO1NR5198O7}\pnyp.rkr"
  = replace_leading "{1AC14E77-02E7-4E5D-B744-2EB1AE5198B7}" "System32"
      (rot13 "{1NP14R77-02R7-4R5Q-O744-2RO1NR5198O7}\pnyp.rkr").
Proof.
  apply (resolve_single_occurrence system_table
           "{1NP14R77-02R7-4R5Q-O744-2RO1NR5198O7}\pnyp.rkr"
           "{1AC14E77-02E7-4E5D-B744-2EB1AE5198B7}" "System32").
  - repeat constructor; cbn; tauto.
  - now left.
  - reflexivity.
  - discriminate.
  - reflexivity.
Defined.

(** Rot-13 keeps the path separator apart from every other character. *)
Lemma rot13_char_backslash (c : ascii) :
  Ascii.eqb (rot13_char c) "\" = Ascii.eqb c "\".
Proof.
  destruct c as [[] [] [] [] [] [] [] []]; reflexivity.
Qed.

Lemma split0_rot13 (s : string) :
  split0 "\" (rot13 s) = rot13 (split0 "\" s).
Proof.
  induction s as [|c s IH]; cbn [rot13 split0]; [reflexivity|].
  rewrite rot13_char_backslash.
  destruct (Ascii.eqb c "\"); cbn [rot13]; [reflexivity | now rewrite IH].
Qed.

Lemma drop_rot13 (n : nat) (s : string) :
  drop n (rot13 s) = rot13 (drop n s).
Proof.
  revert s. induction n as [|n IH]; intros [|c s]; cbn [drop rot13]; auto.
Qed.

Lemma length_rot13 (s : string) : String.length (rot13 s) = String.length s.
Proof. induction s as [|c s IH]; cbn; [reflexivity | now rewrite IH]. Qed.

(** X14. Matching read on the stored name: de-obfuscation keeps the
    separators, so a stored name whose first segment is the rot-13 image of
    a table key resolves to the folder name followed by the de-obfuscated
    rest of the stored name (with the further occurrences of the key in it
    replaced as well); a stored name whose first segment is the rot-13
    image of no key is only de-obfuscated. *)
Theorem resolve_stored_name (folder_guids : list (string * string))
        (name : string) :
  NoDup (map fst folder_guids) ->
  (forall key val,
      In (key, val) folder_guids -> key <> EmptyString ->
      split0 "\" name = rot13 key ->
      resolve folder_guids name
      = val ++ replace key val (rot13 (drop (String.length (split0 "\" name)) name))) /\
  ((forall key val, In (key, val) folder_guids -> split0 "\" name <> rot13 key) ->
   resolve folder_guids name = rot13 name).
Proof.
  intros Hnd. split.
  - intros key val Hin Hkey Hseg.
    assert (Hseg' : split0 "\" (rot13 name) = key)
      by (now rewrite split0_rot13, Hseg, rot13_involutive).
    rewrite (resolve_at_head folder_guids name key val Hnd Hin Hseg' Hkey).
    now rewrite drop_rot13, Hseg, length_rot13.
  - intros Hnone. unfold resolve, resolve_guid.
    apply resolve_guid_items_none.
    intros key val Hin Hseg. apply (Hnone key val Hin).
    now rewrite <- Hseg, split0_rot13, rot13_involutive.
Qed.

Lemma resolve_stored_name_witness :
  (forall key val,
      In (key, val) system_table -> key <> EmptyString ->
      split0 "\" twice_name = rot13 key ->
      resolve system_table twice_name
      = val ++ replace key val
                 (rot13 (drop (String.length (split0 "\" twice_name)) twice_name))) /\
  ((forall key val, In (key, val) system_table -> split0 "\" twice_name <> rot13 key) ->
   resolve system_table twice_name = rot13 twice_name).
Proof.
  apply (resolve_stored_name system_table twice_name).
  repeat constructor; cbn; tauto.
Defined.

